(** * Definition builders for WebIDL and TypeScript (src/definitions.ts)

    A shallow embedding of the exports walker and of the two builders that
    extend it, [IDLBuilder] and [TSDBuilder], followed by the properties
    that the specification states about them. *)

From Stdlib Require Import ZArith Ascii String DecimalString.
From stdpp Require Import base tactics option list strings gmap.

#[local] Set Warnings "-register-all".

Local Open Scope Z_scope.
Local Open Scope string_scope.

(** ** Outcome of a call

    [assert(false)] raises; no builder method catches, so a failed
    assertion aborts the whole build and no output string is produced. *)

Inductive Result (A : Type) : Type :=
| Ok (a : A)
| AssertionFailed.

Arguments Ok {A} a.
Arguments AssertionFailed {A}.

Definition bind {A B : Type} (r : Result A) (k : A -> Result B) : Result B :=
  match r with
  | Ok a => k a
  | AssertionFailed => AssertionFailed
  end.

Notation "'let*' x ':=' r 'in' k" := (bind r (fun x => k))
  (at level 10, x name, r at level 200, k at level 200).

(** ** 32-bit counters

    [indentLevel] is declared [i32]; [++] and [--] wrap around. *)

Definition i32_wrap (z : Z) : Z := (z + 2 ^ 31) mod 2 ^ 32 - 2 ^ 31.
Definition i32_range (z : Z) : Prop := - 2 ^ 31 <= z < 2 ^ 31.
Definition i32_incr (z : Z) : Z := i32_wrap (z + 1).
Definition i32_decr (z : Z) : Z := i32_wrap (z - 1).

(** ** Types (./types) *)

(** Modelled from the spec: ./types is not part of the sources.  The
    primitive kinds are the fourteen that the spec's data model lists;
    [OTHER] stands for every further value of the enumeration, which is what
    the [default] branch of the two [typeToString] tables receives. *)
Inductive TypeKind : Type :=
| I8 | I16 | I32 | I64 | ISIZE
| U8 | U16 | U32 | U64 | USIZE
| BOOL | F32 | F64 | VOID
| OTHER.

(** Modelled from the spec: a [Type] is read only through its [kind]. *)
Record Type_ : Type := mkType { type_kind : TypeKind }.

(** ** Program elements (./program) *)

(** Modelled from the spec: ./program is not part of the sources.  The
    element kinds are those of the spec's data model. *)
Inductive ElementKind : Type :=
| GLOBAL | ENUM | ENUMVALUE
| FUNCTION_PROTOTYPE | FUNCTION
| CLASS_PROTOTYPE | CLASS | INTERFACE
| NAMESPACE.

(** Modelled from the spec: the flags of an element form a bit set that is
    checked one flag at a time; the three flags below are the ones read by
    the builders, the bit positions are not observable. *)
Inductive CommonFlags : Type := COMPILED | INLINED | ABSTRACT.

(** Modelled from the spec: the flags that an element carries. *)
Record FlagSet : Type := mkFlags {
  flag_compiled : bool;
  flag_inlined : bool;
  flag_abstract : bool
}.

(** Modelled from the spec: the optional constant of a [Global] is tagged
    as an integer or as a float. *)
Inductive ConstantValueKind : Type := NONE | INTEGER | FLOAT.

(** Modelled from the spec: a float constant is observed only through its
    standard decimal formatting, [toString()]. *)
Record f64 : Type := mkF64 { f64_toString : string }.

(** Modelled from the spec: ordered parameter types, parameter names (read
    through [getParameterName]) and a return type. *)
Record Signature : Type := mkSignature {
  parameterTypes : list Type_;
  getParameterName : nat -> string;
  returnType : Type_
}.

(** An insertion-ordered [Map<string, V>]: the entries in the order in
    which iteration yields them. *)
Definition Map (V : Type) : Type := list (string * V).

(** Modelled from the spec: an element carries the fields common to all
    kinds ([kind], [simpleName], [flags], optional [members]) together with
    the fields that the builders read after an unchecked cast to a
    particular kind: [type] and the constant of a [Global],
    [constantValue] of an [EnumValue], [instances] of a prototype,
    [signature] of a [Function], the simple name of the [base] of a
    [Class] or [Interface].  [ident] is the identity of the object, the key
    under which [Set<Element>] stores it: two occurrences of one object in
    the graph are two copies of the same tree with the same [ident]. *)
Inductive Element : Type := mkElement {
  ident : nat;
  kind : ElementKind;
  simpleName : string;
  flags : FlagSet;
  members : option (Map Element);
  type : Type_;
  constantValueKind : ConstantValueKind;
  constantIntegerValue : Z;
  constantFloatValue : f64;
  constantValue : Z;
  instances : Map Element;
  signature : Signature;
  base : option string
}.

(** Modelled from the spec: [element.is(flag)], the test of one flag. *)
Definition is_ (element : Element) (flag : CommonFlags) : bool :=
  match flag with
  | COMPILED => flag_compiled (flags element)
  | INLINED => flag_inlined (flags element)
  | ABSTRACT => flag_abstract (flags element)
  end.

(** Modelled from the spec: the module-wide addressing-width flag. *)
Record Options : Type := mkOptions { isWasm64 : bool }.

(** Modelled from the spec: the export graph, that is the root export
    mapping, and the options. *)
Record Program : Type := mkProgram {
  moduleLevelExports : Map Element;
  options : Options
}.

(** ** Builder state

    Both builders declare the same private fields next to the inherited
    [program]: the fragment list [sb], the set [seen] and [indentLevel]. *)

Record Builder : Type := mkBuilder {
  program : Program;
  sb : list string;
  seen : gset nat;
  indentLevel : Z
}.

(** [new IDLBuilder(program)] and [new TSDBuilder(program)]. *)
Definition new_ (program : Program) : Builder :=
  {| program := program; sb := []; seen := ∅; indentLevel := 0 |}.

(** [sb.push(s)] *)
Definition push (s : string) (this : Builder) : Builder :=
  {| program := program this; sb := sb this ++ [s];
     seen := seen this; indentLevel := indentLevel this |}.

(** [this.seen.has(element)] *)
Definition seen_has (element : Element) (this : Builder) : bool :=
  bool_decide (ident element ∈ seen this).

(** [this.seen.add(element)] *)
Definition seen_add (element : Element) (this : Builder) : Builder :=
  {| program := program this; sb := sb this;
     seen := {[ident element]} ∪ seen this; indentLevel := indentLevel this |}.

Definition set_indentLevel (level : Z) (this : Builder) : Builder :=
  {| program := program this; sb := sb this;
     seen := seen this; indentLevel := level |}.

(** Modelled from the spec: ./util is not part of the sources.  [indent]
    prefixes the line under construction by the current depth; the unit of
    two blanks per level is the one of the prologue lines that
    [TSDBuilder.build] writes at depth one.  A depth that is not positive
    gives no prefix. *)
Definition indent (level : Z) (this : Builder) : Builder :=
  {| program := program this; sb := sb this ++ repeat "  " (Z.to_nat level);
     seen := seen this; indentLevel := indentLevel this |}.

(** [indent(sb, this.indentLevel++)]: the prefix is written at the depth
    held on entry, the counter is one more afterwards. *)
Definition indent_then_incr (this : Builder) : Builder :=
  let level := indentLevel this in
  let this := set_indentLevel (i32_incr level) this in
  indent level this.

(** [indent(sb, --this.indentLevel)]: the counter is decremented first. *)
Definition decr_then_indent (this : Builder) : Builder :=
  let this := set_indentLevel (i32_decr (indentLevel this)) this in
  indent (indentLevel this) this.

(** The line feed that ends every emitted line. *)
Definition LF : string := String (ascii_of_nat 10) EmptyString.

(** [sb.join] with the empty separator. *)
Definition join (sb : list string) : string := String.concat EmptyString sb.

(** Modelled from the spec: integer literals render as signed decimal;
    this is [i64_to_string] and [toString(10)] on an integer. *)
Definition i64_to_string (z : Z) : string := NilZero.string_of_int (Z.to_int z).

(** [for (let [name, member] of members)]: the entries in insertion order,
    threading the state [S] of the loop; the first failed assertion ends
    the loop. *)
Definition forEntries {V S : Type} (body : string -> V -> S -> Result S)
  : Map V -> S -> Result S :=
  fix loop (entries : Map V) (state : S) : Result S :=
    match entries with
    | [] => Ok state
    | (name, member) :: rest =>
        let* state := body name member state in loop rest state
    end.

(** [for (let member of members.values())] *)
Definition forValues {V S : Type} (body : V -> S -> Result S)
  : Map V -> S -> Result S :=
  forEntries (fun _ member => body member).

(** [members.size] *)
Definition size {V : Type} (m : Map V) : Z := Z.of_nat (length m).

(** ** The walker base class *)

Module ExportsWalker.

(** The abstract visit methods that a builder implements. *)
Record Visitor : Type := mkVisitor {
  visitGlobal : Element -> Builder -> Result Builder;
  visitEnum : Element -> Builder -> Result Builder;
  visitFunction : Element -> Builder -> Result Builder;
  visitClass : Element -> Builder -> Result Builder;
  visitInterface : Element -> Builder -> Result Builder;
  visitNamespace : Element -> Builder -> Result Builder
}.

Definition visitElement (v : Visitor) (element : Element) (this : Builder)
  : Result Builder :=
  match kind element with
  | GLOBAL =>
      if is_ element COMPILED then visitGlobal v element this else Ok this
  | ENUM =>
      if is_ element COMPILED then visitEnum v element this else Ok this
  | FUNCTION_PROTOTYPE =>
      forValues (fun instance this =>
                   if is_ instance COMPILED then visitFunction v instance this
                   else Ok this)
                (instances element) this
  | CLASS_PROTOTYPE =>
      forValues (fun instance this =>
                   if is_ instance COMPILED then visitClass v instance this
                   else Ok this)
                (instances element) this
  | NAMESPACE =>
      if is_ element COMPILED then visitNamespace v element this else Ok this
  | _ => AssertionFailed
  end.

(** [walk], given the dispatcher of the concrete builder. *)
Definition walk (visitElement : Element -> Builder -> Result Builder)
    (this : Builder) : Result Builder :=
  forValues visitElement (moduleLevelExports (program this)) this.

End ExportsWalker.

(** ** The WebIDL builder *)

Module IDLBuilder.

Definition typeToString (this : Builder) (type : Type_) : Result string :=
  match type_kind type with
  | I8 => Ok "byte"
  | I16 => Ok "short"
  | I32 => Ok "long"
  | I64 => Ok "long long"
  | ISIZE => Ok (if isWasm64 (options (program this)) then "long long" else "long")
  | U8 => Ok "octet"
  | U16 => Ok "unsigned short"
  | U32 => Ok "unsigned long"
  | U64 => Ok "unsigned long long"
  | USIZE => Ok (if isWasm64 (options (program this)) then "unsigned long long"
                 else "unsigned long")
  | BOOL => Ok "boolean"
  | F32 => Ok "unrestricted float"
  | F64 => Ok "unrestricted double"
  | VOID => Ok "void"
  | OTHER => AssertionFailed
  end.

Definition visitGlobal (element : Element) (this : Builder) : Result Builder :=
  if seen_has element this then Ok this else
  let this := seen_add element this in
  let isConst := is_ element INLINED in
  let this := indent (indentLevel this) this in
  let this := if isConst then push "const " this else this in
  let* s := typeToString this (type element) in
  let this := push s this in
  let this := push " " this in
  let this := push (simpleName element) this in
  let* this :=
    if isConst then
      match constantValueKind element with
      | INTEGER =>
          let this := push " = " this in
          Ok (push (i64_to_string (constantIntegerValue element)) this)
      | FLOAT =>
          let this := push " = " this in
          Ok (push (f64_toString (constantFloatValue element)) this)
      | _ => AssertionFailed
      end
    else Ok this in
  Ok (push (";" +:+ LF) this).

(** The first loop of [visitEnum]: one line per [EnumValue] member. *)
Definition visitEnumValue (name : string) (member : Element) (this : Builder)
  : Result Builder :=
  match kind member with
  | ENUMVALUE =>
      let isConst := is_ member INLINED in
      let this := indent (indentLevel this) this in
      let this := if isConst then push "const " this
                  else push "readonly " this in
      let this := push "unsigned long " this in
      let this := push name this in
      let this :=
        if isConst then
          let this := push " = " this in
          push (i64_to_string (constantValue member)) this
        else this in
      Ok (push (";" +:+ LF) this)
  | _ => Ok this
  end.

Definition visitEnum (visitElement : Element -> Builder -> Result Builder)
    (element : Element) (this : Builder) : Result Builder :=
  if seen_has element this then Ok this else
  let this := seen_add element this in
  let this := indent_then_incr this in
  let this := push "interface " this in
  let this := push (simpleName element) this in
  let this := push (" {" +:+ LF) this in
  let* this :=
    match members element with
    | Some members =>
        let* this := forEntries visitEnumValue members this in
        forValues (fun member this =>
                     match kind member with
                     | ENUMVALUE => Ok this
                     | _ => visitElement member this
                     end) members this
    | None => Ok this
    end in
  let this := decr_then_indent this in
  Ok (push ("}" +:+ LF) this).

(** The parameter loop of [visitFunction], from index [i] on. *)
Fixpoint visitParameters (signature : Signature) (i : nat)
    (parameters : list Type_) (this : Builder) : Result Builder :=
  match parameters with
  | [] => Ok this
  | parameter :: rest =>
      let this := if Nat.eqb i 0 then this else push ", " this in
      let* s := typeToString this parameter in
      let this := push s this in
      let this := push " " this in
      let this := push (getParameterName signature i) this in
      visitParameters signature (S i) rest this
  end.

Definition visitFunction (visitElement : Element -> Builder -> Result Builder)
    (element : Element) (this : Builder) : Result Builder :=
  if seen_has element this then Ok this else
  let this := seen_add element this in
  let signature := signature element in
  let this := indent (indentLevel this) this in
  let* s := typeToString this (returnType signature) in
  let this := push s this in
  let this := push " " this in
  let this := push (simpleName element) this in
  let this := push "(" this in
  let* this := visitParameters signature 0 (parameterTypes signature) this in
  let this := push (");" +:+ LF) this in
  match members element with
  | Some members =>
      if Z.eqb (size members) 0 then Ok this else
      let this := indent (indentLevel this) this in
      let this := push "interface " this in
      let this := push (simpleName element) this in
      let this := push (" {" +:+ LF) this in
      let* this := forValues visitElement members this in
      let this := decr_then_indent this in
      Ok (push ("}" +:+ LF) this)
  | None => Ok this
  end.

Definition visitClass (element : Element) (this : Builder) : Result Builder :=
  if seen_has element this then Ok this else
  let this := seen_add element this in
  let this := indent_then_incr this in
  let this := push "interface " this in
  let this := push (simpleName element) this in
  let this := push (" {" +:+ LF) this in
  let this := decr_then_indent this in
  Ok (push ("}" +:+ LF) this).

Definition visitInterface (element : Element) (this : Builder) : Result Builder :=
  visitClass element this.

Definition visitNamespace (visitElement : Element -> Builder -> Result Builder)
    (element : Element) (this : Builder) : Result Builder :=
  if seen_has element this then Ok this else
  let this := seen_add element this in
  let this := indent_then_incr this in
  let this := push "interface " this in
  let this := push (simpleName element) this in
  let this := push (" {" +:+ LF) this in
  let* this :=
    match members element with
    | Some members => forValues visitElement members this
    | None => Ok this
    end in
  let this := decr_then_indent this in
  Ok (push ("}" +:+ LF) this).

(** The methods of the class, given the inherited dispatcher. *)
Definition visitor (visitElement : Element -> Builder -> Result Builder)
  : ExportsWalker.Visitor :=
  ExportsWalker.mkVisitor visitGlobal (visitEnum visitElement)
    (visitFunction visitElement) visitClass visitInterface
    (visitNamespace visitElement).

(** The inherited [visitElement], bound to this class's methods. *)
Fixpoint visitElement (element : Element) (this : Builder) {struct element}
  : Result Builder :=
  ExportsWalker.visitElement (visitor visitElement) element this.

Definition walk : Builder -> Result Builder := ExportsWalker.walk visitElement.

Definition build (this : Builder) : Result string :=
  let this := push ("interface ASModule {" +:+ LF) this in
  let this := set_indentLevel (i32_incr (indentLevel this)) this in
  let* this := walk this in
  let this := set_indentLevel (i32_decr (indentLevel this)) this in
  let this := push ("}" +:+ LF) this in
  Ok (join (sb this)).

(** [static build(program)] *)
Definition build_static (program : Program) : Result string :=
  build (new_ program).

End IDLBuilder.

(** ** The TypeScript definitions builder *)

Module TSDBuilder.

Definition typeToString (this : Builder) (type : Type_) : Result string :=
  match type_kind type with
  | I8 => Ok "i8"
  | I16 => Ok "i16"
  | I32 => Ok "i32"
  | I64 => Ok "I64"
  | ISIZE => Ok (if isWasm64 (options (program this)) then "I64" else "i32")
  | U8 => Ok "u8"
  | U16 => Ok "u16"
  | U32 => Ok "u32"
  | U64 => Ok "U64"
  | USIZE => Ok (if isWasm64 (options (program this)) then "U64" else "u32")
  | BOOL => Ok "bool"
  | F32 => Ok "f32"
  | F64 => Ok "f64"
  | VOID => Ok "void"
  | OTHER => AssertionFailed
  end.

(** No [seen] test here: the method also serves [visitGlobal], [visitEnum]
    and [visitFunction], which call it on the element they just added. *)
Definition visitNamespace (visitElement : Element -> Builder -> Result Builder)
    (element : Element) (this : Builder) : Result Builder :=
  match members element with
  | Some members =>
      if Z.eqb (size members) 0 then Ok this else
      let this := indent_then_incr this in
      let this := push "namespace " this in
      let this := push (simpleName element) this in
      let this := push (" {" +:+ LF) this in
      let* this := forValues visitElement members this in
      let this := decr_then_indent this in
      Ok (push ("}" +:+ LF) this)
  | None => Ok this
  end.

Definition visitGlobal (visitElement : Element -> Builder -> Result Builder)
    (element : Element) (this : Builder) : Result Builder :=
  if seen_has element this then Ok this else
  let this := seen_add element this in
  let isConst := is_ element INLINED in
  let this := indent (indentLevel this) this in
  let this := if isConst then push "const " this else this in
  let this := push (simpleName element) this in
  let this := push ": " this in
  let* s := typeToString this (type element) in
  let this := push s this in
  let this := push (";" +:+ LF) this in
  visitNamespace visitElement element this.

(** The body of the loop of [visitEnum] over the entries; the state of the
    loop is the builder and the local [numMembers]. *)
Definition visitEnumValue (name : string) (member : Element)
    (state : Builder * Z) : Result (Builder * Z) :=
  let '(this, numMembers) := state in
  match kind member with
  | ENUMVALUE =>
      let this := seen_add member this in
      let this := indent (indentLevel this) this in
      let this := push name this in
      let this :=
        if is_ member INLINED then
          let this := push " = " this in
          push (i64_to_string (constantValue member)) this
        else this in
      let this := push ("," +:+ LF) this in
      Ok (this, i32_decr numMembers)
  | _ => Ok (this, numMembers)
  end.

Definition visitEnum (visitElement : Element -> Builder -> Result Builder)
    (element : Element) (this : Builder) : Result Builder :=
  if seen_has element this then Ok this else
  let this := seen_add element this in
  let this := indent_then_incr this in
  let this := push "enum " this in
  let this := push (simpleName element) this in
  let this := push (" {" +:+ LF) this in
  let* this :=
    match members element with
    | Some members =>
        let numMembers := size members in
        let* state := forEntries visitEnumValue members (this, numMembers) in
        let '(this, numMembers) := state in
        if Z.eqb numMembers 0 then Ok this
        else visitNamespace visitElement element this
    | None => Ok this
    end in
  let this := decr_then_indent this in
  Ok (push ("}" +:+ LF) this).

(** The parameter loop of [visitFunction], from index [i] on. *)
Fixpoint visitParameters (signature : Signature) (i : nat)
    (parameters : list Type_) (this : Builder) : Result Builder :=
  match parameters with
  | [] => Ok this
  | parameter :: rest =>
      let this := if Nat.eqb i 0 then this else push ", " this in
      let this := push (getParameterName signature i) this in
      let this := push ": " this in
      let* s := typeToString this parameter in
      let this := push s this in
      visitParameters signature (S i) rest this
  end.

Definition visitFunction (visitElement : Element -> Builder -> Result Builder)
    (element : Element) (this : Builder) : Result Builder :=
  if seen_has element this then Ok this else
  let this := seen_add element this in
  let signature := signature element in
  let this := indent (indentLevel this) this in
  let this := push "function " this in
  let this := push (simpleName element) this in
  let this := push "(" this in
  let* this := visitParameters signature 0 (parameterTypes signature) this in
  let this := push "): " this in
  let* s := typeToString this (returnType signature) in
  let this := push s this in
  let this := push (";" +:+ LF) this in
  visitNamespace visitElement element this.

Definition visitClass (element : Element) (this : Builder) : Result Builder :=
  if seen_has element this then Ok this else
  let this := seen_add element this in
  let isInterface :=
    match kind element with INTERFACE => true | _ => false end in
  let this := indent_then_incr this in
  let this :=
    if isInterface then push "interface " this
    else
      let this := if is_ element ABSTRACT then push "abstract " this
                  else this in
      push "class " this in
  let this := push (simpleName element) this in
  let this :=
    match base element with
    | Some base_simpleName =>
        let this := push " extends " this in
        push base_simpleName this
    | None => this
    end in
  let this := push (" {" +:+ LF) this in
  let this := decr_then_indent this in
  Ok (push ("}" +:+ LF) this).

Definition visitInterface (element : Element) (this : Builder) : Result Builder :=
  visitClass element this.

(** The methods of the class, given the inherited dispatcher. *)
Definition visitor (visitElement : Element -> Builder -> Result Builder)
  : ExportsWalker.Visitor :=
  ExportsWalker.mkVisitor (visitGlobal visitElement) (visitEnum visitElement)
    (visitFunction visitElement) visitClass visitInterface
    (visitNamespace visitElement).

(** The inherited [visitElement], bound to this class's methods. *)
Fixpoint visitElement (element : Element) (this : Builder) {struct element}
  : Result Builder :=
  ExportsWalker.visitElement (visitor visitElement) element this.

Definition walk : Builder -> Result Builder := ExportsWalker.walk visitElement.

Definition build (this : Builder) : Result string :=
  let this := push ("declare module ASModule {" +:+ LF) this in
  let this := push ("  type i8 = number;" +:+ LF) this in
  let this := push ("  type i16 = number;" +:+ LF) this in
  let this := push ("  type i32 = number;" +:+ LF) this in
  let this := push ("  type u8 = number;" +:+ LF) this in
  let this := push ("  type u16 = number;" +:+ LF) this in
  let this := push ("  type u32 = number;" +:+ LF) this in
  let this := push ("  type f32 = number;" +:+ LF) this in
  let this := push ("  type f64 = number;" +:+ LF) this in
  let this := push ("  type bool = any;" +:+ LF) this in
  let this := set_indentLevel (i32_incr (indentLevel this)) this in
  let* this := walk this in
  let this := set_indentLevel (i32_decr (indentLevel this)) this in
  let this := push ("}" +:+ LF) this in
  Ok (join (sb this)).

(** [static build(program)] *)
Definition build_static (program : Program) : Result string :=
  build (new_ program).

End TSDBuilder.

(** ** Vocabulary of the properties *)

(** The text of the prefix that [indent] writes at depth [level]. *)
Definition indentation (level : Z) : string := join (repeat "  " (Z.to_nat level)).

(** A text given line by line. *)
Definition lines (l : list string) : string := join (map (fun s => s +:+ LF) l).

(** The kinds for which the dispatcher has no case. *)
Definition undispatched (k : ElementKind) : bool :=
  match k with
  | ENUMVALUE | FUNCTION | CLASS | INTERFACE => true
  | _ => false
  end.

(** A fresh builder instance: nothing written, nothing seen, depth zero. *)
Definition fresh (this : Builder) : Prop :=
  sb this = [] /\ seen this = ∅ /\ indentLevel this = 0.

(** [visit element] run from [this] returns normally in [this'] and has
    appended the text [t] to the output. *)
Definition emits (visit : Element -> Builder -> Result Builder)
    (element : Element) (this : Builder) (t : string) (this' : Builder) : Prop :=
  visit element this = Ok this' /\ join (sb this') = join (sb this) +:+ t.

(** The entries of a map whose value is an [EnumValue]. *)
Definition isEnumValue (entry : string * Element) : bool :=
  match kind entry.2 with ENUMVALUE => true | _ => false end.

(** The builder on entry to [walk] in [IDLBuilder.build], started on a
    new instance. *)
Definition IDL_walk_entry (p : Program) : Builder :=
  let this := new_ p in
  let this := push ("interface ASModule {" +:+ LF) this in
  set_indentLevel (i32_incr (indentLevel this)) this.

(** The prologue that [TSDBuilder.build] writes before [walk]. *)
Definition TSD_prologue : string :=
  lines [ "declare module ASModule {";
          "  type i8 = number;";
          "  type i16 = number;";
          "  type i32 = number;";
          "  type u8 = number;";
          "  type u16 = number;";
          "  type u32 = number;";
          "  type f32 = number;";
          "  type f64 = number;";
          "  type bool = any;" ].

(** The builder on entry to [walk] in [TSDBuilder.build], started on a
    new instance. *)
Definition TSD_walk_entry (p : Program) : Builder :=
  let this := new_ p in
  let this := push ("declare module ASModule {" +:+ LF) this in
  let this := push ("  type i8 = number;" +:+ LF) this in
  let this := push ("  type i16 = number;" +:+ LF) this in
  let this := push ("  type i32 = number;" +:+ LF) this in
  let this := push ("  type u8 = number;" +:+ LF) this in
  let this := push ("  type u16 = number;" +:+ LF) this in
  let this := push ("  type u32 = number;" +:+ LF) this in
  let this := push ("  type f32 = number;" +:+ LF) this in
  let this := push ("  type f64 = number;" +:+ LF) this in
  let this := push ("  type bool = any;" +:+ LF) this in
  set_indentLevel (i32_incr (indentLevel this)) this.

(** The indentation depth that a call leaves behind. *)
Definition depthAfter (r : Result Builder) : Result Z :=
  let* this := r in Ok (indentLevel this).

(** [this'] holds the fragments of [this] followed by further ones. *)
Definition appends (this this' : Builder) : Prop :=
  exists t, sb this' = (sb this ++ t)%list.

(** A method that, when it returns, has only added fragments at the end. *)
Definition appending (method : Builder -> Result Builder) : Prop :=
  forall this this', method this = Ok this' -> appends this this'.

(** The dispatcher [ve] appends on every member of [element]. *)
Definition members_appending (ve : Element -> Builder -> Result Builder)
    (element : Element) : Prop :=
  forall ms, members element = Some ms ->
             Forall (fun entry => appending (ve entry.2)) ms.

(** The line of an [EnumValue] member in the WebIDL output, after the
    indentation: [const] with the literal when [INLINED], else
    [readonly]. *)
Definition IDL_enumValue_line (name : string) (member : Element) : string :=
  (if is_ member INLINED then "const " else "readonly ") +:+ "unsigned long "
  +:+ name
  +:+ (if is_ member INLINED then " = " +:+ i64_to_string (constantValue member)
       else EmptyString)
  +:+ ";" +:+ LF.

(** The line of an [EnumValue] member in the TypeScript output, after the
    indentation: the name, with the literal when [INLINED]. *)
Definition TSD_enumValue_line (name : string) (member : Element) : string :=
  name
  +:+ (if is_ member INLINED then " = " +:+ i64_to_string (constantValue member)
       else EmptyString)
  +:+ "," +:+ LF.

(** A visitor all of whose methods return at once. *)
Definition idle : ExportsWalker.Visitor :=
  ExportsWalker.mkVisitor (fun _ this => Ok this) (fun _ this => Ok this)
    (fun _ this => Ok this) (fun _ this => Ok this) (fun _ this => Ok this)
    (fun _ this => Ok this).

(** The number of entries of the optional [members] map. *)
Definition memberCount (element : Element) : nat :=
  match members element with
  | Some members => length members
  | None => 0
  end.

(** The values of a map that carry the [COMPILED] flag, in order. *)
Definition compiledOnly (m : Map Element) : Map Element :=
  List.filter (fun entry => is_ entry.2 COMPILED) m.

(** ** Sample export graphs *)

Module Samples.

Definition noSignature : Signature :=
  mkSignature [] (fun _ => EmptyString) (mkType VOID).

(** An element with the given identity, kind, name, [COMPILED] and
    [INLINED] flags and members; an [i32] of constant value 7 where that
    is read. *)
Definition element (id : nat) (k : ElementKind) (name : string)
    (compiled inlined : bool) (ms : option (Map Element)) : Element :=
  mkElement id k name (mkFlags compiled inlined false) ms (mkType I32)
    INTEGER 7 (mkF64 "7.0") 0 [] noSignature None.

Definition program_of (exports : Map Element) : Program :=
  mkProgram exports (mkOptions false).

(** [export const X: i32 = 7] *)
Definition X : Element := element 1 GLOBAL "X" true true None.
Definition X_program : Program := program_of [("X", X)].

(** An interface that reaches the dispatcher as a module-level export. *)
Definition I : Element := element 2 INTERFACE "I" true false None.

(** [export enum Color { RED }], the value without [COMPILED]. *)
Definition RED : Element := element 3 ENUMVALUE "RED" false true None.
Definition Color : Element :=
  element 4 ENUM "Color" true false (Some [("RED", RED)]).
Definition Color_program : Program := program_of [("Color", Color)].

(** A namespace [N] exported at module level and also a member of the
    exported namespace [M]. *)
Definition N : Element := element 5 NAMESPACE "N" true false (Some [("X", X)]).
Definition M : Element := element 6 NAMESPACE "M" true false (Some [("N", N)]).
Definition N_M_program : Program := program_of [("N", N); ("M", M)].

(** The namespace [N] exported under two names, as by
    [export { N as N2 }]. *)
Definition N_N2_program : Program := program_of [("N", N); ("N2", N)].

(** An enum with a value and a further member. *)
Definition Mixed : Element :=
  element 7 ENUM "Mixed" true false (Some [("RED", RED); ("X", X)]).

(** A namespace without members. *)
Definition Empty : Element := element 8 NAMESPACE "Empty" true false (Some []).
Definition Empty_program : Program := program_of [("Empty", Empty)].

(** Three globals exported in the order [A], [B], [C]. *)
Definition A : Element := element 9 GLOBAL "A" true false None.
Definition B : Element := element 10 GLOBAL "B" true true None.
Definition C : Element := element 11 GLOBAL "C" true false None.
Definition ABC_program : Program := program_of [("A", A); ("B", B); ("C", C)].

(** [export function f(): void], with the member [X], followed by the
    global [A]. *)
Definition f : Element :=
  element 12 FUNCTION "f" true false (Some [("X", X)]).
Definition f_prototype : Element :=
  mkElement 13 FUNCTION_PROTOTYPE "f" (mkFlags true false false) None
    (mkType VOID) NONE 0 (mkF64 "0.0") 0 [("f", f)] noSignature None.
Definition f_program : Program := program_of [("f", f_prototype); ("A", A)].

(** A class prototype with one compiled and one uncompiled instance. *)
Definition K1 : Element := element 14 CLASS "K" true false None.
Definition K2 : Element := element 15 CLASS "K" false false None.
Definition K_prototype : Element :=
  mkElement 16 CLASS_PROTOTYPE "K" (mkFlags true false false) None
    (mkType VOID) NONE 0 (mkF64 "0.0") 0 [("K<i32>", K1); ("K<f64>", K2)]
    noSignature None.

(** [Color] without its value. *)
Definition Color_without_RED : Element :=
  element 4 ENUM "Color" true false (Some []).

(** A global that does not carry [COMPILED]. *)
Definition U : Element := element 17 GLOBAL "U" false false None.

(** A class prototype none of whose instances is compiled. *)
Definition L_prototype : Element :=
  mkElement 18 CLASS_PROTOTYPE "L" (mkFlags true false false) None
    (mkType VOID) NONE 0 (mkF64 "0.0") 0 [("L<f64>", K2)] noSignature None.

(** The builder of [X_program] on entry to [walk]. *)
Definition walking : Builder :=
  set_indentLevel 1 (push ("interface ASModule {" +:+ LF) (new_ X_program)).

End Samples.

(** ** Vocabulary of the further properties *)

(** [method], when it returns, leaves a builder related by [R] to the one
    it started from. *)
Definition keeps (R : Builder -> Builder -> Prop)
    (method : Builder -> Result Builder) : Prop :=
  forall this this', method this = Ok this' -> R this this'.

(** A relation between builders that holds from a builder to itself, that
    composes, and that every elementary update of a builder extends. *)
Record Stable (R : Builder -> Builder -> Prop) : Prop := mkStable {
  stable_refl : forall b, R b b;
  stable_trans : forall b1 b2 b3, R b1 b2 -> R b2 b3 -> R b1 b3;
  stable_push : forall s b1 b2, R b1 b2 -> R b1 (push s b2);
  stable_indent : forall level b1 b2, R b1 b2 -> R b1 (indent level b2);
  stable_seen_add : forall element b1 b2, R b1 b2 -> R b1 (seen_add element b2);
  stable_set_indentLevel :
    forall level b1 b2, R b1 b2 -> R b1 (set_indentLevel level b2)
}.

(** The outcome of a visit method that starts with the [seen] guard:
    either the element was seen and the builder is returned as it is, or it
    was not and the builder returned is related by [R] to the one in which
    the element has just been added to [seen]. *)
Definition guarded (R : Builder -> Builder -> Prop) (element : Element)
    (method : Builder -> Result Builder) : Prop :=
  forall this this', method this = Ok this' ->
    (seen_has element this = true /\ this' = this) \/
    (seen_has element this = false /\ R (seen_add element this) this').

(** The dispatcher [ve] keeps [R] on every member of [element]. *)
Definition members_keep (R : Builder -> Builder -> Prop)
    (ve : Element -> Builder -> Result Builder) (element : Element) : Prop :=
  forall ms, members element = Some ms ->
             Forall (fun entry => keeps R (ve entry.2)) ms.

(** The program of a builder is never replaced and [seen] never loses an
    element. *)
Definition grows (this this' : Builder) : Prop :=
  program this' = program this /\ seen this ⊆ seen this'.

(** ** Further sample builders *)

Module MoreSamples.

(** The builder that a call left, or [fallback] when the call failed. *)
Definition after (r : Result Builder) (fallback : Builder) : Builder :=
  match r with
  | Ok this => this
  | AssertionFailed => fallback
  end.

(** [Samples.walking] after the WebIDL visit of the namespace [N]. *)
Definition IDL_after_N : Builder :=
  after (IDLBuilder.visitElement Samples.N Samples.walking) Samples.walking.

(** [Samples.walking] after the TypeScript visit of the enum [Color]. *)
Definition TSD_after_Color : Builder :=
  after (TSDBuilder.visitElement Samples.Color Samples.walking) Samples.walking.

(** A namespace that holds an enum with a value, a class prototype and a
    global. *)
Definition Outer : Element :=
  Samples.element 20 NAMESPACE "Outer" true false
    (Some [("Color", Samples.Color); ("K", Samples.K_prototype);
           ("X", Samples.X)]).

(** [Samples.walking] after the TypeScript visit of [Outer]. *)
Definition TSD_after_Outer : Builder :=
  after (TSDBuilder.visitElement Outer Samples.walking) Samples.walking.

(** The builder of [Samples.ABC_program] after the TypeScript [walk]. *)
Definition TSD_after_walk : Builder :=
  after (TSDBuilder.walk (TSD_walk_entry Samples.ABC_program))
        (TSD_walk_entry Samples.ABC_program).

(** A function instance exported directly, without its prototype. *)
Definition stray_program : Program :=
  Samples.program_of [("A", Samples.A); ("f", Samples.f); ("B", Samples.B)].

(** Exports none of which is compiled: a global, and a class prototype
    whose only instance is not compiled. *)
Definition idle_program : Program :=
  Samples.program_of [("U", Samples.U); ("L", Samples.L_prototype)].

(** [max(a: i32, b: i32): i32], an instance of a generic function. *)
Definition max_i32 : Element :=
  mkElement 21 FUNCTION "max" (mkFlags true false false) None (mkType VOID)
    NONE 0 (mkF64 "0.0") 0 []
    (mkSignature [mkType I32; mkType I32]
       (fun i => match i with O => "a" | _ => "b" end) (mkType I32))
    None.

(** The prototype of [max], with this one instance. *)
Definition max_i32_prototype : Element :=
  mkElement 22 FUNCTION_PROTOTYPE "max" (mkFlags true false false) None
    (mkType VOID) NONE 0 (mkF64 "0.0") 0 [("max<i32>", max_i32)]
    Samples.noSignature None.

(** A compiled global that carries [INLINED] but has no constant. *)
Definition unfolded_const : Element :=
  mkElement 23 GLOBAL "c" (mkFlags true true false) None (mkType I32)
    NONE 0 (mkF64 "0.0") 0 [] Samples.noSignature None.


(** [enum Color { RED = 0, GREEN }], the second value not inlined. *)
Definition Color2 : Element :=
  Samples.element 26 ENUM "Color" true false
    (Some [("RED", Samples.RED);
           ("GREEN", Samples.element 27 ENUMVALUE "GREEN" true false None)]).

(** [abstract class Shape extends Base], an instance of a class
    prototype. *)
Definition Shape : Element :=
  mkElement 28 CLASS "Shape" (mkFlags true false true) None (mkType VOID)
    NONE 0 (mkF64 "0.0") 0 [] Samples.noSignature (Some "Base").

(** [Samples.walking] after the TypeScript builder's [visitNamespace]
    on [Outer]. *)
Definition TSD_after_Outer_namespace : Builder :=
  after (TSDBuilder.visitNamespace TSDBuilder.visitElement Outer Samples.walking)
        Samples.walking.

(** A class with a member, the one compiled instance of its prototype. *)
Definition Box : Element :=
  Samples.element 32 CLASS "Box" true false (Some [("X", Samples.X)]).
Definition Box_prototype : Element :=
  mkElement 33 CLASS_PROTOTYPE "Box" (mkFlags true false false) None
    (mkType VOID) NONE 0 (mkF64 "0.0") 0 [("Box", Box)] Samples.noSignature None.

(** A namespace that holds the prototype of [max], the prototype of [Box]
    and a prototype whose function instance has a member but is not
    compiled. *)
Definition Tools : Element :=
  Samples.element 34 NAMESPACE "Tools" true false
    (Some [("max", max_i32_prototype); ("Box", Box_prototype);
           ("g",
            mkElement 35 FUNCTION_PROTOTYPE "g" (mkFlags true false false) None
              (mkType VOID) NONE 0 (mkF64 "0.0") 0
              [("g", Samples.element 36 FUNCTION "g" false false
                       (Some [("X", Samples.X)]))]
              Samples.noSignature None)]).

(** [Samples.walking] after the WebIDL visit of [Tools]. *)
Definition IDL_after_Tools : Builder :=
  after (IDLBuilder.visitElement Tools Samples.walking) Samples.walking.


(** [max(a: f64, b: f64): f64], a second instance of the generic function,
    and a third instance that is not compiled. *)
Definition max_f64 : Element :=
  mkElement 37 FUNCTION "max" (mkFlags true false false) None (mkType VOID)
    NONE 0 (mkF64 "0.0") 0 []
    (mkSignature [mkType F64; mkType F64]
       (fun i => match i with O => "a" | _ => "b" end) (mkType F64))
    None.
Definition max_u8 : Element :=
  mkElement 38 FUNCTION "max" (mkFlags false false false) None (mkType VOID)
    NONE 0 (mkF64 "0.0") 0 []
    (mkSignature [mkType U8; mkType U8]
       (fun i => match i with O => "a" | _ => "b" end) (mkType U8))
    None.

(** The prototype of [max] with its three instances. *)
Definition max_prototype : Element :=
  mkElement 39 FUNCTION_PROTOTYPE "max" (mkFlags true false false) None
    (mkType VOID) NONE 0 (mkF64 "0.0") 0
    [("max<i32>", max_i32); ("max<u8>", max_u8); ("max<f64>", max_f64)]
    Samples.noSignature None.

(** A class prototype with two compiled instances around one that is not
    compiled. *)
Definition Pair_prototype : Element :=
  mkElement 40 CLASS_PROTOTYPE "Pair" (mkFlags true false false) None
    (mkType VOID) NONE 0 (mkF64 "0.0") 0
    [("Pair<i32>", Samples.element 41 CLASS "Pair" true false None);
     ("Pair<u8>", Samples.element 42 CLASS "Pair" false false None);
     ("Pair<f64>", Shape)]
    Samples.noSignature None.




(** [Samples.walking] after the visit of the function instance [f], which
    has a member, in each of the two builders. *)
Definition IDL_after_f : Builder :=
  after (IDLBuilder.visitFunction IDLBuilder.visitElement Samples.f Samples.walking)
        Samples.walking.
Definition TSD_after_f : Builder :=
  after (TSDBuilder.visitFunction TSDBuilder.visitElement Samples.f Samples.walking)
        Samples.walking.

End MoreSamples.

(** [method], entered at a depth that an [i32] holds, returns at the depth
    at which it was entered. *)
Definition depth_kept (method : Builder -> Result Builder) : Prop :=
  forall this this',
    i32_range (indentLevel this) -> method this = Ok this' ->
    indentLevel this' = indentLevel this.

(** The dispatcher [ve] keeps the depth on every member of [element]. *)
Definition members_depth_kept (ve : Element -> Builder -> Result Builder)
    (element : Element) : Prop :=
  forall ms, members element = Some ms ->
             Forall (fun entry => depth_kept (ve entry.2)) ms.

(** No compiled instance of a function prototype in the graph under
    [element] has members: this holds of [element] itself when it is a
    function prototype, and of everything below its members.  The
    instances of a class prototype are not restricted. *)
Fixpoint functionsBare (element : Element) : bool :=
  match kind element with
  | FUNCTION_PROTOTYPE =>
      forallb (fun entry => negb (is_ entry.2 COMPILED)
                            || Nat.eqb (memberCount entry.2) 0)
              (instances element)
  | _ => true
  end
  && match members element with
     | Some ms => forallb (fun entry => functionsBare entry.2) ms
     | None => true
     end.

(** What the dispatcher passes over: a global, enum or namespace without
    [COMPILED], and a prototype none of whose instances carries it. *)
Definition skipped (element : Element) : bool :=
  match kind element with
  | GLOBAL | ENUM | NAMESPACE => negb (is_ element COMPILED)
  | FUNCTION_PROTOTYPE | CLASS_PROTOTYPE =>
      forallb (fun entry => negb (is_ entry.2 COMPILED)) (instances element)
  | _ => false
  end.

(** The spelling that a type-name table returned, empty when it failed. *)
Definition spelled (r : Result string) : string :=
  match r with
  | Ok s => s
  | AssertionFailed => EmptyString
  end.

(** A type of one of the fourteen kinds that the tables spell. *)
Definition typeOk (t : Type_) : bool :=
  match type_kind t with
  | OTHER => false
  | _ => true
  end.

(** A signature all of whose types the tables spell. *)
Definition signatureOk (sg : Signature) : bool :=
  typeOk (returnType sg) && forallb typeOk (parameterTypes sg).

(** The items of a list, each but the first preceded by a comma and a
    blank when [first] holds, each of them so preceded otherwise. *)
Fixpoint separated (first : bool) (items : list string) : string :=
  match items with
  | [] => EmptyString
  | item :: rest =>
      (if first then EmptyString else ", ") +:+ item +:+ separated false rest
  end.

(** The parameter list of a function in WebIDL: [<type> <name>], joined
    by a comma and a blank. *)
Definition IDL_parameters (this : Builder) (sg : Signature) : string :=
  String.concat ", "
    (imap (fun i parameter =>
             spelled (IDLBuilder.typeToString this parameter) +:+ " "
             +:+ getParameterName sg i)
          (parameterTypes sg)).

(** The declaration of a function in WebIDL, after the indentation. *)
Definition IDL_function_line (this : Builder) (element : Element) : string :=
  spelled (IDLBuilder.typeToString this (returnType (signature element)))
  +:+ " " +:+ simpleName element +:+ "("
  +:+ IDL_parameters this (signature element) +:+ ");" +:+ LF.

(** The parameter list of a function in TypeScript: [<name>: <type>],
    joined by a comma and a blank. *)
Definition TSD_parameters (this : Builder) (sg : Signature) : string :=
  String.concat ", "
    (imap (fun i parameter =>
             getParameterName sg i +:+ ": "
             +:+ spelled (TSDBuilder.typeToString this parameter))
          (parameterTypes sg)).

(** The declaration of a function in TypeScript, after the indentation. *)
Definition TSD_function_line (this : Builder) (element : Element) : string :=
  "function " +:+ simpleName element +:+ "("
  +:+ TSD_parameters this (signature element) +:+ "): "
  +:+ spelled (TSDBuilder.typeToString this (returnType (signature element)))
  +:+ ";" +:+ LF.

(** [f] holds of every member of [element]. *)
Definition membersAll (f : Element -> bool) (element : Element) : bool :=
  match members element with
  | Some ms => forallb (fun entry => f entry.2) ms
  | None => true
  end.

(** A global that [IDLBuilder.visitGlobal] renders: its type is spelled,
    and when it is [INLINED] its constant is an integer or a float. *)
Definition IDL_globalOk (element : Element) : bool :=
  typeOk (type element)
  && (negb (is_ element INLINED)
      || match constantValueKind element with
         | NONE => false
         | _ => true
         end).

(** A graph that the WebIDL builder renders without a failed assertion:
    every element that reaches the dispatcher has a kind with a case, and
    every compiled element under it has spelled types; the values of an
    enum are not dispatched. *)
Fixpoint IDL_renderable (element : Element) : bool :=
  match kind element with
  | GLOBAL => negb (is_ element COMPILED) || IDL_globalOk element
  | ENUM =>
      negb (is_ element COMPILED)
      || match members element with
         | Some ms =>
             forallb (fun entry => isEnumValue entry || IDL_renderable entry.2) ms
         | None => true
         end
  | FUNCTION_PROTOTYPE =>
      forallb (fun entry =>
                 negb (is_ entry.2 COMPILED)
                 || (signatureOk (signature entry.2)
                     && membersAll IDL_renderable entry.2))
              (instances element)
  | CLASS_PROTOTYPE => true
  | NAMESPACE =>
      negb (is_ element COMPILED) || membersAll IDL_renderable element
  | _ => false
  end.

(** A graph that the TypeScript builder renders without a failed
    assertion; the members of a compiled global are dispatched, and those
    of a compiled enum are either all values or all renderable. *)
Fixpoint TSD_renderable (element : Element) : bool :=
  match kind element with
  | GLOBAL =>
      negb (is_ element COMPILED)
      || (typeOk (type element) && membersAll TSD_renderable element)
  | ENUM =>
      negb (is_ element COMPILED)
      || membersAll (fun member =>
                       match kind member with ENUMVALUE => true | _ => false end)
           element
      || membersAll TSD_renderable element
  | FUNCTION_PROTOTYPE =>
      forallb (fun entry =>
                 negb (is_ entry.2 COMPILED)
                 || (signatureOk (signature entry.2)
                     && membersAll TSD_renderable entry.2))
              (instances element)
  | CLASS_PROTOTYPE => true
  | NAMESPACE =>
      negb (is_ element COMPILED) || membersAll TSD_renderable element
  | _ => false
  end.

(** A call that returns normally. *)
Definition returns {A : Type} (r : Result A) : Prop := exists a, r = Ok a.

(** The dispatcher [ve] returns on every member of [element], from every
    builder. *)
Definition members_return (ve : Element -> Builder -> Result Builder)
    (element : Element) : Prop :=
  forall ms, members element = Some ms ->
             Forall (fun entry => forall this, returns (ve entry.2 this)) ms.


(** The lines of the values of an enum in the WebIDL output, each at depth
    [level]. *)
Definition IDL_enumValue_lines (level : Z) (ms : Map Element) : string :=
  join (map (fun entry => indentation level
                          +:+ IDL_enumValue_line entry.1 entry.2) ms).

(** The lines of the values of an enum in the TypeScript output, each at
    depth [level]. *)
Definition TSD_enumValue_lines (level : Z) (ms : Map Element) : string :=
  join (map (fun entry => indentation level
                          +:+ TSD_enumValue_line entry.1 entry.2) ms).

(** The opening of a class or interface in the TypeScript output, up to
    the brace: an interface is never marked abstract. *)
Definition TSD_class_header (element : Element) : string :=
  match kind element with
  | INTERFACE => "interface "
  | _ => (if is_ element ABSTRACT then "abstract " else EmptyString) +:+ "class "
  end
  +:+ simpleName element
  +:+ match base element with
      | Some base_simpleName => " extends " +:+ base_simpleName
      | None => EmptyString
      end.

(** ** Vocabulary of declarations *)


(** The values of a map are distinct objects, none of them in [seen]. *)
Fixpoint distinctUnseen (m : Map Element) (seen : gset nat) : bool :=
  match m with
  | [] => true
  | (_, element) :: rest =>
      negb (bool_decide (ident element ∈ seen))
      && distinctUnseen rest ({[ident element]} ∪ seen)
  end.

(** One declaration for each value of a map, in the order of the map. *)
Definition declarations (declaration : Element -> string) (m : Map Element)
  : string :=
  join (map (fun entry => declaration entry.2) m).

(** A function instance whose signature the tables spell and that has no
    members. *)
Definition plainFunction (element : Element) : bool :=
  signatureOk (signature element) && Nat.eqb (memberCount element) 0.

(** The first line of a block in the WebIDL output, after the
    indentation. *)
Definition IDL_block_opening (element : Element) : string :=
  "interface " +:+ simpleName element +:+ " {" +:+ LF.

(** The empty block of a class or interface in the WebIDL output, at depth
    [level]. *)
Definition IDL_class_block (level : Z) (element : Element) : string :=
  indentation level +:+ IDL_block_opening element
  +:+ indentation level +:+ "}" +:+ LF.

(** The empty block of a class or interface in the TypeScript output, at
    depth [level]. *)
Definition TSD_class_block (level : Z) (element : Element) : string :=
  indentation level +:+ TSD_class_header element +:+ " {" +:+ LF
  +:+ indentation level +:+ "}" +:+ LF.






(** What [this'] holds beyond [this] starts, after the indentation at the
    depth of [this], with [declaration]. *)
Definition opens (this this' : Builder) (declaration : string) : Prop :=
  exists rest,
    join (sb this') =
      join (sb this) +:+ indentation (indentLevel this) +:+ declaration +:+ rest.

(** * Properties *)

(** ** Strings and fragment lists *)

Lemma append_String (c : ascii) (s1 s2 : string) :
  String c s1 +:+ s2 = String c (s1 +:+ s2).
Proof. reflexivity. Qed.

Lemma append_nil_r (s : string) : s +:+ EmptyString = s.
Proof.
  induction s as [|c s IH]; [reflexivity | now rewrite append_String, IH].
Qed.

Lemma append_assoc (s1 s2 s3 : string) : (s1 +:+ s2) +:+ s3 = s1 +:+ s2 +:+ s3.
Proof.
  induction s1 as [|c s1 IH]; [reflexivity | now rewrite !append_String, IH].
Qed.

Lemma join_cons (s : string) (l : list string) : join (s :: l) = s +:+ join l.
Proof.
  unfold join. destruct l as [|s' l].
  - symmetry. apply append_nil_r.
  - reflexivity.
Qed.

Lemma join_app (l1 l2 : list string) : join (l1 ++ l2) = join l1 +:+ join l2.
Proof.
  induction l1 as [|s l1 IH].
  - reflexivity.
  - change ((s :: l1) ++ l2)%list with (s :: (l1 ++ l2))%list.
    now rewrite !join_cons, IH, append_assoc.
Qed.

(** ** 32-bit counters *)

Lemma i32_wrap_range (z : Z) : i32_range z -> i32_wrap z = z.
Proof. unfold i32_range, i32_wrap. intros H. rewrite Z.mod_small; lia. Qed.

Lemma i32_wrap_idem_add (z k : Z) : i32_wrap (i32_wrap z + k) = i32_wrap (z + k).
Proof.
  unfold i32_wrap.
  replace ((z + 2 ^ 31) mod 2 ^ 32 - 2 ^ 31 + k + 2 ^ 31)
    with ((z + 2 ^ 31) mod 2 ^ 32 + k) by lia.
  replace (z + k + 2 ^ 31) with (z + 2 ^ 31 + k) by lia.
  now rewrite Zplus_mod_idemp_l.
Qed.

Lemma i32_decr_incr (z : Z) : i32_range z -> i32_decr (i32_incr z) = z.
Proof.
  intros H. unfold i32_decr, i32_incr.
  change (i32_wrap (z + 1) - 1) with (i32_wrap (z + 1) + -1).
  rewrite i32_wrap_idem_add. replace (z + 1 + -1) with z by lia.
  now apply i32_wrap_range.
Qed.

(** ** The dispatcher of each builder, unfolded once *)

Lemma IDL_visitElement_unfold (element : Element) (this : Builder) :
  IDLBuilder.visitElement element this =
  ExportsWalker.visitElement (IDLBuilder.visitor IDLBuilder.visitElement) element this.
Proof. destruct element; reflexivity. Qed.

Lemma TSD_visitElement_unfold (element : Element) (this : Builder) :
  TSDBuilder.visitElement element this =
  ExportsWalker.visitElement (TSDBuilder.visitor TSDBuilder.visitElement) element this.
Proof. destruct element; reflexivity. Qed.

Lemma visitElement_undispatched (v : ExportsWalker.Visitor) (element : Element)
    (this : Builder) :
  undispatched (kind element) = true ->
  ExportsWalker.visitElement v element this = AssertionFailed.
Proof.
  unfold ExportsWalker.visitElement. destruct (kind element); simpl; congruence.
Qed.

(** ** Induction over an element, its members and its instances *)

Lemma Element_nested_ind (P : Element -> Prop) :
  (forall element,
      (forall ms, members element = Some ms -> Forall (fun entry => P entry.2) ms) ->
      Forall (fun entry => P entry.2) (instances element) ->
      P element) ->
  forall element, P element.
Proof.
  intros step. fix IH 1.
  intros [id k name fl ms ty cvk civ cfv cv insts sg bs].
  apply step; simpl.
  - destruct ms as [ms|]; intros ms' Heq; [|discriminate Heq].
    injection Heq as <-.
    induction ms as [|[name' member] ms IHms]; constructor; [apply IH | exact IHms].
  - induction insts as [|[name' instance] insts IHinsts]; constructor;
      [apply IH | exact IHinsts].
Qed.

(** ** Loops *)

Section Loops.
Context {V S : Type}.

Lemma forEntries_app (body : string -> V -> S -> Result S) (m1 m2 : Map V) (s : S) :
  forEntries body (m1 ++ m2)%list s =
  let* s := forEntries body m1 s in forEntries body m2 s.
Proof.
  revert s. induction m1 as [|[name v] m1 IH]; intros s; simpl.
  - reflexivity.
  - destruct (body name v s); simpl; [apply IH | reflexivity].
Qed.

(** A relation between loop states that every iteration establishes, and
    that is reflexive and transitive, relates the two ends of the loop. *)
Lemma forEntries_preserves (R : S -> S -> Prop)
    (body : string -> V -> S -> Result S) (m : Map V) :
  (forall s, R s s) ->
  (forall s1 s2 s3, R s1 s2 -> R s2 s3 -> R s1 s3) ->
  Forall (fun entry => forall s s', body entry.1 entry.2 s = Ok s' -> R s s') m ->
  forall s s', forEntries body m s = Ok s' -> R s s'.
Proof.
  intros Hrefl Htrans Hall. induction Hall as [|[name v] m Hhead _ IH];
    intros s s' Hrun; simpl in Hrun.
  - injection Hrun as <-. apply Hrefl.
  - destruct (body name v s) as [s1|] eqn:E; simpl in Hrun; [|discriminate Hrun].
    eapply Htrans; [apply (Hhead _ _ E) | apply (IH _ _ Hrun)].
Qed.

(** An iteration that fails from every state makes the loop fail. *)
Lemma forEntries_fails (body : string -> V -> S -> Result S) (m : Map V) :
  Exists (fun entry => forall s, body entry.1 entry.2 s = AssertionFailed) m ->
  forall s, forEntries body m s = AssertionFailed.
Proof.
  intros Hex. induction Hex as [[name v] m Hhead|[name v] m _ IH]; intros s; simpl.
  - simpl in Hhead. now rewrite Hhead.
  - destruct (body name v s); simpl; [apply IH | reflexivity].
Qed.
End Loops.

(** ** The accumulator only grows

    Fragments are pushed at the end of [sb] and never removed, so whatever
    a method writes comes after everything written before the call. *)

Lemma appends_refl (this : Builder) : appends this this.
Proof. exists []. now rewrite app_nil_r. Qed.

Lemma appends_trans (b1 b2 b3 : Builder) :
  appends b1 b2 -> appends b2 b3 -> appends b1 b3.
Proof.
  intros [t1 H1] [t2 H2]. exists (t1 ++ t2)%list.
  now rewrite H2, H1, app_assoc.
Qed.

Lemma appends_push (s : string) (b1 b2 : Builder) :
  appends b1 b2 -> appends b1 (push s b2).
Proof.
  intros [t H]. exists (t ++ [s])%list. simpl. now rewrite H, app_assoc.
Qed.

Lemma appends_indent (level : Z) (b1 b2 : Builder) :
  appends b1 b2 -> appends b1 (indent level b2).
Proof.
  intros [t H]. exists (t ++ repeat "  " (Z.to_nat level))%list. simpl.
  now rewrite H, app_assoc.
Qed.

Lemma appends_seen_add (element : Element) (b1 b2 : Builder) :
  appends b1 b2 -> appends b1 (seen_add element b2).
Proof. intros [t H]. now exists t. Qed.

Lemma appends_set_indentLevel (level : Z) (b1 b2 : Builder) :
  appends b1 b2 -> appends b1 (set_indentLevel level b2).
Proof. intros [t H]. now exists t. Qed.

Lemma appends_indent_then_incr (b1 b2 : Builder) :
  appends b1 b2 -> appends b1 (indent_then_incr b2).
Proof.
  intros H. unfold indent_then_incr.
  now apply appends_indent, appends_set_indentLevel.
Qed.

Lemma appends_decr_then_indent (b1 b2 : Builder) :
  appends b1 b2 -> appends b1 (decr_then_indent b2).
Proof.
  intros H. unfold decr_then_indent.
  now apply appends_indent, appends_set_indentLevel.
Qed.

Lemma appends_if (c : bool) (b1 b2 b3 : Builder) :
  appends b1 b2 -> appends b1 b3 -> appends b1 (if c then b2 else b3).
Proof. now destruct c. Qed.

Lemma appends_match_option {A : Type} (o : option A) (b1 : Builder)
    (f : A -> Builder) (b2 : Builder) :
  (forall a, appends b1 (f a)) -> appends b1 b2 ->
  appends b1 (match o with Some a => f a | None => b2 end).
Proof. now destruct o. Qed.

Create HintDb appends.
#[local] Hint Resolve appends_refl appends_push appends_indent appends_seen_add
  appends_set_indentLevel appends_indent_then_incr appends_decr_then_indent
  appends_if appends_match_option : appends.

(** [appends] is closed under the sequencing of a state that a loop or a
    nested call returned. *)
Lemma appends_via (b1 b2 b3 : Builder) :
  appends b2 b3 -> appends b1 b2 -> appends b1 b3.
Proof. intros H23 H12. exact (appends_trans _ _ _ H12 H23). Qed.

(** Case analysis of a run that returned normally: every [bind], [if] and
    [match] on the way to [Ok] is split, failed branches are discarded, and
    a state that is returned as it is gets its name replaced by its
    expression. *)
Ltac split_runs :=
  cbv zeta in *;
  repeat match goal with
    | H : AssertionFailed = Ok _ |- _ => discriminate H
    | H : Ok _ = Ok ?y |- _ => is_var y; injection H as <-
    | H : Ok (_, _) = Ok (_, _) |- _ => injection H as <- <-
    | H : bind ?r _ = Ok _ |- _ =>
        destruct r eqn:?; cbn [bind] in H; [| discriminate H]
    | H : (if ?c then _ else _) = Ok _ |- _ => destruct c eqn:?
    | H : match ?x with _ => _ end = Ok _ |- _ => destruct x eqn:?
    end.

Lemma forValues_appending (body : Element -> Builder -> Result Builder)
    (m : Map Element) :
  Forall (fun entry => appending (body entry.2)) m ->
  appending (forValues body m).
Proof.
  intros Hall this this'. unfold forValues.
  apply forEntries_preserves with (R := appends);
    [apply appends_refl | apply appends_trans | exact Hall].
Qed.

Lemma visitParameters_IDL_appending (sg : Signature) (ps : list Type_) (i : nat) :
  appending (IDLBuilder.visitParameters sg i ps).
Proof.
  revert i. induction ps as [|p ps IH]; intros i this this' H; simpl in H.
  - injection H as <-. apply appends_refl.
  - split_runs; apply IH in H; (eapply appends_via; [exact H|]); auto 10 with appends.
Qed.

Lemma visitParameters_TSD_appending (sg : Signature) (ps : list Type_) (i : nat) :
  appending (TSDBuilder.visitParameters sg i ps).
Proof.
  revert i. induction ps as [|p ps IH]; intros i this this' H; simpl in H.
  - injection H as <-. apply appends_refl.
  - split_runs; apply IH in H; (eapply appends_via; [exact H|]); auto 10 with appends.
Qed.

(** From the facts [appends st b] in the context, one for each state that a
    loop or a nested call returned, derive [appends this b] and close the
    goal. *)
Ltac chain_appends this :=
  repeat match goal with
    | Hb : appends ?st ?b |- _ =>
        lazymatch goal with
        | _ : appends this b |- _ => fail
        | _ => idtac
        end;
        assert (appends this b)
          by (eapply appends_via; [exact Hb | auto 20 with appends])
    end;
  auto 20 with appends.

Ltac use_loops ve Hm :=
  repeat match goal with
    | E : forValues ve _ _ = Ok _ |- _ =>
        apply forValues_appending in E; [| now apply Hm]
    | E : IDLBuilder.visitParameters _ _ _ _ = Ok _ |- _ =>
        apply visitParameters_IDL_appending in E
    | E : TSDBuilder.visitParameters _ _ _ _ = Ok _ |- _ =>
        apply visitParameters_TSD_appending in E
    end.

Section Visitors_append.
Variable ve : Element -> Builder -> Result Builder.
Variable element : Element.

Lemma IDL_visitGlobal_appending : appending (IDLBuilder.visitGlobal element).
Proof.
  intros this this' H. unfold IDLBuilder.visitGlobal in H.
  split_runs; chain_appends this.
Qed.

Lemma IDL_visitEnumValue_appending (name : string) (member : Element) :
  appending (IDLBuilder.visitEnumValue name member).
Proof.
  intros this this' H. unfold IDLBuilder.visitEnumValue in H.
  split_runs; chain_appends this.
Qed.

Lemma IDL_visitEnum_appending :
  members_appending ve element -> appending (IDLBuilder.visitEnum ve element).
Proof.
  intros Hm this this' H. unfold IDLBuilder.visitEnum in H.
  split_runs; try chain_appends this.
  match goal with
  | E1 : forEntries IDLBuilder.visitEnumValue _ _ = Ok _,
    E2 : forValues _ _ _ = Ok _ |- _ =>
      apply (forEntries_preserves appends) in E1;
        [| apply appends_refl | apply appends_trans
         | apply Forall_forall; intros [??] _; apply IDL_visitEnumValue_appending ];
      apply forValues_appending in E2
  end.
  - chain_appends this.
  - eapply Forall_impl; [now apply Hm|].
    intros [name member] Hve. unfold appending in *. simpl in *.
    intros b b' Hrun.
    destruct (kind member); try (now apply Hve);
      injection Hrun as <-; apply appends_refl.
Qed.

Lemma IDL_visitFunction_appending :
  members_appending ve element -> appending (IDLBuilder.visitFunction ve element).
Proof.
  intros Hm this this' H. unfold IDLBuilder.visitFunction in H.
  split_runs; use_loops ve Hm; chain_appends this.
Qed.

Lemma IDL_visitClass_appending : appending (IDLBuilder.visitClass element).
Proof.
  intros this this' H. unfold IDLBuilder.visitClass in H.
  split_runs; chain_appends this.
Qed.

Lemma IDL_visitNamespace_appending :
  members_appending ve element -> appending (IDLBuilder.visitNamespace ve element).
Proof.
  intros Hm this this' H. unfold IDLBuilder.visitNamespace in H.
  split_runs; use_loops ve Hm; chain_appends this.
Qed.

Lemma TSD_visitNamespace_appending :
  members_appending ve element -> appending (TSDBuilder.visitNamespace ve element).
Proof.
  intros Hm this this' H. unfold TSDBuilder.visitNamespace in H.
  split_runs; use_loops ve Hm; chain_appends this.
Qed.

Lemma TSD_visitGlobal_appending :
  members_appending ve element -> appending (TSDBuilder.visitGlobal ve element).
Proof.
  intros Hm this this' H. unfold TSDBuilder.visitGlobal in H.
  split_runs;
    repeat match goal with
      | E : TSDBuilder.visitNamespace ve _ _ = Ok _ |- _ =>
          apply (TSD_visitNamespace_appending Hm) in E
      end;
    chain_appends this.
Qed.

Lemma TSD_visitEnumValue_appending (name : string) (member : Element)
    (this this' : Builder) (n n' : Z) :
  TSDBuilder.visitEnumValue name member (this, n) = Ok (this', n') ->
  appends this this'.
Proof.
  intros H. unfold TSDBuilder.visitEnumValue in H.
  split_runs; auto 20 with appends.
Qed.

Lemma TSD_visitEnum_appending :
  members_appending ve element -> appending (TSDBuilder.visitEnum ve element).
Proof.
  intros Hm this this' H. unfold TSDBuilder.visitEnum in H.
  split_runs;
    repeat match goal with
      | E : forEntries TSDBuilder.visitEnumValue _ _ = Ok _ |- _ =>
          apply (forEntries_preserves (fun s s' => appends s.1 s'.1)) in E;
            [ simpl in E
            | intros; apply appends_refl
            | intros ???; apply appends_trans
            | apply Forall_forall; intros [??] _ [??] [??];
              apply TSD_visitEnumValue_appending ]
      | E : TSDBuilder.visitNamespace ve _ _ = Ok _ |- _ =>
          apply (TSD_visitNamespace_appending Hm) in E
      end;
    chain_appends this.
Qed.

Lemma TSD_visitFunction_appending :
  members_appending ve element -> appending (TSDBuilder.visitFunction ve element).
Proof.
  intros Hm this this' H. unfold TSDBuilder.visitFunction in H.
  split_runs; use_loops ve Hm;
    repeat match goal with
      | E : TSDBuilder.visitNamespace ve _ _ = Ok _ |- _ =>
          apply (TSD_visitNamespace_appending Hm) in E
      end;
    chain_appends this.
Qed.

Lemma TSD_visitClass_appending : appending (TSDBuilder.visitClass element).
Proof.
  intros this this' H. unfold TSDBuilder.visitClass in H.
  split_runs; chain_appends this.
Qed.

End Visitors_append.

Lemma ExportsWalker_visitElement_appending (v : ExportsWalker.Visitor)
    (element : Element) :
  appending (ExportsWalker.visitGlobal v element) ->
  appending (ExportsWalker.visitEnum v element) ->
  appending (ExportsWalker.visitNamespace v element) ->
  Forall (fun entry => appending (ExportsWalker.visitFunction v entry.2) /\
                       appending (ExportsWalker.visitClass v entry.2))
         (instances element) ->
  appending (ExportsWalker.visitElement v element).
Proof.
  intros Hg He Hn Hi this this' H. unfold ExportsWalker.visitElement in H.
  destruct (kind element); try discriminate H;
    try (destruct (is_ element COMPILED);
         [ auto | injection H as <-; apply appends_refl ]).
  - revert H. apply forValues_appending.
    eapply Forall_impl; [exact Hi|]. intros [name instance] [Hf _] b b' Hrun.
    cbn [snd] in *. destruct (is_ instance COMPILED);
      [ now apply Hf | injection Hrun as <-; apply appends_refl ].
  - revert H. apply forValues_appending.
    eapply Forall_impl; [exact Hi|]. intros [name instance] [_ Hc] b b' Hrun.
    cbn [snd] in *. destruct (is_ instance COMPILED);
      [ now apply Hc | injection Hrun as <-; apply appends_refl ].
Qed.

Lemma IDL_visit_appending (element : Element) :
  appending (IDLBuilder.visitElement element) /\
  appending (IDLBuilder.visitFunction IDLBuilder.visitElement element).
Proof.
  induction element as [element IHm IHi] using Element_nested_ind.
  assert (Hm : members_appending IDLBuilder.visitElement element).
  { intros ms Hms. eapply Forall_impl; [exact (IHm ms Hms)|]. now intros ? [? _]. }
  split; [| now apply IDL_visitFunction_appending].
  intros this this'. rewrite IDL_visitElement_unfold.
  apply ExportsWalker_visitElement_appending; simpl.
  - apply IDL_visitGlobal_appending.
  - now apply IDL_visitEnum_appending.
  - now apply IDL_visitNamespace_appending.
  - eapply Forall_impl; [exact IHi|]. intros ? [_ ?].
    split; [assumption | apply IDL_visitClass_appending].
Qed.

Lemma TSD_visit_appending (element : Element) :
  appending (TSDBuilder.visitElement element) /\
  appending (TSDBuilder.visitFunction TSDBuilder.visitElement element).
Proof.
  induction element as [element IHm IHi] using Element_nested_ind.
  assert (Hm : members_appending TSDBuilder.visitElement element).
  { intros ms Hms. eapply Forall_impl; [exact (IHm ms Hms)|]. now intros ? [? _]. }
  split; [| now apply TSD_visitFunction_appending].
  intros this this'. rewrite TSD_visitElement_unfold.
  apply ExportsWalker_visitElement_appending; simpl.
  - now apply TSD_visitGlobal_appending.
  - now apply TSD_visitEnum_appending.
  - now apply TSD_visitNamespace_appending.
  - eapply Forall_impl; [exact IHi|]. intros ? [_ ?].
    split; [assumption | apply TSD_visitClass_appending].
Qed.

(** What a call appends, as text. *)
Lemma appends_join (this this' : Builder) :
  appends this this' -> exists t, join (sb this') = join (sb this) +:+ t.
Proof. intros [t H]. exists (join t). now rewrite H, join_app. Qed.



(** ** The dispatcher and the [COMPILED] flag *)

Lemma forValues_compiledOnly (visit : Element -> Builder -> Result Builder)
    (m : Map Element) (this : Builder) :
  forValues (fun instance this =>
               if is_ instance COMPILED then visit instance this else Ok this)
            m this =
  forValues visit (compiledOnly m) this.
Proof.
  revert this. induction m as [|[name instance] m IH]; intros this.
  - reflexivity.
  - unfold compiledOnly. cbn [List.filter snd].
    destruct (is_ instance COMPILED) eqn:E.
    + cbn [forValues forEntries]. rewrite E.
      destruct (visit instance this); cbn [bind]; [apply IH | reflexivity].
    + cbn [forValues forEntries]. rewrite E. cbn [bind]. apply IH.
Qed.

Lemma visitElement_uncompiled (v : ExportsWalker.Visitor) (element : Element)
    (this : Builder) :
  kind element = GLOBAL \/ kind element = ENUM \/ kind element = NAMESPACE ->
  is_ element COMPILED = false ->
  ExportsWalker.visitElement v element this = Ok this.
Proof.
  unfold ExportsWalker.visitElement.
  intros [-> | [-> | ->]] ->; reflexivity.
Qed.

Lemma visitElement_function_prototype (v : ExportsWalker.Visitor)
    (element : Element) (this : Builder) :
  kind element = FUNCTION_PROTOTYPE ->
  ExportsWalker.visitElement v element this =
  forValues (ExportsWalker.visitFunction v) (compiledOnly (instances element)) this.
Proof.
  unfold ExportsWalker.visitElement. intros ->. apply forValues_compiledOnly.
Qed.

Lemma visitElement_class_prototype (v : ExportsWalker.Visitor)
    (element : Element) (this : Builder) :
  kind element = CLASS_PROTOTYPE ->
  ExportsWalker.visitElement v element this =
  forValues (ExportsWalker.visitClass v) (compiledOnly (instances element)) this.
Proof.
  unfold ExportsWalker.visitElement. intros ->. apply forValues_compiledOnly.
Qed.

Lemma forValues_idle (m : Map Element) (this : Builder) :
  forValues (fun _ this => Ok this) m this = Ok this.
Proof. induction m as [|[name v] m IH]; [reflexivity | exact IH]. Qed.

(** The assertion of the dispatcher itself, as opposed to one raised
    inside a visit method, fires on exactly four kinds. *)
Lemma visitElement_assertion_iff (element : Element) :
  (forall v this, ExportsWalker.visitElement v element this = AssertionFailed) <->
  undispatched (kind element) = true.
Proof.
  split.
  - intros Hfail. specialize (Hfail idle (new_ (mkProgram [] (mkOptions false)))).
    unfold ExportsWalker.visitElement in Hfail.
    destruct (kind element); try reflexivity; exfalso; cbn in Hfail;
      try (destruct (flag_compiled (flags element)); discriminate Hfail).
    + rewrite forValues_compiledOnly, forValues_idle in Hfail. discriminate Hfail.
    + rewrite forValues_compiledOnly, forValues_idle in Hfail. discriminate Hfail.
  - intros Hkind v this. now apply visitElement_undispatched.
Qed.

(** ** Elements already seen

    Every visit method of the WebIDL builder returns at once on an element
    that is in [seen]; so does every visit method of the TypeScript
    builder except [visitNamespace], which does not consult [seen]. *)

Lemma IDL_visit_seen (ve : Element -> Builder -> Result Builder)
    (element : Element) (this : Builder) :
  seen_has element this = true ->
  IDLBuilder.visitGlobal element this = Ok this /\
  IDLBuilder.visitEnum ve element this = Ok this /\
  IDLBuilder.visitFunction ve element this = Ok this /\
  IDLBuilder.visitClass element this = Ok this /\
  IDLBuilder.visitInterface element this = Ok this /\
  IDLBuilder.visitNamespace ve element this = Ok this.
Proof.
  intros Hseen.
  unfold IDLBuilder.visitGlobal, IDLBuilder.visitEnum, IDLBuilder.visitFunction,
    IDLBuilder.visitInterface, IDLBuilder.visitClass, IDLBuilder.visitNamespace.
  rewrite Hseen. repeat split.
Qed.

Lemma TSD_visit_seen (ve : Element -> Builder -> Result Builder)
    (element : Element) (this : Builder) :
  seen_has element this = true ->
  TSDBuilder.visitGlobal ve element this = Ok this /\
  TSDBuilder.visitEnum ve element this = Ok this /\
  TSDBuilder.visitFunction ve element this = Ok this /\
  TSDBuilder.visitClass element this = Ok this /\
  TSDBuilder.visitInterface element this = Ok this.
Proof.
  intros Hseen.
  unfold TSDBuilder.visitGlobal, TSDBuilder.visitEnum, TSDBuilder.visitFunction,
    TSDBuilder.visitInterface, TSDBuilder.visitClass.
  rewrite Hseen. repeat split.
Qed.

(** ** The text of a builder *)

Lemma join_singleton (s : string) : join [s] = s.
Proof. reflexivity. Qed.

Lemma join_push (s : string) (this : Builder) :
  join (sb (push s this)) = join (sb this) +:+ s.
Proof. unfold push; cbn [sb]. now rewrite join_app, join_singleton. Qed.

Lemma join_indent (level : Z) (this : Builder) :
  join (sb (indent level this)) = join (sb this) +:+ indentation level.
Proof. unfold indent; cbn [sb]. now rewrite join_app. Qed.

Lemma join_seen_add (element : Element) (this : Builder) :
  join (sb (seen_add element this)) = join (sb this).
Proof. reflexivity. Qed.

Lemma join_set_indentLevel (level : Z) (this : Builder) :
  join (sb (set_indentLevel level this)) = join (sb this).
Proof. reflexivity. Qed.

Lemma join_indent_then_incr (this : Builder) :
  join (sb (indent_then_incr this)) =
  join (sb this) +:+ indentation (indentLevel this).
Proof. unfold indent_then_incr. cbv zeta. now rewrite join_indent. Qed.

Lemma join_decr_then_indent (this : Builder) :
  join (sb (decr_then_indent this)) =
  join (sb this) +:+ indentation (i32_decr (indentLevel this)).
Proof. unfold decr_then_indent. cbv zeta. now rewrite join_indent. Qed.

Lemma indentLevel_indent_then_incr (this : Builder) :
  indentLevel (indent_then_incr this) = i32_incr (indentLevel this).
Proof. reflexivity. Qed.

Lemma indentLevel_decr_then_indent (this : Builder) :
  indentLevel (decr_then_indent this) = i32_decr (indentLevel this).
Proof. reflexivity. Qed.

Lemma indentLevel_push (s : string) (this : Builder) :
  indentLevel (push s this) = indentLevel this.
Proof. reflexivity. Qed.

Lemma indentLevel_seen_add (element : Element) (this : Builder) :
  indentLevel (seen_add element this) = indentLevel this.
Proof. reflexivity. Qed.

Lemma indentLevel_indent (level : Z) (this : Builder) :
  indentLevel (indent level this) = indentLevel this.
Proof. reflexivity. Qed.

Create Rewrite HintDb text.
#[local] Hint Rewrite join_push join_indent join_seen_add join_set_indentLevel
  join_indent_then_incr join_decr_then_indent indentLevel_indent_then_incr
  indentLevel_decr_then_indent indentLevel_push indentLevel_seen_add
  indentLevel_indent append_assoc append_nil_r : text.

(** ** Indentation depth in the WebIDL builder

    The methods that open a block raise the depth by one and lower it again
    before the closing line; [visitGlobal] does not touch it. *)

Lemma IDL_visitGlobal_depth (element : Element) (this this' : Builder) :
  IDLBuilder.visitGlobal element this = Ok this' ->
  indentLevel this' = indentLevel this.
Proof.
  intros H. unfold IDLBuilder.visitGlobal in H. split_runs; reflexivity.
Qed.

Lemma IDL_visitClass_depth (element : Element) (this this' : Builder) :
  i32_range (indentLevel this) ->
  IDLBuilder.visitClass element this = Ok this' ->
  indentLevel this' = indentLevel this.
Proof.
  intros Hrange H. unfold IDLBuilder.visitClass in H. split_runs;
    [reflexivity | autorewrite with text; now apply i32_decr_incr].
Qed.

Lemma visitParameters_IDL_depth (sg : Signature) (ps : list Type_) (i : nat)
    (this this' : Builder) :
  IDLBuilder.visitParameters sg i ps this = Ok this' ->
  indentLevel this' = indentLevel this.
Proof.
  revert i this. induction ps as [|p ps IH]; intros i this H; simpl in H.
  - now injection H as <-.
  - destruct (IDLBuilder.typeToString _ p); cbn [bind] in H; [| discriminate H].
    apply IH in H. rewrite H. autorewrite with text.
    now destruct (Nat.eqb i 0).
Qed.

Lemma IDL_visitElement_global_depth (member : Element) (this this' : Builder) :
  kind member = GLOBAL ->
  IDLBuilder.visitElement member this = Ok this' ->
  indentLevel this' = indentLevel this.
Proof.
  intros Hkind. rewrite IDL_visitElement_unfold.
  unfold ExportsWalker.visitElement. rewrite Hkind.
  destruct (is_ member COMPILED); cbn [ExportsWalker.visitGlobal IDLBuilder.visitor].
  - apply IDL_visitGlobal_depth.
  - now intros [= <-].
Qed.

(** [visitFunction] on a function with members, here all of them globals,
    returns one level below the depth at which it was entered. *)
Lemma IDL_visitFunction_depth (element : Element) (ms : Map Element)
    (this this' : Builder) :
  seen_has element this = false ->
  members element = Some ms -> ms <> [] ->
  Forall (fun entry => kind entry.2 = GLOBAL) ms ->
  IDLBuilder.visitFunction IDLBuilder.visitElement element this = Ok this' ->
  indentLevel this' = i32_decr (indentLevel this).
Proof.
  intros Hseen Hms Hsome Hglobals H.
  unfold IDLBuilder.visitFunction in H. rewrite Hseen, Hms in H. cbv zeta in H.
  destruct (IDLBuilder.typeToString _ _); cbn [bind] in H; [| discriminate H].
  destruct (IDLBuilder.visitParameters _ _ _ _) as [b1|] eqn:Eparams;
    cbn [bind] in H; [| discriminate H].
  apply visitParameters_IDL_depth in Eparams.
  destruct (Z.eqb_spec (size ms) 0) as [Hzero | _].
  { destruct ms; [now contradict Hsome | discriminate Hzero]. }
  destruct (forValues _ ms _) as [b2|] eqn:Eloop; cbn [bind] in H; [| discriminate H].
  injection H as <-.
  apply (forEntries_preserves (fun b b' => indentLevel b' = indentLevel b)) in Eloop.
  - autorewrite with text. rewrite Eloop. autorewrite with text.
    rewrite Eparams. now autorewrite with text.
  - reflexivity.
  - intros s1 s2 s3 H12 H23. now rewrite H23.
  - eapply Forall_impl; [exact Hglobals |].
    intros [name member] Hkind b b'. now apply IDL_visitElement_global_depth.
Qed.

(** ** An enum with values and further members, in the TypeScript builder *)

Lemma i32_decr_wrap (z : Z) : i32_decr (i32_wrap z) = i32_wrap (z - 1).
Proof.
  unfold i32_decr. change (i32_wrap z - 1) with (i32_wrap z + -1).
  now rewrite i32_wrap_idem_add.
Qed.

(** The first loop of [TSDBuilder.visitEnum] never fails, and counts
    [numMembers] down once for each value. *)
Lemma TSD_visitEnumValue_loop (ms : Map Element) (this : Builder) (n : Z) :
  exists this',
    forEntries TSDBuilder.visitEnumValue ms (this, i32_wrap n) =
    Ok (this', i32_wrap (n - Z.of_nat (length (List.filter isEnumValue ms)))).
Proof.
  revert this n. induction ms as [|[name member] ms IH]; intros this n.
  - exists this. cbn [forEntries List.filter length]. now rewrite Z.sub_0_r.
  - cbn [forEntries List.filter]. unfold TSDBuilder.visitEnumValue at 1.
    unfold isEnumValue at 1. cbn [snd].
    destruct (kind member); cbn [bind];
      try (destruct (IH this n) as [this' Hloop]; exists this'; exact Hloop).
    rewrite i32_decr_wrap.
    match goal with
    | |- context [forEntries _ ms (?st, _)] =>
        destruct (IH st (n - 1)) as [this' Hloop]
    end.
    exists this'. rewrite Hloop. do 2 f_equal. cbn [length]. f_equal. lia.
Qed.

Lemma filter_length_lt {A : Type} (f : A -> bool) (l : list A) :
  Exists (fun a => f a = false) l -> (length (List.filter f l) < length l)%nat.
Proof.
  intros Hex. induction Hex as [a l Ha | a l _ IH]; cbn [List.filter length].
  - rewrite Ha. pose proof (List.filter_length_le f l). lia.
  - destruct (f a); cbn [length]; lia.
Qed.

(** ** [build], unfolded once *)

Lemma IDL_build_static_unfold (p : Program) :
  IDLBuilder.build_static p =
  let* this := forValues IDLBuilder.visitElement (moduleLevelExports p)
                 (IDL_walk_entry p) in
  Ok (join (sb this) +:+ "}" +:+ LF).
Proof.
  unfold IDLBuilder.build_static, IDLBuilder.build, IDLBuilder.walk,
    ExportsWalker.walk, IDL_walk_entry. cbv zeta.
  cbn [program new_ push set_indentLevel].
  destruct (forValues _ _ _); cbn [bind]; [| reflexivity].
  now autorewrite with text.
Qed.

Lemma TSD_build_static_unfold (p : Program) :
  TSDBuilder.build_static p =
  let* this := forValues TSDBuilder.visitElement (moduleLevelExports p)
                 (TSD_walk_entry p) in
  Ok (join (sb this) +:+ "}" +:+ LF).
Proof.
  unfold TSDBuilder.build_static, TSDBuilder.build, TSDBuilder.walk,
    ExportsWalker.walk, TSD_walk_entry. cbv zeta.
  cbn [program new_ push set_indentLevel].
  destruct (forValues _ _ _); cbn [bind]; [| reflexivity].
  now autorewrite with text.
Qed.

(** * Properties stated by the specification *)

(** C1 (as the code behaves): an element of kind [INTERFACE] that reaches
    the dispatcher falls into the [default] branch, whose assertion fails,
    in the WebIDL builder as in the TypeScript builder; [visitInterface] is
    declared and implemented but no case of the dispatcher calls it. *)
Theorem C1_interface_kind_is_fatal (element : Element) (this : Builder) :
  kind element = INTERFACE ->
  IDLBuilder.visitElement element this = AssertionFailed /\
  TSDBuilder.visitElement element this = AssertionFailed.
Proof.
  intros Hkind.
  rewrite IDL_visitElement_unfold, TSD_visitElement_unfold.
  split; apply visitElement_undispatched; now rewrite Hkind.
Qed.

Lemma C1_interface_kind_is_fatal_witness :
  IDLBuilder.visitElement Samples.I (new_ (Samples.program_of [("I", Samples.I)]))
    = AssertionFailed /\
  TSDBuilder.visitElement Samples.I (new_ (Samples.program_of [("I", Samples.I)]))
    = AssertionFailed.
Proof. apply C1_interface_kind_is_fatal. reflexivity. Defined.

(** C2, counterexample: the enum [Color] is compiled, its value [RED] does
    not carry [COMPILED], and both builders write a declaration line for
    [RED]: the loop body does not leave the builder as it was, and the
    output is not that of the enum without the value. *)
Lemma C2_uncompiled_enum_value_is_emitted :
  is_ Samples.RED COMPILED = false /\
  IDLBuilder.build_static Samples.Color_program =
    Ok (lines [ "interface ASModule {";
                "  interface Color {";
                "    const unsigned long RED = 0;";
                "  }";
                "}" ]) /\
  TSDBuilder.build_static Samples.Color_program =
    Ok (TSD_prologue +:+
        lines [ "  enum Color {";
                "    RED = 0,";
                "  }";
                "}" ]) /\
  IDLBuilder.build_static Samples.Color_program <>
    IDLBuilder.build_static
      (Samples.program_of [("Color", Samples.Color_without_RED)]) /\
  TSDBuilder.build_static Samples.Color_program <>
    TSDBuilder.build_static
      (Samples.program_of [("Color", Samples.Color_without_RED)]) /\
  ~ (forall name member this,
        kind member = ENUMVALUE -> is_ member COMPILED = false ->
        IDLBuilder.visitEnumValue name member this = Ok this).
Proof.
  split; [reflexivity |].
  split; [vm_compute; reflexivity |].
  split; [vm_compute; reflexivity |].
  split; [vm_compute; discriminate |].
  split; [vm_compute; discriminate |].
  intros Hnone.
  specialize (Hnone "RED" Samples.RED
                (new_ Samples.Color_program) eq_refl eq_refl).
  apply (f_equal (fun r => match r with Ok b => length (sb b) | _ => 0%nat end))
    in Hnone.
  vm_compute in Hnone. discriminate Hnone.
Qed.

(** C3 (as the code behaves): [TSDBuilder.visitNamespace] does not consult
    [seen].  The namespace [N], exported at module level and also a member
    of the exported namespace [M], gets a [namespace N] block at each of the
    two places in the TypeScript output, while the WebIDL builder, whose
    [visitNamespace] tests [seen], writes its block once.  The same happens
    when [N] is exported at module level under two names. *)
Theorem C3_TSD_namespace_block_emitted_twice :
  TSDBuilder.build_static Samples.N_M_program =
    Ok (TSD_prologue +:+
        lines [ "  namespace N {";
                "    const X: i32;";
                "  }";
                "  namespace M {";
                "    namespace N {";
                "    }";
                "  }";
                "}" ]) /\
  IDLBuilder.build_static Samples.N_M_program =
    Ok (lines [ "interface ASModule {";
                "  interface N {";
                "    const long X = 7;";
                "  }";
                "  interface M {";
                "  }";
                "}" ]) /\
  TSDBuilder.build_static Samples.N_N2_program =
    Ok (TSD_prologue +:+
        lines [ "  namespace N {";
                "    const X: i32;";
                "  }";
                "  namespace N {";
                "  }";
                "}" ]) /\
  IDLBuilder.build_static Samples.N_N2_program =
    Ok (lines [ "interface ASModule {";
                "  interface N {";
                "    const long X = 7;";
                "  }";
                "}" ]).
Proof. repeat split; vm_compute; reflexivity. Qed.

(** C4: two builder instances of the same class on the same program, each
    fresh (nothing written, nothing seen, depth zero), return the same
    result from [build], which is the result of the static [build]; the
    addressing width is part of the program. *)
Theorem C4_fresh_builds_agree (p : Program) (b1 b2 : Builder) :
  program b1 = p -> program b2 = p -> fresh b1 -> fresh b2 ->
  IDLBuilder.build b1 = IDLBuilder.build b2 /\
  IDLBuilder.build b1 = IDLBuilder.build_static p /\
  TSDBuilder.build b1 = TSDBuilder.build b2 /\
  TSDBuilder.build b1 = TSDBuilder.build_static p.
Proof.
  destruct b1 as [p1 sb1 seen1 level1], b2 as [p2 sb2 seen2 level2].
  unfold fresh. simpl.
  intros -> -> (-> & -> & ->) (-> & -> & ->).
  repeat split.
Qed.

Lemma C4_fresh_builds_agree_witness :
  IDLBuilder.build (new_ Samples.ABC_program) =
    IDLBuilder.build (mkBuilder Samples.ABC_program [] ∅ 0) /\
  IDLBuilder.build (new_ Samples.ABC_program) =
    IDLBuilder.build_static Samples.ABC_program /\
  TSDBuilder.build (new_ Samples.ABC_program) =
    TSDBuilder.build (mkBuilder Samples.ABC_program [] ∅ 0) /\
  TSDBuilder.build (new_ Samples.ABC_program) =
    TSDBuilder.build_static Samples.ABC_program.
Proof.
  apply (C4_fresh_builds_agree Samples.ABC_program);
    try reflexivity; repeat split; reflexivity.
Defined.

(** C5 (as the code behaves): an enum, not yet seen, that has at least one
    [EnumValue] member and at least one member of another kind makes
    [TSDBuilder.visitEnum] fail: [numMembers] is not zero after the values,
    [visitNamespace] is called on the enum and hands every member, the
    values included, to the dispatcher, which has no case for
    [ENUMVALUE]. *)
Theorem C5_TSD_enum_with_values_and_members_is_fatal
    (element : Element) (ms : Map Element) (this : Builder) :
  seen_has element this = false ->
  members element = Some ms ->
  size ms < 2 ^ 31 ->
  Exists (fun entry => isEnumValue entry = true) ms ->
  Exists (fun entry => isEnumValue entry = false) ms ->
  TSDBuilder.visitEnum TSDBuilder.visitElement element this = AssertionFailed.
Proof.
  intros Hseen Hms Hsize Hvalue Hother.
  unfold TSDBuilder.visitEnum. rewrite Hseen, Hms. cbv zeta.
  match goal with
  | |- context [forEntries _ ms (?st, _)] =>
      destruct (TSD_visitEnumValue_loop ms st (size ms)) as [this1 Hloop]
  end.
  assert (Hpos : (0 < length ms)%nat).
  { destruct Hvalue; cbn [length]; lia. }
  pose proof (filter_length_lt isEnumValue ms Hother) as Hlt.
  unfold size in *.
  rewrite i32_wrap_range in Hloop by (unfold i32_range; lia).
  rewrite Hloop. cbn [bind].
  rewrite i32_wrap_range by (unfold i32_range; lia).
  destruct (Z.eqb_spec
              (Z.of_nat (length ms) - Z.of_nat (length (List.filter isEnumValue ms))) 0)
    as [Hzero | _]; [lia |].
  unfold TSDBuilder.visitNamespace. rewrite Hms. unfold size.
  destruct (Z.eqb_spec (Z.of_nat (length ms)) 0) as [Hzero | _]; [lia |].
  cbv zeta. unfold forValues. rewrite forEntries_fails; [reflexivity |].
  eapply Exists_impl; [exact Hvalue |].
  intros [name member] Hentry s. cbn [snd fst].
  rewrite TSD_visitElement_unfold. apply visitElement_undispatched.
  unfold isEnumValue in Hentry. cbn [snd] in Hentry.
  destruct (kind member); try discriminate Hentry; reflexivity.
Qed.

Lemma C5_TSD_enum_with_values_and_members_is_fatal_witness :
  TSDBuilder.visitEnum TSDBuilder.visitElement Samples.Mixed Samples.walking
  = AssertionFailed.
Proof.
  apply (C5_TSD_enum_with_values_and_members_is_fatal Samples.Mixed
           [("RED", Samples.RED); ("X", Samples.X)] Samples.walking).
  - reflexivity.
  - reflexivity.
  - reflexivity.
  - apply Exists_cons_hd. reflexivity.
  - apply Exists_cons_tl, Exists_cons_hd. reflexivity.
Defined.

(** C6: the WebIDL spelling of each primitive kind, the two pointer-sized
    kinds following the addressing-width flag of the program; a kind
    outside these fourteen fails the assertion, and only such a kind does. *)
Theorem C6_IDL_typeToString_table (this : Builder) :
  let wasm64 := isWasm64 (options (program this)) in
  IDLBuilder.typeToString this (mkType I8) = Ok "byte" /\
  IDLBuilder.typeToString this (mkType I16) = Ok "short" /\
  IDLBuilder.typeToString this (mkType I32) = Ok "long" /\
  IDLBuilder.typeToString this (mkType I64) = Ok "long long" /\
  IDLBuilder.typeToString this (mkType ISIZE) =
    Ok (if wasm64 then "long long" else "long") /\
  IDLBuilder.typeToString this (mkType U8) = Ok "octet" /\
  IDLBuilder.typeToString this (mkType U16) = Ok "unsigned short" /\
  IDLBuilder.typeToString this (mkType U32) = Ok "unsigned long" /\
  IDLBuilder.typeToString this (mkType U64) = Ok "unsigned long long" /\
  IDLBuilder.typeToString this (mkType USIZE) =
    Ok (if wasm64 then "unsigned long long" else "unsigned long") /\
  IDLBuilder.typeToString this (mkType BOOL) = Ok "boolean" /\
  IDLBuilder.typeToString this (mkType F32) = Ok "unrestricted float" /\
  IDLBuilder.typeToString this (mkType F64) = Ok "unrestricted double" /\
  IDLBuilder.typeToString this (mkType VOID) = Ok "void" /\
  (forall type : Type_,
      IDLBuilder.typeToString this type = AssertionFailed <-> type_kind type = OTHER).
Proof.
  cbv zeta. repeat (split; [reflexivity |]).
  intros [k]. unfold IDLBuilder.typeToString. cbn [type_kind]. split.
  - destruct k; intros Hfail; try discriminate Hfail; reflexivity.
  - now intros ->.
Qed.

(** C7: a compiled global of kind [GLOBAL] named [X], of type [i32],
    carrying [INLINED] with the integer constant 7, not yet seen, visited
    at a depth that is not negative: the WebIDL builder appends, at the
    current depth, the line [const long X = 7;]; the TypeScript builder
    appends the line [const X: i32;], without a literal, and goes on with
    the nested namespace of the global's members, which is nothing when the
    global has no member. *)
Theorem C7_inlined_i32_global (X : Element) (this : Builder) :
  kind X = GLOBAL -> is_ X COMPILED = true -> is_ X INLINED = true ->
  type_kind (type X) = I32 -> simpleName X = "X" ->
  constantValueKind X = INTEGER -> constantIntegerValue X = 7 ->
  seen_has X this = false -> 0 <= indentLevel this ->
  (exists this',
      emits IDLBuilder.visitElement X this
        (indentation (indentLevel this) +:+ "const long X = 7;" +:+ LF) this') /\
  (exists this1,
      join (sb this1) =
        join (sb this) +:+ indentation (indentLevel this) +:+ "const X: i32;" +:+ LF /\
      indentLevel this1 = indentLevel this /\
      TSDBuilder.visitElement X this =
        TSDBuilder.visitNamespace TSDBuilder.visitElement X this1) /\
  (memberCount X = 0%nat ->
   exists this',
      emits TSDBuilder.visitElement X this
        (indentation (indentLevel this) +:+ "const X: i32;" +:+ LF) this').
Proof.
  intros Hkind Hcompiled Hinlined Htype Hname Hcvk Hciv Hseen _.
  unfold emits.
  rewrite IDL_visitElement_unfold, TSD_visitElement_unfold.
  unfold ExportsWalker.visitElement. rewrite Hkind, Hcompiled.
  cbn [ExportsWalker.visitGlobal IDLBuilder.visitor TSDBuilder.visitor].
  unfold IDLBuilder.visitGlobal, TSDBuilder.visitGlobal,
    IDLBuilder.typeToString, TSDBuilder.typeToString.
  rewrite Hseen, Hinlined, Htype, Hname, Hcvk, Hciv. cbn [bind].
  split; [| split].
  - eexists. split; [reflexivity|]. now autorewrite with text.
  - eexists. split; [| split; [| reflexivity]].
    + now autorewrite with text.
    + reflexivity.
  - intros Hnone. unfold TSDBuilder.visitNamespace.
    unfold memberCount in Hnone.
    destruct (members X) as [[|entry ms]|]; try discriminate Hnone;
      (eexists; split; [reflexivity | now autorewrite with text]).
Qed.

Lemma C7_inlined_i32_global_witness :
  (exists this',
      emits IDLBuilder.visitElement Samples.X Samples.walking
        (indentation 1 +:+ "const long X = 7;" +:+ LF) this') /\
  (exists this1,
      join (sb this1) =
        join (sb Samples.walking) +:+ indentation 1 +:+ "const X: i32;" +:+ LF /\
      indentLevel this1 = 1 /\
      TSDBuilder.visitElement Samples.X Samples.walking =
        TSDBuilder.visitNamespace TSDBuilder.visitElement Samples.X this1) /\
  (memberCount Samples.X = 0%nat ->
   exists this',
      emits TSDBuilder.visitElement Samples.X Samples.walking
        (indentation 1 +:+ "const X: i32;" +:+ LF) this').
Proof.
  apply (C7_inlined_i32_global Samples.X Samples.walking);
    try reflexivity; simpl; lia.
Defined.

(** C8: a compiled namespace without members: the TypeScript builder
    leaves the builder as it is, so nothing is written for it; the WebIDL
    builder, when the namespace is not yet seen and the depth is not
    negative, appends the opening line [interface <name> {] and the closing
    line [}], both at the current depth. *)
Theorem C8_empty_namespace (N : Element) (this : Builder) :
  kind N = NAMESPACE -> is_ N COMPILED = true -> memberCount N = 0%nat ->
  TSDBuilder.visitElement N this = Ok this /\
  (seen_has N this = false -> 0 <= indentLevel this < 2 ^ 31 ->
   exists this',
     emits IDLBuilder.visitElement N this
       (indentation (indentLevel this) +:+ "interface " +:+ simpleName N +:+ " {" +:+ LF
        +:+ indentation (indentLevel this) +:+ "}" +:+ LF) this').
Proof.
  intros Hkind Hcompiled Hnone. unfold emits.
  rewrite IDL_visitElement_unfold, TSD_visitElement_unfold.
  unfold ExportsWalker.visitElement. rewrite Hkind, Hcompiled.
  cbn [ExportsWalker.visitNamespace IDLBuilder.visitor TSDBuilder.visitor].
  unfold TSDBuilder.visitNamespace, IDLBuilder.visitNamespace.
  unfold memberCount in Hnone.
  split.
  - destruct (members N) as [[|entry ms]|]; try discriminate Hnone; reflexivity.
  - intros Hseen Hrange. rewrite Hseen.
    assert (Hi32 : i32_range (indentLevel this)) by (unfold i32_range; lia).
    destruct (members N) as [[|entry ms]|]; try discriminate Hnone;
      cbn [forValues forEntries bind];
      (eexists; split; [reflexivity|]);
      autorewrite with text; now rewrite i32_decr_incr.
Qed.

Lemma C8_empty_namespace_witness :
  TSDBuilder.visitElement Samples.Empty Samples.walking = Ok Samples.walking /\
  (seen_has Samples.Empty Samples.walking = false ->
   0 <= indentLevel Samples.walking < 2 ^ 31 ->
   exists this',
     emits IDLBuilder.visitElement Samples.Empty Samples.walking
       (indentation 1 +:+ "interface " +:+ "Empty" +:+ " {" +:+ LF
        +:+ indentation 1 +:+ "}" +:+ LF) this').
Proof.
  apply (C8_empty_namespace Samples.Empty Samples.walking); reflexivity.
Defined.

(** C10 (as the code behaves): [IDLBuilder.visitFunction] on a function
    with a member writes the opening line of the nested block at the
    current depth without raising it, and lowers the depth before the
    closing line.  Entered at depth 1, the visit of [f] returns at depth 0:
    the member and the closing brace of the block of [f] are written one
    level too far out, and so is every later export. *)
Theorem C10_IDL_visitFunction_lowers_depth :
  indentLevel (IDL_walk_entry Samples.f_program) = 1 /\
  depthAfter (IDLBuilder.visitFunction IDLBuilder.visitElement Samples.f
                (IDL_walk_entry Samples.f_program)) = Ok 0 /\
  IDLBuilder.build_static Samples.f_program =
    Ok (lines [ "interface ASModule {";
                "  void f();";
                "  interface f {";
                "  const long X = 7;";
                "}";
                "long A;";
                "}" ]).
Proof. repeat split; vm_compute; reflexivity. Qed.

(** * Further properties of the builders *)

(** ** Relations that every visit keeps *)

(** With the facts of [Stable R] in the context, close a goal [R b e]
    where [e] is built from [b] by elementary updates. *)
Ltac stable_close HR :=
  unfold indent_then_incr, decr_then_indent; cbv zeta;
  repeat match goal with
    | |- context [if ?c then _ else _] => destruct c
    | |- context [match ?o with Some _ => _ | None => _ end] => destruct o
    end;
  repeat first
    [ assumption
    | apply (stable_refl _ HR)
    | apply (stable_push _ HR)
    | apply (stable_indent _ HR)
    | apply (stable_seen_add _ HR)
    | apply (stable_set_indentLevel _ HR) ].

(** From the facts [R st b], one for each builder that a loop or a nested
    call returned, derive [R start b] and close the goal. *)
Ltac stable_chain R HR start :=
  repeat match goal with
    | Hb : R ?st ?b |- _ =>
        lazymatch goal with
        | _ : R start b |- _ => fail
        | _ => idtac
        end;
        assert (R start b)
          by (apply (stable_trans _ HR _ st); [stable_close HR | exact Hb])
    end;
  stable_close HR.

Lemma forValues_keeps (R : Builder -> Builder -> Prop) (HR : Stable R)
    (body : Element -> Builder -> Result Builder) (m : Map Element) :
  Forall (fun entry => keeps R (body entry.2)) m ->
  keeps R (forValues body m).
Proof.
  intros Hall this this'. unfold forValues.
  apply forEntries_preserves with (R := R);
    [apply (stable_refl _ HR) | apply (stable_trans _ HR) | exact Hall].
Qed.

Lemma visitParameters_IDL_keeps (R : Builder -> Builder -> Prop) (HR : Stable R)
    (sg : Signature) (ps : list Type_) (i : nat) :
  keeps R (IDLBuilder.visitParameters sg i ps).
Proof.
  revert i. induction ps as [|p ps IH]; intros i this this' H; simpl in H.
  - injection H as <-. apply (stable_refl _ HR).
  - split_runs. apply IH in H. stable_chain R HR this.
Qed.

Lemma visitParameters_TSD_keeps (R : Builder -> Builder -> Prop) (HR : Stable R)
    (sg : Signature) (ps : list Type_) (i : nat) :
  keeps R (TSDBuilder.visitParameters sg i ps).
Proof.
  revert i. induction ps as [|p ps IH]; intros i this this' H; simpl in H.
  - injection H as <-. apply (stable_refl _ HR).
  - split_runs. apply IH in H. stable_chain R HR this.
Qed.

Ltac use_keeps R HR ve Hm :=
  repeat match goal with
    | E : forValues ve _ _ = Ok _ |- _ =>
        apply (forValues_keeps R HR) in E; [| now apply Hm]
    | E : IDLBuilder.visitParameters _ _ _ _ = Ok _ |- _ =>
        apply (visitParameters_IDL_keeps R HR) in E
    | E : TSDBuilder.visitParameters _ _ _ _ = Ok _ |- _ =>
        apply (visitParameters_TSD_keeps R HR) in E
    end.

(** Close a goal [guarded R element method] after the run was split. *)
Ltac guarded_finish R HR element this :=
  solve [ left; split; [first [assumption | reflexivity] | reflexivity]
        | right; split;
          [ first [assumption | reflexivity]
          | stable_chain R HR (seen_add element this) ] ].

Lemma guarded_keeps (R : Builder -> Builder -> Prop) (HR : Stable R)
    (element : Element) (method : Builder -> Result Builder) :
  guarded R element method -> keeps R method.
Proof.
  intros Hg this this' H. destruct (Hg _ _ H) as [[_ ->] | [_ Hrel]].
  - apply (stable_refl _ HR).
  - apply (stable_trans _ HR _ (seen_add element this)); [| exact Hrel].
    apply (stable_seen_add _ HR), (stable_refl _ HR).
Qed.

Section Visitors_keep.
Variable R : Builder -> Builder -> Prop.
Variable HR : Stable R.
Variable ve : Element -> Builder -> Result Builder.
Variable element : Element.

Lemma IDL_visitGlobal_guarded : guarded R element (IDLBuilder.visitGlobal element).
Proof.
  intros this this' H. unfold IDLBuilder.visitGlobal in H.
  split_runs; guarded_finish R HR element this.
Qed.

Lemma IDL_visitEnumValue_keeps (name : string) (member : Element) :
  keeps R (IDLBuilder.visitEnumValue name member).
Proof.
  intros this this' H. unfold IDLBuilder.visitEnumValue in H.
  split_runs; stable_chain R HR this.
Qed.

Lemma IDL_visitEnum_guarded :
  members_keep R ve element -> guarded R element (IDLBuilder.visitEnum ve element).
Proof.
  intros Hm this this' H. unfold IDLBuilder.visitEnum in H.
  split_runs; try guarded_finish R HR element this.
  match goal with
  | E1 : forEntries IDLBuilder.visitEnumValue _ _ = Ok _,
    E2 : forValues _ _ _ = Ok _ |- _ =>
      apply (forEntries_preserves R) in E1;
        [| apply (stable_refl _ HR) | apply (stable_trans _ HR)
         | apply Forall_forall; intros [??] _; apply IDL_visitEnumValue_keeps ];
      apply (forValues_keeps R HR) in E2
  end.
  - guarded_finish R HR element this.
  - eapply Forall_impl; [now apply Hm|].
    intros [name member] Hve. unfold keeps in *. simpl in *.
    intros b b' Hrun.
    destruct (kind member); try (now apply Hve);
      injection Hrun as <-; apply (stable_refl _ HR).
Qed.

Lemma IDL_visitFunction_guarded :
  members_keep R ve element ->
  guarded R element (IDLBuilder.visitFunction ve element).
Proof.
  intros Hm this this' H. unfold IDLBuilder.visitFunction in H.
  split_runs; use_keeps R HR ve Hm; guarded_finish R HR element this.
Qed.

Lemma IDL_visitClass_guarded : guarded R element (IDLBuilder.visitClass element).
Proof.
  intros this this' H. unfold IDLBuilder.visitClass in H.
  split_runs; guarded_finish R HR element this.
Qed.

Lemma IDL_visitNamespace_guarded :
  members_keep R ve element ->
  guarded R element (IDLBuilder.visitNamespace ve element).
Proof.
  intros Hm this this' H. unfold IDLBuilder.visitNamespace in H.
  split_runs; use_keeps R HR ve Hm; guarded_finish R HR element this.
Qed.

Lemma TSD_visitNamespace_keeps :
  members_keep R ve element -> keeps R (TSDBuilder.visitNamespace ve element).
Proof.
  intros Hm this this' H. unfold TSDBuilder.visitNamespace in H.
  split_runs; use_keeps R HR ve Hm; stable_chain R HR this.
Qed.

Lemma TSD_visitGlobal_guarded :
  members_keep R ve element ->
  guarded R element (TSDBuilder.visitGlobal ve element).
Proof.
  intros Hm this this' H. unfold TSDBuilder.visitGlobal in H.
  split_runs;
    repeat match goal with
      | E : TSDBuilder.visitNamespace ve _ _ = Ok _ |- _ =>
          apply (TSD_visitNamespace_keeps Hm) in E
      end;
    guarded_finish R HR element this.
Qed.

Lemma TSD_visitEnumValue_keeps (name : string) (member : Element)
    (this this' : Builder) (n n' : Z) :
  TSDBuilder.visitEnumValue name member (this, n) = Ok (this', n') ->
  R this this'.
Proof.
  intros H. unfold TSDBuilder.visitEnumValue in H.
  split_runs; stable_chain R HR this.
Qed.

Lemma TSD_visitEnumValue_loop_keeps (ms : Map Element) (this this' : Builder)
    (n n' : Z) :
  forEntries TSDBuilder.visitEnumValue ms (this, n) = Ok (this', n') ->
  R this this'.
Proof.
  intros H.
  apply (forEntries_preserves (fun s s' => R s.1 s'.1)) in H; [exact H | | |].
  - intros s. apply (stable_refl _ HR).
  - intros s1 s2 s3. apply (stable_trans _ HR).
  - apply Forall_forall. intros [name member] _ [b k] [b' k'].
    apply TSD_visitEnumValue_keeps.
Qed.

Lemma TSD_visitEnum_guarded :
  members_keep R ve element ->
  guarded R element (TSDBuilder.visitEnum ve element).
Proof.
  intros Hm this this' H. unfold TSDBuilder.visitEnum in H.
  split_runs;
    repeat match goal with
      | E : forEntries TSDBuilder.visitEnumValue _ _ = Ok _ |- _ =>
          apply TSD_visitEnumValue_loop_keeps in E
      | E : TSDBuilder.visitNamespace ve _ _ = Ok _ |- _ =>
          apply (TSD_visitNamespace_keeps Hm) in E
      end;
    guarded_finish R HR element this.
Qed.

Lemma TSD_visitFunction_guarded :
  members_keep R ve element ->
  guarded R element (TSDBuilder.visitFunction ve element).
Proof.
  intros Hm this this' H. unfold TSDBuilder.visitFunction in H.
  split_runs; use_keeps R HR ve Hm;
    repeat match goal with
      | E : TSDBuilder.visitNamespace ve _ _ = Ok _ |- _ =>
          apply (TSD_visitNamespace_keeps Hm) in E
      end;
    guarded_finish R HR element this.
Qed.

Lemma TSD_visitClass_guarded : guarded R element (TSDBuilder.visitClass element).
Proof.
  intros this this' H. unfold TSDBuilder.visitClass in H.
  split_runs; guarded_finish R HR element this.
Qed.

End Visitors_keep.

Lemma ExportsWalker_visitElement_keeps (R : Builder -> Builder -> Prop)
    (HR : Stable R) (v : ExportsWalker.Visitor) (element : Element) :
  keeps R (ExportsWalker.visitGlobal v element) ->
  keeps R (ExportsWalker.visitEnum v element) ->
  keeps R (ExportsWalker.visitNamespace v element) ->
  Forall (fun entry => keeps R (ExportsWalker.visitFunction v entry.2) /\
                       keeps R (ExportsWalker.visitClass v entry.2))
         (instances element) ->
  keeps R (ExportsWalker.visitElement v element).
Proof.
  intros Hg He Hn Hi this this' H. unfold ExportsWalker.visitElement in H.
  destruct (kind element); try discriminate H;
    try (destruct (is_ element COMPILED);
         [ auto | injection H as <-; apply (stable_refl _ HR) ]).
  - revert H. apply (forValues_keeps R HR).
    eapply Forall_impl; [exact Hi|]. intros [name instance] [Hf _] b b' Hrun.
    cbn [snd] in *. destruct (is_ instance COMPILED);
      [ now apply Hf | injection Hrun as <-; apply (stable_refl _ HR) ].
  - revert H. apply (forValues_keeps R HR).
    eapply Forall_impl; [exact Hi|]. intros [name instance] [_ Hc] b b' Hrun.
    cbn [snd] in *. destruct (is_ instance COMPILED);
      [ now apply Hc | injection Hrun as <-; apply (stable_refl _ HR) ].
Qed.

Lemma IDL_visit_keeps (R : Builder -> Builder -> Prop) (HR : Stable R)
    (element : Element) :
  keeps R (IDLBuilder.visitElement element) /\
  keeps R (IDLBuilder.visitFunction IDLBuilder.visitElement element).
Proof.
  induction element as [element IHm IHi] using Element_nested_ind.
  assert (Hm : members_keep R IDLBuilder.visitElement element).
  { intros ms Hms. eapply Forall_impl; [exact (IHm ms Hms)|]. now intros ? [? _]. }
  split; [| exact (guarded_keeps R HR _ _ (IDL_visitFunction_guarded R HR _ _ Hm))].
  intros this this'. rewrite IDL_visitElement_unfold.
  apply (ExportsWalker_visitElement_keeps R HR); simpl.
  - exact (guarded_keeps R HR _ _ (IDL_visitGlobal_guarded R HR _)).
  - exact (guarded_keeps R HR _ _ (IDL_visitEnum_guarded R HR _ _ Hm)).
  - exact (guarded_keeps R HR _ _ (IDL_visitNamespace_guarded R HR _ _ Hm)).
  - eapply Forall_impl; [exact IHi|]. intros ? [_ ?].
    split; [assumption |].
    exact (guarded_keeps R HR _ _ (IDL_visitClass_guarded R HR _)).
Qed.

Lemma TSD_visit_keeps (R : Builder -> Builder -> Prop) (HR : Stable R)
    (element : Element) :
  keeps R (TSDBuilder.visitElement element) /\
  keeps R (TSDBuilder.visitFunction TSDBuilder.visitElement element).
Proof.
  induction element as [element IHm IHi] using Element_nested_ind.
  assert (Hm : members_keep R TSDBuilder.visitElement element).
  { intros ms Hms. eapply Forall_impl; [exact (IHm ms Hms)|]. now intros ? [? _]. }
  split; [| exact (guarded_keeps R HR _ _ (TSD_visitFunction_guarded R HR _ _ Hm))].
  intros this this'. rewrite TSD_visitElement_unfold.
  apply (ExportsWalker_visitElement_keeps R HR); simpl.
  - exact (guarded_keeps R HR _ _ (TSD_visitGlobal_guarded R HR _ _ Hm)).
  - exact (guarded_keeps R HR _ _ (TSD_visitEnum_guarded R HR _ _ Hm)).
  - exact (TSD_visitNamespace_keeps R HR _ _ Hm).
  - eapply Forall_impl; [exact IHi|]. intros ? [_ ?].
    split; [assumption |].
    exact (guarded_keeps R HR _ _ (TSD_visitClass_guarded R HR _)).
Qed.

Lemma IDL_members_keep (R : Builder -> Builder -> Prop) (HR : Stable R)
    (element : Element) : members_keep R IDLBuilder.visitElement element.
Proof.
  intros ms _. apply Forall_forall. intros entry _.
  apply (IDL_visit_keeps R HR).
Qed.

Lemma TSD_members_keep (R : Builder -> Builder -> Prop) (HR : Stable R)
    (element : Element) : members_keep R TSDBuilder.visitElement element.
Proof.
  intros ms _. apply Forall_forall. intros entry _.
  apply (TSD_visit_keeps R HR).
Qed.

(** ** [seen] only grows, and what a guarded visit leaves in it *)

Lemma grows_stable : Stable grows.
Proof.
  unfold grows. split; simpl.
  - intros b. split; [reflexivity | set_solver].
  - intros b1 b2 b3 [Hp12 Hs12] [Hp23 Hs23]. split; [congruence | set_solver].
  - intros s b1 b2 [Hp Hs]. split; assumption.
  - intros level b1 b2 [Hp Hs]. split; assumption.
  - intros element b1 b2 [Hp Hs]. split; [assumption | set_solver].
  - intros level b1 b2 [Hp Hs]. split; assumption.
Qed.

Lemma seen_has_true (element : Element) (this : Builder) :
  seen_has element this = true <-> ident element ∈ seen this.
Proof. unfold seen_has. apply bool_decide_eq_true. Qed.

Lemma seen_has_mono (element : Element) (b b' : Builder) :
  seen b ⊆ seen b' -> seen_has element b = true -> seen_has element b' = true.
Proof. rewrite !seen_has_true. set_solver. Qed.

Lemma guarded_marks (element : Element) (method : Builder -> Result Builder)
    (this this' : Builder) :
  guarded grows element method -> method this = Ok this' ->
  seen_has element this' = true.
Proof.
  intros Hg H. destruct (Hg _ _ H) as [[Hseen ->] | [_ [_ Hsub]]].
  - exact Hseen.
  - apply seen_has_true. simpl in Hsub. set_solver.
Qed.

(** After the loop over the instances of a prototype, every compiled
    instance is in [seen]. *)
Lemma instances_marked (visit : Element -> Builder -> Result Builder)
    (insts : Map Element) :
  (forall instance, guarded grows instance (visit instance)) ->
  forall this this',
    forValues (fun instance this =>
                 if is_ instance COMPILED then visit instance this else Ok this)
              insts this = Ok this' ->
    seen this ⊆ seen this' /\
    Forall (fun entry => is_ entry.2 COMPILED = true ->
                         seen_has entry.2 this' = true) insts.
Proof.
  intros Hg. induction insts as [|[name instance] insts IH]; intros this this' H.
  - injection H as <-. split; [set_solver | constructor].
  - cbn [forValues forEntries] in H.
    destruct (is_ instance COMPILED) eqn:Hc.
    + destruct (visit instance this) as [b1|] eqn:E1; cbn [bind] in H;
        [| discriminate H].
      destruct (IH _ _ H) as [Hsub Hall].
      pose proof (guarded_marks _ _ _ _ (Hg instance) E1) as Hmark.
      pose proof (guarded_keeps _ grows_stable _ _ (Hg instance) _ _ E1) as [_ Hsub1].
      split; [now transitivity (seen b1) |]. constructor; [| exact Hall].
      intros _. cbn [snd]. now apply (seen_has_mono instance b1).
    + cbn [bind] in H. destruct (IH _ _ H) as [Hsub Hall].
      split; [exact Hsub |]. constructor; [| exact Hall].
      cbn [snd]. congruence.
Qed.

(** The loop over instances that are all in [seen] returns the builder as
    it is. *)
Lemma instances_seen_noop (visit : Element -> Builder -> Result Builder)
    (insts : Map Element) (this : Builder) :
  (forall instance b, seen_has instance b = true -> visit instance b = Ok b) ->
  Forall (fun entry => is_ entry.2 COMPILED = true ->
                       seen_has entry.2 this = true) insts ->
  forValues (fun instance this =>
               if is_ instance COMPILED then visit instance this else Ok this)
            insts this = Ok this.
Proof.
  intros Hnoop Hall. induction Hall as [|[name instance] insts Hhead _ IH].
  - reflexivity.
  - cbn [forValues forEntries]. cbn [snd] in Hhead.
    destruct (is_ instance COMPILED).
    + rewrite Hnoop; [exact IH | apply Hhead; reflexivity].
    + exact IH.
Qed.

Lemma Forall_seen_mono (insts : Map Element) (b b' : Builder) :
  seen b ⊆ seen b' ->
  Forall (fun entry => is_ entry.2 COMPILED = true ->
                       seen_has entry.2 b = true) insts ->
  Forall (fun entry => is_ entry.2 COMPILED = true ->
                       seen_has entry.2 b' = true) insts.
Proof.
  intros Hsub Hall. eapply Forall_impl; [exact Hall |].
  intros entry Hentry Hc. now apply (seen_has_mono _ b), Hentry.
Qed.

(** X1: whatever element either builder visits, when the visit returns
    the builder still refers to the same program and [seen] contains every
    identity it contained before: nothing is ever removed from [seen]. *)
Theorem X1_visit_keeps_program_and_seen (element : Element)
    (this this' : Builder) :
  (IDLBuilder.visitElement element this = Ok this' -> grows this this') /\
  (TSDBuilder.visitElement element this = Ok this' -> grows this this').
Proof.
  split; intros H.
  - exact (proj1 (IDL_visit_keeps grows grows_stable element) _ _ H).
  - exact (proj1 (TSD_visit_keeps grows grows_stable element) _ _ H).
Qed.

Lemma X1_visit_keeps_program_and_seen_witness :
  grows Samples.walking MoreSamples.IDL_after_N /\
  grows Samples.walking MoreSamples.TSD_after_Color.
Proof.
  split.
  - apply (proj1 (X1_visit_keeps_program_and_seen Samples.N Samples.walking
                    MoreSamples.IDL_after_N)).
    vm_compute. reflexivity.
  - apply (proj2 (X1_visit_keeps_program_and_seen Samples.Color Samples.walking
                    MoreSamples.TSD_after_Color)).
    vm_compute. reflexivity.
Defined.

(** X2: in the WebIDL builder, once the dispatcher has returned from an
    element, dispatching the same element again, at once or in any later
    builder of the run (one whose [seen] contains what [seen] contained on
    that return), returns the builder as it is: nothing is written for the
    element a second time. *)
Theorem X2_IDL_element_rendered_once (element : Element)
    (this this' later : Builder) :
  IDLBuilder.visitElement element this = Ok this' ->
  seen this' ⊆ seen later ->
  IDLBuilder.visitElement element later = Ok later.
Proof.
  intros H Hsub. rewrite IDL_visitElement_unfold in H |- *.
  unfold ExportsWalker.visitElement in H |- *.
  pose proof (IDL_members_keep grows grows_stable) as Hm.
  destruct (kind element); try discriminate H;
    cbn [ExportsWalker.visitGlobal ExportsWalker.visitEnum
         ExportsWalker.visitNamespace ExportsWalker.visitFunction
         ExportsWalker.visitClass IDLBuilder.visitor] in H |- *.
  - destruct (is_ element COMPILED); [| reflexivity].
    apply (guarded_marks element) in H;
      [| apply (IDL_visitGlobal_guarded grows grows_stable)].
    apply (seen_has_mono element this' later Hsub) in H.
    now destruct (IDL_visit_seen IDLBuilder.visitElement element later H)
      as (? & ? & ? & ? & ?).
  - destruct (is_ element COMPILED); [| reflexivity].
    apply (guarded_marks element) in H;
      [| apply (IDL_visitEnum_guarded grows grows_stable), Hm].
    apply (seen_has_mono element this' later Hsub) in H.
    now destruct (IDL_visit_seen IDLBuilder.visitElement element later H)
      as (? & ? & ? & ? & ?).
  - apply instances_marked in H as [_ Hall];
      [| intros i; apply (IDL_visitFunction_guarded grows grows_stable), Hm].
    apply instances_seen_noop; [| now apply (Forall_seen_mono _ this')].
    intros i b Hseen.
    now destruct (IDL_visit_seen IDLBuilder.visitElement i b Hseen)
      as (? & ? & ? & ? & ?).
  - apply instances_marked in H as [_ Hall];
      [| intros i; apply (IDL_visitClass_guarded grows grows_stable)].
    apply instances_seen_noop; [| now apply (Forall_seen_mono _ this')].
    intros i b Hseen.
    now destruct (IDL_visit_seen IDLBuilder.visitElement i b Hseen)
      as (? & ? & ? & ? & ?).
  - destruct (is_ element COMPILED); [| reflexivity].
    apply (guarded_marks element) in H;
      [| apply (IDL_visitNamespace_guarded grows grows_stable), Hm].
    apply (seen_has_mono element this' later Hsub) in H.
    now destruct (IDL_visit_seen IDLBuilder.visitElement element later H)
      as (? & ? & ? & ? & ?).
Qed.

Lemma X2_IDL_element_rendered_once_witness :
  IDLBuilder.visitElement Samples.N MoreSamples.IDL_after_N
  = Ok MoreSamples.IDL_after_N.
Proof.
  apply (X2_IDL_element_rendered_once Samples.N Samples.walking
           MoreSamples.IDL_after_N MoreSamples.IDL_after_N).
  - vm_compute. reflexivity.
  - reflexivity.
Defined.

(** X3: the same holds in the TypeScript builder for every element that
    is not of kind [NAMESPACE]: a global, an enum, and the instances of a
    function or class prototype are written at most once in a run. *)
Theorem X3_TSD_element_rendered_once (element : Element)
    (this this' later : Builder) :
  kind element <> NAMESPACE ->
  TSDBuilder.visitElement element this = Ok this' ->
  seen this' ⊆ seen later ->
  TSDBuilder.visitElement element later = Ok later.
Proof.
  intros Hkind H Hsub. rewrite TSD_visitElement_unfold in H |- *.
  unfold ExportsWalker.visitElement in H |- *.
  pose proof (TSD_members_keep grows grows_stable) as Hm.
  destruct (kind element); try discriminate H; try (now contradict Hkind);
    cbn [ExportsWalker.visitGlobal ExportsWalker.visitEnum
         ExportsWalker.visitNamespace ExportsWalker.visitFunction
         ExportsWalker.visitClass TSDBuilder.visitor] in H |- *.
  - destruct (is_ element COMPILED); [| reflexivity].
    apply (guarded_marks element) in H;
      [| apply (TSD_visitGlobal_guarded grows grows_stable), Hm].
    apply (seen_has_mono element this' later Hsub) in H.
    now destruct (TSD_visit_seen TSDBuilder.visitElement element later H)
      as (? & ? & ? & ? & ?).
  - destruct (is_ element COMPILED); [| reflexivity].
    apply (guarded_marks element) in H;
      [| apply (TSD_visitEnum_guarded grows grows_stable), Hm].
    apply (seen_has_mono element this' later Hsub) in H.
    now destruct (TSD_visit_seen TSDBuilder.visitElement element later H)
      as (? & ? & ? & ? & ?).
  - apply instances_marked in H as [_ Hall];
      [| intros i; apply (TSD_visitFunction_guarded grows grows_stable), Hm].
    apply instances_seen_noop; [| now apply (Forall_seen_mono _ this')].
    intros i b Hseen.
    now destruct (TSD_visit_seen TSDBuilder.visitElement i b Hseen)
      as (? & ? & ? & ? & ?).
  - apply instances_marked in H as [_ Hall];
      [| intros i; apply (TSD_visitClass_guarded grows grows_stable)].
    apply instances_seen_noop; [| now apply (Forall_seen_mono _ this')].
    intros i b Hseen.
    now destruct (TSD_visit_seen TSDBuilder.visitElement i b Hseen)
      as (? & ? & ? & ? & ?).
Qed.

Lemma X3_TSD_element_rendered_once_witness :
  TSDBuilder.visitElement Samples.Color MoreSamples.TSD_after_Color
  = Ok MoreSamples.TSD_after_Color.
Proof.
  apply (X3_TSD_element_rendered_once Samples.Color Samples.walking
           MoreSamples.TSD_after_Color MoreSamples.TSD_after_Color).
  - discriminate.
  - vm_compute. reflexivity.
  - reflexivity.
Defined.

(** ** Indentation depth in the TypeScript builder *)

Lemma i32_wrap_in_range (z : Z) : i32_range (i32_wrap z).
Proof.
  unfold i32_range, i32_wrap.
  pose proof (Z.mod_pos_bound (z + 2 ^ 31) (2 ^ 32) ltac:(lia)). lia.
Qed.

Lemma forValues_depth_kept (body : Element -> Builder -> Result Builder)
    (m : Map Element) :
  Forall (fun entry => depth_kept (body entry.2)) m ->
  depth_kept (forValues body m).
Proof.
  intros Hall this this' Hrange H. unfold forValues in H.
  refine (forEntries_preserves
            (fun b b' => i32_range (indentLevel b) -> indentLevel b' = indentLevel b)
            _ m _ _ _ this this' H Hrange).
  - reflexivity.
  - intros s1 s2 s3 H12 H23 Hs1.
    rewrite H23 by (rewrite H12; assumption). now apply H12.
  - eapply Forall_impl; [exact Hall |].
    intros [name member] Hbody b b' Hrun Hb. now apply Hbody.
Qed.

Lemma visitParameters_TSD_depth (sg : Signature) (ps : list Type_) (i : nat)
    (this this' : Builder) :
  TSDBuilder.visitParameters sg i ps this = Ok this' ->
  indentLevel this' = indentLevel this.
Proof.
  revert i this. induction ps as [|p ps IH]; intros i this H; simpl in H.
  - now injection H as <-.
  - destruct (TSDBuilder.typeToString _ p); cbn [bind] in H; [| discriminate H].
    apply IH in H. rewrite H. autorewrite with text.
    now destruct (Nat.eqb i 0).
Qed.

Lemma TSD_visitEnumValue_loop_depth (ms : Map Element) (this this' : Builder)
    (n n' : Z) :
  forEntries TSDBuilder.visitEnumValue ms (this, n) = Ok (this', n') ->
  indentLevel this' = indentLevel this.
Proof.
  intros H.
  apply (forEntries_preserves (fun s s' => indentLevel s'.1 = indentLevel s.1))
    in H; [exact H | | |].
  - reflexivity.
  - intros s1 s2 s3 H12 H23. now rewrite H23.
  - apply Forall_forall. intros [name member] _ [b k] [b' k'] Hrun.
    unfold TSDBuilder.visitEnumValue in Hrun. cbv zeta in Hrun.
    cbn [fst snd] in *.
    destruct (kind member); injection Hrun as <- _; try reflexivity.
    now destruct (flag_inlined (flags member)).
Qed.

Lemma TSD_visitNamespace_depth (ve : Element -> Builder -> Result Builder)
    (element : Element) :
  members_depth_kept ve element ->
  depth_kept (TSDBuilder.visitNamespace ve element).
Proof.
  intros Hm this this' Hrange H. unfold TSDBuilder.visitNamespace in H.
  destruct (members element) as [ms|] eqn:Hms; [| now injection H as <-].
  destruct (Z.eqb (size ms) 0); [now injection H as <- |].
  cbv zeta in H.
  destruct (forValues ve ms _) as [b|] eqn:Eloop; cbn [bind] in H;
    [| discriminate H].
  injection H as <-.
  apply (forValues_depth_kept ve ms (Hm ms Hms)) in Eloop;
    [| autorewrite with text; apply i32_wrap_in_range].
  autorewrite with text in Eloop |- *. rewrite Eloop.
  now apply i32_decr_incr.
Qed.

Lemma TSD_visitGlobal_depth (ve : Element -> Builder -> Result Builder)
    (element : Element) :
  members_depth_kept ve element ->
  depth_kept (TSDBuilder.visitGlobal ve element).
Proof.
  intros Hm this this' Hrange H. unfold TSDBuilder.visitGlobal in H.
  destruct (seen_has element this); [now injection H as <- |].
  cbv zeta in H.
  destruct (TSDBuilder.typeToString _ _); cbn [bind] in H; [| discriminate H].
  apply (TSD_visitNamespace_depth ve element Hm) in H.
  - rewrite H. autorewrite with text. now destruct (is_ element INLINED).
  - autorewrite with text. now destruct (is_ element INLINED).
Qed.

Lemma TSD_visitFunction_depth (ve : Element -> Builder -> Result Builder)
    (element : Element) :
  members_depth_kept ve element ->
  depth_kept (TSDBuilder.visitFunction ve element).
Proof.
  intros Hm this this' Hrange H. unfold TSDBuilder.visitFunction in H.
  destruct (seen_has element this); [now injection H as <- |].
  cbv zeta in H.
  destruct (TSDBuilder.visitParameters _ _ _ _) as [b1|] eqn:Eparams;
    cbn [bind] in H; [| discriminate H].
  apply visitParameters_TSD_depth in Eparams. autorewrite with text in Eparams.
  destruct (TSDBuilder.typeToString _ _); cbn [bind] in H; [| discriminate H].
  apply (TSD_visitNamespace_depth ve element Hm) in H.
  - rewrite H. autorewrite with text. exact Eparams.
  - autorewrite with text. now rewrite Eparams.
Qed.

Lemma TSD_visitClass_depth (element : Element) :
  depth_kept (TSDBuilder.visitClass element).
Proof.
  intros this this' Hrange H. unfold TSDBuilder.visitClass in H.
  destruct (seen_has element this); [now injection H as <- |].
  cbv zeta in H. injection H as <-. unfold is_.
  destruct (base element), (kind element), (flag_abstract (flags element));
    autorewrite with text; now apply i32_decr_incr.
Qed.

Lemma TSD_visitEnum_depth (ve : Element -> Builder -> Result Builder)
    (element : Element) :
  members_depth_kept ve element ->
  depth_kept (TSDBuilder.visitEnum ve element).
Proof.
  intros Hm this this' Hrange H. unfold TSDBuilder.visitEnum in H.
  destruct (seen_has element this); [now injection H as <- |].
  cbv zeta in H.
  destruct (members element) as [ms|] eqn:Hms.
  - destruct (forEntries _ ms _) as [[b n]|] eqn:Eloop; cbn [bind] in H;
      [| discriminate H].
    apply TSD_visitEnumValue_loop_depth in Eloop.
    autorewrite with text in Eloop.
    destruct (Z.eqb n 0).
    + cbn [bind] in H. injection H as <-. autorewrite with text.
      rewrite Eloop. now apply i32_decr_incr.
    + destruct (TSDBuilder.visitNamespace ve element b) as [b2|] eqn:Ens;
        cbn [bind] in H; [| discriminate H].
      injection H as <-.
      apply (TSD_visitNamespace_depth ve element Hm) in Ens;
        [| rewrite Eloop; apply i32_wrap_in_range].
      autorewrite with text. rewrite Ens, Eloop. now apply i32_decr_incr.
  - cbn [bind] in H. injection H as <-. autorewrite with text.
    now apply i32_decr_incr.
Qed.

Lemma ExportsWalker_visitElement_depth (v : ExportsWalker.Visitor)
    (element : Element) :
  depth_kept (ExportsWalker.visitGlobal v element) ->
  depth_kept (ExportsWalker.visitEnum v element) ->
  depth_kept (ExportsWalker.visitNamespace v element) ->
  Forall (fun entry => depth_kept (ExportsWalker.visitFunction v entry.2) /\
                       depth_kept (ExportsWalker.visitClass v entry.2))
         (instances element) ->
  depth_kept (ExportsWalker.visitElement v element).
Proof.
  intros Hg He Hn Hi this this' Hrange H. unfold ExportsWalker.visitElement in H.
  destruct (kind element); try discriminate H;
    try (destruct (is_ element COMPILED);
         [ auto | now injection H as <- ]).
  - revert Hrange H. apply forValues_depth_kept.
    eapply Forall_impl; [exact Hi|]. intros [name instance] [Hf _] b b' Hb Hrun.
    cbn [snd] in *. destruct (is_ instance COMPILED);
      [ now apply Hf | now injection Hrun as <- ].
  - revert Hrange H. apply forValues_depth_kept.
    eapply Forall_impl; [exact Hi|]. intros [name instance] [_ Hc] b b' Hb Hrun.
    cbn [snd] in *. destruct (is_ instance COMPILED);
      [ now apply Hc | now injection Hrun as <- ].
Qed.

Lemma TSD_visit_depth (element : Element) :
  depth_kept (TSDBuilder.visitElement element) /\
  depth_kept (TSDBuilder.visitFunction TSDBuilder.visitElement element).
Proof.
  induction element as [element IHm IHi] using Element_nested_ind.
  assert (Hm : members_depth_kept TSDBuilder.visitElement element).
  { intros ms Hms. eapply Forall_impl; [exact (IHm ms Hms)|]. now intros ? [? _]. }
  split; [| now apply TSD_visitFunction_depth].
  intros this this'. rewrite TSD_visitElement_unfold.
  apply ExportsWalker_visitElement_depth; simpl.
  - now apply TSD_visitGlobal_depth.
  - now apply TSD_visitEnum_depth.
  - now apply TSD_visitNamespace_depth.
  - eapply Forall_impl; [exact IHi|]. intros ? [_ ?].
    split; [assumption | apply TSD_visitClass_depth].
Qed.

(** X4: every visit of the TypeScript builder that returns leaves the
    indentation depth at the value it had on entry, whatever the element
    and however deep its members nest; so does [walk]. *)
Theorem X4_TSD_visit_restores_depth (element : Element) (this this' : Builder) :
  i32_range (indentLevel this) ->
  (TSDBuilder.visitElement element this = Ok this' ->
   indentLevel this' = indentLevel this) /\
  (TSDBuilder.walk this = Ok this' -> indentLevel this' = indentLevel this).
Proof.
  intros Hrange. split; intros H.
  - exact (proj1 (TSD_visit_depth element) _ _ Hrange H).
  - unfold TSDBuilder.walk, ExportsWalker.walk in H.
    revert Hrange H. apply forValues_depth_kept, Forall_forall.
    intros entry _. apply TSD_visit_depth.
Qed.

Lemma X4_TSD_visit_restores_depth_witness :
  indentLevel MoreSamples.TSD_after_Outer = indentLevel Samples.walking /\
  indentLevel MoreSamples.TSD_after_walk =
    indentLevel (TSD_walk_entry Samples.ABC_program).
Proof.
  split.
  - apply (proj1 (X4_TSD_visit_restores_depth MoreSamples.Outer Samples.walking
                    MoreSamples.TSD_after_Outer
                    ltac:(vm_compute; split; [discriminate | reflexivity]))).
    vm_compute. reflexivity.
  - apply (proj2 (X4_TSD_visit_restores_depth MoreSamples.Outer
                    (TSD_walk_entry Samples.ABC_program)
                    MoreSamples.TSD_after_walk
                    ltac:(vm_compute; split; [discriminate | reflexivity]))).
    vm_compute. reflexivity.
Defined.

(** ** Indentation depth in the WebIDL builder, functions without members *)

Lemma IDL_visitFunction_bare_depth (ve : Element -> Builder -> Result Builder)
    (element : Element) :
  memberCount element = 0%nat ->
  depth_kept (IDLBuilder.visitFunction ve element).
Proof.
  intros Hnone this this' _ H. unfold IDLBuilder.visitFunction in H.
  destruct (seen_has element this); [now injection H as <- |].
  cbv zeta in H.
  destruct (IDLBuilder.typeToString _ _); cbn [bind] in H; [| discriminate H].
  destruct (IDLBuilder.visitParameters _ _ _ _) as [b1|] eqn:Eparams;
    cbn [bind] in H; [| discriminate H].
  apply visitParameters_IDL_depth in Eparams. autorewrite with text in Eparams.
  unfold memberCount in Hnone.
  destruct (members element) as [[|entry ms]|]; try discriminate Hnone;
    cbn in H; injection H as <-; autorewrite with text; exact Eparams.
Qed.

Lemma IDL_visitEnumValue_loop_depth (ms : Map Element) (this this' : Builder) :
  forEntries IDLBuilder.visitEnumValue ms this = Ok this' ->
  indentLevel this' = indentLevel this.
Proof.
  intros H.
  apply (forEntries_preserves (fun b b' => indentLevel b' = indentLevel b))
    in H; [exact H | | |].
  - reflexivity.
  - intros s1 s2 s3 H12 H23. now rewrite H23.
  - apply Forall_forall. intros [name member] _ b b' Hrun.
    unfold IDLBuilder.visitEnumValue in Hrun. cbv zeta in Hrun.
    cbn [fst snd] in *.
    destruct (kind member); injection Hrun as <-; try reflexivity.
    now destruct (flag_inlined (flags member)).
Qed.

Lemma IDL_visitEnum_depth (ve : Element -> Builder -> Result Builder)
    (element : Element) :
  members_depth_kept ve element ->
  depth_kept (IDLBuilder.visitEnum ve element).
Proof.
  intros Hm this this' Hrange H. unfold IDLBuilder.visitEnum in H.
  destruct (seen_has element this); [now injection H as <- |].
  cbv zeta in H.
  destruct (members element) as [ms|] eqn:Hms.
  - destruct (forEntries _ ms _) as [b|] eqn:Evalues; cbn [bind] in H;
      [| discriminate H].
    apply IDL_visitEnumValue_loop_depth in Evalues.
    autorewrite with text in Evalues.
    destruct (forValues _ ms b) as [b2|] eqn:Eothers; cbn [bind] in H;
      [| discriminate H].
    injection H as <-.
    apply forValues_depth_kept in Eothers.
    + autorewrite with text. rewrite Eothers, Evalues. now apply i32_decr_incr.
    + eapply Forall_impl; [exact (Hm ms Hms) |].
      intros [name member] Hve s s' Hs Hrun. cbn [snd] in *.
      destruct (kind member); try (now apply Hve); now injection Hrun as <-.
    + rewrite Evalues. apply i32_wrap_in_range.
  - cbn [bind] in H. injection H as <-. autorewrite with text.
    now apply i32_decr_incr.
Qed.

Lemma IDL_visitNamespace_depth (ve : Element -> Builder -> Result Builder)
    (element : Element) :
  members_depth_kept ve element ->
  depth_kept (IDLBuilder.visitNamespace ve element).
Proof.
  intros Hm this this' Hrange H. unfold IDLBuilder.visitNamespace in H.
  destruct (seen_has element this); [now injection H as <- |].
  cbv zeta in H.
  destruct (members element) as [ms|] eqn:Hms.
  - destruct (forValues ve ms _) as [b|] eqn:Eloop; cbn [bind] in H;
      [| discriminate H].
    injection H as <-.
    apply (forValues_depth_kept ve ms (Hm ms Hms)) in Eloop;
      [| autorewrite with text; apply i32_wrap_in_range].
    autorewrite with text in Eloop |- *. rewrite Eloop.
    now apply i32_decr_incr.
  - cbn [bind] in H. injection H as <-. autorewrite with text.
    now apply i32_decr_incr.
Qed.

Lemma functionsBare_unfold (element : Element) :
  functionsBare element =
  match kind element with
  | FUNCTION_PROTOTYPE =>
      forallb (fun entry => negb (is_ entry.2 COMPILED)
                            || Nat.eqb (memberCount entry.2) 0)
              (instances element)
  | _ => true
  end
  && match members element with
     | Some ms => forallb (fun entry => functionsBare entry.2) ms
     | None => true
     end.
Proof. destruct element; reflexivity. Qed.

Lemma functionsBare_members (element : Element) (ms : Map Element) :
  functionsBare element = true -> members element = Some ms ->
  Forall (fun entry => functionsBare entry.2 = true) ms.
Proof.
  rewrite functionsBare_unfold. intros [_ Hmembers]%andb_prop Hms.
  rewrite Hms, forallb_forall in Hmembers.
  apply Forall_forall. intros entry Hin. apply Hmembers.
  now apply list_elem_of_In.
Qed.

Lemma IDL_visit_bare_depth (element : Element) :
  functionsBare element = true -> depth_kept (IDLBuilder.visitElement element).
Proof.
  induction element as [element IHm _] using Element_nested_ind.
  intros Hbare.
  assert (Hm : members_depth_kept IDLBuilder.visitElement element).
  { intros ms Hms. pose proof (functionsBare_members element ms Hbare Hms) as Hall.
    specialize (IHm ms Hms). rewrite Forall_forall in IHm, Hall.
    apply Forall_forall. intros entry Hin. now apply IHm, Hall. }
  rewrite functionsBare_unfold in Hbare. apply andb_prop in Hbare as [Hinsts _].
  intros this this' Hrange. rewrite IDL_visitElement_unfold.
  unfold ExportsWalker.visitElement.
  destruct (kind element); try discriminate;
    try (destruct (is_ element COMPILED); [| now intros [= <-]]);
    cbn [ExportsWalker.visitGlobal ExportsWalker.visitEnum
         ExportsWalker.visitNamespace ExportsWalker.visitFunction
         ExportsWalker.visitClass IDLBuilder.visitor].
  - apply IDL_visitGlobal_depth.
  - now apply IDL_visitEnum_depth.
  - revert Hrange. apply forValues_depth_kept.
    rewrite forallb_forall in Hinsts. apply Forall_forall.
    intros [name instance] Hin b b' Hb Hrun. cbn [snd] in *.
    specialize (Hinsts (name, instance) (proj1 (list_elem_of_In _ _) Hin)).
    cbn [snd] in Hinsts.
    destruct (is_ instance COMPILED); [| now injection Hrun as <-].
    cbn [negb orb] in Hinsts. apply Nat.eqb_eq in Hinsts.
    exact (IDL_visitFunction_bare_depth _ _ Hinsts _ _ Hb Hrun).
  - revert Hrange. apply forValues_depth_kept, Forall_forall.
    intros [name instance] _ b b' Hb Hrun. cbn [snd] in *.
    destruct (is_ instance COMPILED); [| now injection Hrun as <-].
    exact (IDL_visitClass_depth _ _ _ Hb Hrun).
  - now apply IDL_visitNamespace_depth.
Qed.

(** X5: on a graph in which no compiled instance of a function prototype
    has members, every visit of the WebIDL builder that returns leaves the
    indentation depth at the value it had on entry; classes with members
    and function instances that are not compiled do not matter. *)
Theorem X5_IDL_visit_restores_depth_without_function_members
    (element : Element) (this this' : Builder) :
  functionsBare element = true ->
  i32_range (indentLevel this) ->
  IDLBuilder.visitElement element this = Ok this' ->
  indentLevel this' = indentLevel this.
Proof.
  intros Hbare Hrange H. exact (IDL_visit_bare_depth element Hbare _ _ Hrange H).
Qed.

Lemma X5_IDL_visit_restores_depth_without_function_members_witness :
  indentLevel MoreSamples.IDL_after_Tools = indentLevel Samples.walking.
Proof.
  apply (X5_IDL_visit_restores_depth_without_function_members
           MoreSamples.Tools Samples.walking MoreSamples.IDL_after_Tools).
  - reflexivity.
  - vm_compute. split; [discriminate | reflexivity].
  - vm_compute. reflexivity.
Defined.

(** ** The output as a whole *)

Lemma forValues_ext (f g : Element -> Builder -> Result Builder) :
  (forall element this, f element this = g element this) ->
  forall m this, forValues f m this = forValues g m this.
Proof.
  intros Hext m. induction m as [|[name element] m IH]; intros this.
  - reflexivity.
  - cbn [forValues forEntries]. rewrite Hext.
    destruct (g element this); cbn [bind]; [apply IH | reflexivity].
Qed.

Lemma filter_none {A : Type} (f : A -> bool) (l : list A) :
  forallb (fun a => negb (f a)) l = true -> List.filter f l = [].
Proof.
  induction l as [|a l IH]; [reflexivity |].
  cbn [forallb List.filter]. intros [Ha Hl]%andb_prop.
  apply negb_true_iff in Ha. rewrite Ha. now apply IH.
Qed.

Lemma forValues_skipped (v : ExportsWalker.Visitor) (m : Map Element)
    (this : Builder) :
  forallb (fun entry => skipped entry.2) m = true ->
  forValues (ExportsWalker.visitElement v) m this = Ok this.
Proof.
  induction m as [|[name element] m IH]; intros Hall.
  - reflexivity.
  - cbn [forallb snd] in Hall. apply andb_prop in Hall as [Hskip Hrest].
    cbn [forValues forEntries].
    assert (Hhead : ExportsWalker.visitElement v element this = Ok this).
    { unfold skipped in Hskip. unfold ExportsWalker.visitElement.
      destruct (kind element); try discriminate Hskip;
        try (apply negb_true_iff in Hskip; now rewrite Hskip).
      - rewrite forValues_compiledOnly. unfold compiledOnly.
        now rewrite (filter_none _ _ Hskip).
      - rewrite forValues_compiledOnly. unfold compiledOnly.
        now rewrite (filter_none _ _ Hskip). }
    rewrite Hhead. cbn [bind]. now apply IH.
Qed.

(** X6: whatever the export graph, an output that [build] returns is the
    opening text of the builder, then the text that [walk] appended to it
    ([walk] run from the builder that holds the opening text, at depth
    one), then the closing line [}]: one top-level block, for the WebIDL
    builder as for the TypeScript builder. *)
Theorem X6_build_output_is_one_block (p : Program) (out : string) :
  (IDLBuilder.build_static p = Ok out ->
   exists this' body,
     IDLBuilder.walk (IDL_walk_entry p) = Ok this' /\
     join (sb (IDL_walk_entry p)) = "interface ASModule {" +:+ LF /\
     join (sb this') = join (sb (IDL_walk_entry p)) +:+ body /\
     out = ("interface ASModule {" +:+ LF) +:+ body +:+ "}" +:+ LF) /\
  (TSDBuilder.build_static p = Ok out ->
   exists this' body,
     TSDBuilder.walk (TSD_walk_entry p) = Ok this' /\
     join (sb (TSD_walk_entry p)) = TSD_prologue /\
     join (sb this') = join (sb (TSD_walk_entry p)) +:+ body /\
     out = TSD_prologue +:+ body +:+ "}" +:+ LF).
Proof.
  split; intros H.
  - rewrite IDL_build_static_unfold in H.
    destruct (forValues _ _ _) as [this|] eqn:Hwalk; cbn [bind] in H;
      [| discriminate H].
    injection H as <-. pose proof Hwalk as Happ.
    apply forValues_appending, appends_join in Happ as [body Hbody];
      [| apply Forall_forall; intros entry _; apply IDL_visit_appending].
    exists this, body. split; [exact Hwalk |].
    split; [reflexivity |]. split; [exact Hbody |].
    rewrite Hbody. now rewrite !append_assoc.
  - rewrite TSD_build_static_unfold in H.
    destruct (forValues _ _ _) as [this|] eqn:Hwalk; cbn [bind] in H;
      [| discriminate H].
    injection H as <-. pose proof Hwalk as Happ.
    apply forValues_appending, appends_join in Happ as [body Hbody];
      [| apply Forall_forall; intros entry _; apply TSD_visit_appending].
    exists this, body. split; [exact Hwalk |].
    split; [reflexivity |]. split; [exact Hbody |].
    rewrite Hbody. now rewrite !append_assoc.
Qed.

Lemma X6_build_output_is_one_block_witness :
  (exists this' body,
      IDLBuilder.walk (IDL_walk_entry Samples.ABC_program) = Ok this' /\
      join (sb (IDL_walk_entry Samples.ABC_program))
      = "interface ASModule {" +:+ LF /\
      join (sb this') = join (sb (IDL_walk_entry Samples.ABC_program)) +:+ body /\
      lines [ "interface ASModule {"; "  long A;"; "  const long B = 7;";
              "  long C;"; "}" ]
      = ("interface ASModule {" +:+ LF) +:+ body +:+ "}" +:+ LF) /\
  (exists this' body,
      TSDBuilder.walk (TSD_walk_entry Samples.ABC_program) = Ok this' /\
      join (sb (TSD_walk_entry Samples.ABC_program)) = TSD_prologue /\
      join (sb this') = join (sb (TSD_walk_entry Samples.ABC_program)) +:+ body /\
      TSD_prologue +:+ lines [ "  A: i32;"; "  const B: i32;"; "  C: i32;"; "}" ]
      = TSD_prologue +:+ body +:+ "}" +:+ LF).
Proof.
  split.
  - apply (proj1 (X6_build_output_is_one_block Samples.ABC_program _)).
    vm_compute. reflexivity.
  - apply (proj2 (X6_build_output_is_one_block Samples.ABC_program _)).
    vm_compute. reflexivity.
Defined.

(** X7: when the dispatcher passes over every module-level export (each is
    a global, enum or namespace without [COMPILED], or a prototype none of
    whose instances carries it; in particular when there is no export at
    all), the output is the empty module block: the opening text directly
    followed by the closing line. *)
Theorem X7_nothing_compiled_gives_empty_block (p : Program) :
  forallb (fun entry => skipped entry.2) (moduleLevelExports p) = true ->
  IDLBuilder.build_static p = Ok (lines [ "interface ASModule {"; "}" ]) /\
  TSDBuilder.build_static p = Ok (TSD_prologue +:+ "}" +:+ LF).
Proof.
  intros Hall. rewrite IDL_build_static_unfold, TSD_build_static_unfold.
  rewrite (forValues_ext _ _ IDL_visitElement_unfold).
  rewrite (forValues_ext _ _ TSD_visitElement_unfold).
  rewrite !forValues_skipped by exact Hall.
  split; reflexivity.
Qed.

Lemma X7_nothing_compiled_gives_empty_block_witness :
  IDLBuilder.build_static MoreSamples.idle_program =
    Ok (lines [ "interface ASModule {"; "}" ]) /\
  TSDBuilder.build_static MoreSamples.idle_program =
    Ok (TSD_prologue +:+ "}" +:+ LF).
Proof.
  apply (X7_nothing_compiled_gives_empty_block MoreSamples.idle_program).
  reflexivity.
Defined.

(** X8: one module-level export of a kind for which the dispatcher has no
    case ([ENUMVALUE], [FUNCTION], [CLASS] or [INTERFACE]) makes the whole
    build fail, in both builders and wherever the export stands among the
    others: no output is returned for the exports that could be
    rendered. *)
Theorem X8_undispatched_export_fails_the_build (p : Program) :
  Exists (fun entry => undispatched (kind entry.2) = true) (moduleLevelExports p) ->
  IDLBuilder.build_static p = AssertionFailed /\
  TSDBuilder.build_static p = AssertionFailed.
Proof.
  intros Hex. rewrite IDL_build_static_unfold, TSD_build_static_unfold.
  unfold forValues.
  rewrite !forEntries_fails; [split; reflexivity | |].
  - eapply Exists_impl; [exact Hex |]. intros [name element] Hkind s.
    cbn [fst snd] in *. rewrite TSD_visitElement_unfold.
    now apply visitElement_undispatched.
  - eapply Exists_impl; [exact Hex |]. intros [name element] Hkind s.
    cbn [fst snd] in *. rewrite IDL_visitElement_unfold.
    now apply visitElement_undispatched.
Qed.

Lemma X8_undispatched_export_fails_the_build_witness :
  IDLBuilder.build_static MoreSamples.stray_program = AssertionFailed /\
  TSDBuilder.build_static MoreSamples.stray_program = AssertionFailed.
Proof.
  apply (X8_undispatched_export_fails_the_build MoreSamples.stray_program).
  apply Exists_cons_tl, Exists_cons_hd. reflexivity.
Defined.

(** ** The declaration of a function *)

Lemma separated_concat (items : list string) :
  separated true items = String.concat ", " items.
Proof.
  induction items as [|item rest IH]; [reflexivity |].
  destruct rest as [|item' rest].
  - cbn [separated String.concat]. now rewrite append_nil_r.
  - change (String.concat ", " (item :: item' :: rest))
      with (item +:+ ", " +:+ String.concat ", " (item' :: rest)).
    rewrite <- IH. reflexivity.
Qed.

Lemma imap_shift {A B : Type} (f : nat -> A -> B) (i : nat) (l : list A) :
  imap ((fun j => f (i + j)%nat) ∘ S) l = imap (fun j => f (S i + j)%nat) l.
Proof.
  apply imap_ext. intros j x _. cbn. now rewrite Nat.add_succ_r.
Qed.

Lemma typeOk_IDL (this : Builder) (t : Type_) :
  typeOk t = true ->
  IDLBuilder.typeToString this t = Ok (spelled (IDLBuilder.typeToString this t)).
Proof.
  unfold typeOk, IDLBuilder.typeToString.
  destruct (type_kind t); intros H; try discriminate H; reflexivity.
Qed.

Lemma typeOk_TSD (this : Builder) (t : Type_) :
  typeOk t = true ->
  TSDBuilder.typeToString this t = Ok (spelled (TSDBuilder.typeToString this t)).
Proof.
  unfold typeOk, TSDBuilder.typeToString.
  destruct (type_kind t); intros H; try discriminate H; reflexivity.
Qed.

Lemma typeToString_IDL_program (this this' : Builder) (t : Type_) :
  program this' = program this ->
  IDLBuilder.typeToString this' t = IDLBuilder.typeToString this t.
Proof. unfold IDLBuilder.typeToString. now intros ->. Qed.

Lemma typeToString_TSD_program (this this' : Builder) (t : Type_) :
  program this' = program this ->
  TSDBuilder.typeToString this' t = TSDBuilder.typeToString this t.
Proof. unfold TSDBuilder.typeToString. now intros ->. Qed.

(** The parameter loop of the WebIDL builder, from index [i] on. *)
Lemma visitParameters_IDL_text (sg : Signature) (origin : Builder)
    (ps : list Type_) :
  forallb typeOk ps = true ->
  forall (i : nat) (this : Builder),
    program this = program origin ->
    exists this',
      IDLBuilder.visitParameters sg i ps this = Ok this' /\
      program this' = program this /\ seen this' = seen this /\
      indentLevel this' = indentLevel this /\
      join (sb this') =
        join (sb this)
        +:+ separated (Nat.eqb i 0)
              (imap (fun j parameter =>
                       spelled (IDLBuilder.typeToString origin parameter) +:+ " "
                       +:+ getParameterName sg (i + j)) ps).
Proof.
  induction ps as [|p ps IH]; intros Hok i this Hprogram.
  - exists this. cbn. now rewrite append_nil_r.
  - cbn [forallb] in Hok. apply andb_prop in Hok as [Hp Hps].
    cbn [IDLBuilder.visitParameters imap separated].
    rewrite (typeOk_IDL _ p Hp). cbn [bind].
    match goal with
    | |- context [IDLBuilder.visitParameters sg (S i) ps ?st] =>
        destruct (IH Hps (S i) st) as (this' & Hrun & Hprog & Hseen & Hlevel & Htext)
    end.
    { now destruct (Nat.eqb i 0). }
    exists this'. rewrite Hrun, Hprog, Hseen, Hlevel, Htext.
    repeat split; try (now destruct (Nat.eqb i 0)).
    autorewrite with text.
    rewrite (typeToString_IDL_program origin) by now destruct (Nat.eqb i 0).
    rewrite Nat.add_0_r.
    rewrite (imap_shift (fun k parameter =>
                           spelled (IDLBuilder.typeToString origin parameter)
                           +:+ " " +:+ getParameterName sg k) i).
    destruct (Nat.eqb i 0); now autorewrite with text.
Qed.

(** The parameter loop of the TypeScript builder, from index [i] on. *)
Lemma visitParameters_TSD_text (sg : Signature) (origin : Builder)
    (ps : list Type_) :
  forallb typeOk ps = true ->
  forall (i : nat) (this : Builder),
    program this = program origin ->
    exists this',
      TSDBuilder.visitParameters sg i ps this = Ok this' /\
      program this' = program this /\ seen this' = seen this /\
      indentLevel this' = indentLevel this /\
      join (sb this') =
        join (sb this)
        +:+ separated (Nat.eqb i 0)
              (imap (fun j parameter =>
                       getParameterName sg (i + j) +:+ ": "
                       +:+ spelled (TSDBuilder.typeToString origin parameter)) ps).
Proof.
  induction ps as [|p ps IH]; intros Hok i this Hprogram.
  - exists this. cbn. now rewrite append_nil_r.
  - cbn [forallb] in Hok. apply andb_prop in Hok as [Hp Hps].
    cbn [TSDBuilder.visitParameters imap separated].
    rewrite (typeOk_TSD _ p Hp). cbn [bind].
    match goal with
    | |- context [TSDBuilder.visitParameters sg (S i) ps ?st] =>
        destruct (IH Hps (S i) st) as (this' & Hrun & Hprog & Hseen & Hlevel & Htext)
    end.
    { now destruct (Nat.eqb i 0). }
    exists this'. rewrite Hrun, Hprog, Hseen, Hlevel, Htext.
    repeat split; try (now destruct (Nat.eqb i 0)).
    autorewrite with text.
    rewrite (typeToString_TSD_program origin) by now destruct (Nat.eqb i 0).
    rewrite Nat.add_0_r.
    rewrite (imap_shift (fun k parameter =>
                           getParameterName sg k +:+ ": "
                           +:+ spelled (TSDBuilder.typeToString origin parameter)) i).
    destruct (Nat.eqb i 0); now autorewrite with text.
Qed.

(** X9: the WebIDL builder declares a function that is not yet seen, has
    no members and whose signature uses only the fourteen spelled kinds by
    one line at the current depth, [<returnType> <name>(<type> <name>, ...);],
    the parameters in order and joined by a comma and a blank; the function
    is added to [seen] and the depth is left as it was. *)
Theorem X9_IDL_function_declaration (element : Element) (this : Builder) :
  seen_has element this = false ->
  signatureOk (signature element) = true ->
  memberCount element = 0%nat ->
  0 <= indentLevel this ->
  exists this',
    IDLBuilder.visitFunction IDLBuilder.visitElement element this = Ok this' /\
    join (sb this') =
      join (sb this) +:+ indentation (indentLevel this)
      +:+ IDL_function_line this element /\
    seen this' = {[ident element]} ∪ seen this /\
    indentLevel this' = indentLevel this.
Proof.
  intros Hseen [Hret Hps]%andb_prop Hnone _.
  unfold IDLBuilder.visitFunction. rewrite Hseen. cbv zeta.
  rewrite (typeOk_IDL _ _ Hret). cbn [bind].
  match goal with
  | |- context [IDLBuilder.visitParameters _ 0 _ ?st] =>
      destruct (visitParameters_IDL_text (signature element) this _ Hps 0 st)
        as (this1 & Hrun & _ & Hseen1 & Hlevel1 & Htext1); [reflexivity |]
  end.
  rewrite Hrun. cbn [bind].
  assert (Hdone : exists this',
             Ok (push (");" +:+ LF) this1) = Ok this' /\
             join (sb this') =
               join (sb this) +:+ indentation (indentLevel this)
               +:+ IDL_function_line this element /\
             seen this' = {[ident element]} ∪ seen this /\
             indentLevel this' = indentLevel this).
  { eexists. split; [reflexivity |]. split; [| split].
    - autorewrite with text. rewrite Htext1. autorewrite with text.
      rewrite (typeToString_IDL_program this) by reflexivity.
      unfold IDL_function_line, IDL_parameters.
      rewrite <- separated_concat. now autorewrite with text.
    - exact Hseen1.
    - exact Hlevel1. }
  unfold memberCount in Hnone.
  destruct (members element) as [[|entry ms]|]; try discriminate Hnone; exact Hdone.
Qed.

Lemma X9_IDL_function_declaration_witness :
  exists this',
    IDLBuilder.visitFunction IDLBuilder.visitElement MoreSamples.max_i32
      Samples.walking = Ok this' /\
    join (sb this') =
      join (sb Samples.walking) +:+ indentation 1
      +:+ "long max(long a, long b);" +:+ LF /\
    seen this' = {[21%nat]} ∪ seen Samples.walking /\
    indentLevel this' = 1.
Proof.
  apply (X9_IDL_function_declaration MoreSamples.max_i32 Samples.walking);
    try reflexivity.
  simpl. lia.
Defined.

(** X10: the TypeScript builder declares such a function by the line
    [function <name>(<name>: <type>, ...): <returnType>;] at the current
    depth, the parameters in order and joined by a comma and a blank, and
    writes nothing else for it. *)
Theorem X10_TSD_function_declaration (element : Element) (this : Builder) :
  seen_has element this = false ->
  signatureOk (signature element) = true ->
  memberCount element = 0%nat ->
  0 <= indentLevel this ->
  exists this',
    TSDBuilder.visitFunction TSDBuilder.visitElement element this = Ok this' /\
    join (sb this') =
      join (sb this) +:+ indentation (indentLevel this)
      +:+ TSD_function_line this element /\
    seen this' = {[ident element]} ∪ seen this /\
    indentLevel this' = indentLevel this.
Proof.
  intros Hseen [Hret Hps]%andb_prop Hnone _.
  unfold TSDBuilder.visitFunction. rewrite Hseen. cbv zeta.
  match goal with
  | |- context [TSDBuilder.visitParameters _ 0 _ ?st] =>
      destruct (visitParameters_TSD_text (signature element) this _ Hps 0 st)
        as (this1 & Hrun & Hprog1 & Hseen1 & Hlevel1 & Htext1); [reflexivity |]
  end.
  rewrite Hrun. cbn [bind].
  rewrite (typeOk_TSD _ _ Hret). cbn [bind].
  assert (Hnamespace : forall b,
             TSDBuilder.visitNamespace TSDBuilder.visitElement element b = Ok b).
  { intros b. unfold TSDBuilder.visitNamespace. unfold memberCount in Hnone.
    destruct (members element) as [[|entry ms]|]; try discriminate Hnone;
      reflexivity. }
  rewrite Hnamespace. eexists. split; [reflexivity |]. split; [| split].
  - autorewrite with text. rewrite Htext1. autorewrite with text.
    rewrite (typeToString_TSD_program this)
      by (cbn [program push]; rewrite Hprog1; reflexivity).
    unfold TSD_function_line, TSD_parameters.
    rewrite <- separated_concat. now autorewrite with text.
  - exact Hseen1.
  - exact Hlevel1.
Qed.

Lemma X10_TSD_function_declaration_witness :
  exists this',
    TSDBuilder.visitFunction TSDBuilder.visitElement MoreSamples.max_i32
      Samples.walking = Ok this' /\
    join (sb this') =
      join (sb Samples.walking) +:+ indentation 1
      +:+ "function max(a: i32, b: i32): i32;" +:+ LF /\
    seen this' = {[21%nat]} ∪ seen Samples.walking /\
    indentLevel this' = 1.
Proof.
  apply (X10_TSD_function_declaration MoreSamples.max_i32 Samples.walking);
    try reflexivity.
  simpl. lia.
Defined.

(** ** Graphs that are rendered without a failed assertion *)

Lemma forValues_returns (body : Element -> Builder -> Result Builder)
    (m : Map Element) :
  Forall (fun entry => forall this, returns (body entry.2 this)) m ->
  forall this, returns (forValues body m this).
Proof.
  intros Hall. induction Hall as [|[name element] m Hhead _ IH]; intros this.
  - now exists this.
  - cbn [forValues forEntries]. destruct (Hhead this) as [b Hb].
    cbn [snd] in Hb. rewrite Hb. cbn [bind]. apply IH.
Qed.

Lemma IDL_visitEnumValue_loop_returns (ms : Map Element) (this : Builder) :
  returns (forEntries IDLBuilder.visitEnumValue ms this).
Proof.
  revert this. induction ms as [|[name member] ms IH]; intros this.
  - now exists this.
  - cbn [forEntries]. unfold IDLBuilder.visitEnumValue at 1. cbv zeta.
    destruct (kind member); cbn [bind]; apply IH.
Qed.

Lemma IDL_visitGlobal_returns (element : Element) (this : Builder) :
  IDL_globalOk element = true -> returns (IDLBuilder.visitGlobal element this).
Proof.
  intros [Htype Hconst]%andb_prop. unfold IDLBuilder.visitGlobal.
  destruct (seen_has element this); [now eexists |]. cbv zeta.
  rewrite (typeOk_IDL _ _ Htype). cbn [bind].
  destruct (is_ element INLINED); cbn in Hconst.
  - destruct (constantValueKind element); try discriminate Hconst; now eexists.
  - now eexists.
Qed.

Lemma IDL_visitFunction_returns (ve : Element -> Builder -> Result Builder)
    (element : Element) (this : Builder) :
  signatureOk (signature element) = true -> members_return ve element ->
  returns (IDLBuilder.visitFunction ve element this).
Proof.
  intros [Hret Hps]%andb_prop Hm. unfold IDLBuilder.visitFunction.
  destruct (seen_has element this); [now eexists |]. cbv zeta.
  rewrite (typeOk_IDL _ _ Hret). cbn [bind].
  match goal with
  | |- context [IDLBuilder.visitParameters _ 0 _ ?st] =>
      destruct (visitParameters_IDL_text (signature element) st _ Hps 0 st
                  eq_refl) as (this1 & Hrun & _)
  end.
  rewrite Hrun. cbn [bind].
  destruct (members element) as [ms|] eqn:Hms; [| now eexists].
  destruct (Z.eqb (size ms) 0); [now eexists |].
  match goal with
  | |- context [forValues ve ms ?st] =>
      destruct (forValues_returns ve ms (Hm ms Hms) st) as [b Hb]
  end.
  rewrite Hb. now eexists.
Qed.

Lemma IDL_visitEnum_returns (ve : Element -> Builder -> Result Builder)
    (element : Element) (this : Builder) :
  (forall ms, members element = Some ms ->
     Forall (fun entry => isEnumValue entry = true \/
                          forall this, returns (ve entry.2 this)) ms) ->
  returns (IDLBuilder.visitEnum ve element this).
Proof.
  intros Hm. unfold IDLBuilder.visitEnum.
  destruct (seen_has element this); [now eexists |]. cbv zeta.
  destruct (members element) as [ms|] eqn:Hms; [| now eexists].
  match goal with
  | |- context [forEntries IDLBuilder.visitEnumValue ms ?st] =>
      destruct (IDL_visitEnumValue_loop_returns ms st) as [b Hb]
  end.
  rewrite Hb. cbn [bind].
  match goal with
  | |- context [forValues ?body ms b] =>
      destruct (forValues_returns body ms) with (this := b) as [b' Hb']
  end.
  - eapply Forall_impl; [exact (Hm ms eq_refl) |].
    intros [name member] Hentry s. unfold isEnumValue in Hentry. cbn [snd] in *.
    destruct (kind member); try (now eexists);
      destruct Hentry as [Hvalue | Hret]; try discriminate Hvalue; apply Hret.
  - rewrite Hb'. now eexists.
Qed.

Lemma IDL_visitNamespace_returns (ve : Element -> Builder -> Result Builder)
    (element : Element) (this : Builder) :
  members_return ve element ->
  returns (IDLBuilder.visitNamespace ve element this).
Proof.
  intros Hm. unfold IDLBuilder.visitNamespace.
  destruct (seen_has element this); [now eexists |]. cbv zeta.
  destruct (members element) as [ms|] eqn:Hms; [| now eexists].
  match goal with
  | |- context [forValues ve ms ?st] =>
      destruct (forValues_returns ve ms (Hm ms Hms) st) as [b Hb]
  end.
  rewrite Hb. now eexists.
Qed.

Lemma IDL_visitClass_returns (element : Element) (this : Builder) :
  returns (IDLBuilder.visitClass element this).
Proof.
  unfold IDLBuilder.visitClass. destruct (seen_has element this); now eexists.
Qed.

Lemma IDL_renderable_unfold (element : Element) :
  IDL_renderable element =
  match kind element with
  | GLOBAL => negb (is_ element COMPILED) || IDL_globalOk element
  | ENUM =>
      negb (is_ element COMPILED)
      || match members element with
         | Some ms =>
             forallb (fun entry => isEnumValue entry || IDL_renderable entry.2) ms
         | None => true
         end
  | FUNCTION_PROTOTYPE =>
      forallb (fun entry =>
                 negb (is_ entry.2 COMPILED)
                 || (signatureOk (signature entry.2)
                     && membersAll IDL_renderable entry.2))
              (instances element)
  | CLASS_PROTOTYPE => true
  | NAMESPACE =>
      negb (is_ element COMPILED) || membersAll IDL_renderable element
  | _ => false
  end.
Proof. destruct element; reflexivity. Qed.

(** From the induction hypothesis on the members to [members_return]. *)
Lemma membersAll_return (f : Element -> bool)
    (ve : Element -> Builder -> Result Builder) (element : Element) :
  (forall ms, members element = Some ms ->
     Forall (fun entry => f entry.2 = true -> forall this, returns (ve entry.2 this))
            ms) ->
  membersAll f element = true -> members_return ve element.
Proof.
  intros IH Hall ms Hms. unfold membersAll in Hall. rewrite Hms in Hall.
  rewrite forallb_forall in Hall. apply Forall_forall. intros entry Hin.
  apply (proj1 (Forall_forall _ _) (IH ms Hms) entry Hin).
  apply Hall. now apply list_elem_of_In.
Qed.

Lemma IDL_renderable_returns (element : Element) :
  (IDL_renderable element = true ->
   forall this, returns (IDLBuilder.visitElement element this)) /\
  (signatureOk (signature element) = true ->
   membersAll IDL_renderable element = true ->
   forall this,
     returns (IDLBuilder.visitFunction IDLBuilder.visitElement element this)).
Proof.
  induction element as [element IHm IHi] using Element_nested_ind.
  assert (IHm' : forall ms, members element = Some ms ->
            Forall (fun entry => IDL_renderable entry.2 = true ->
                      forall this, returns (IDLBuilder.visitElement entry.2 this)) ms).
  { intros ms Hms. eapply Forall_impl; [exact (IHm ms Hms) |]. now intros ? [? _]. }
  split.
  - rewrite IDL_renderable_unfold. intros Hok this.
    rewrite IDL_visitElement_unfold. unfold ExportsWalker.visitElement.
    destruct (kind element); try discriminate Hok;
      cbn [ExportsWalker.visitGlobal ExportsWalker.visitEnum
           ExportsWalker.visitNamespace ExportsWalker.visitFunction
           ExportsWalker.visitClass IDLBuilder.visitor].
    + destruct (is_ element COMPILED); [| now eexists].
      now apply IDL_visitGlobal_returns.
    + destruct (is_ element COMPILED); [| now eexists]. cbn in Hok.
      apply IDL_visitEnum_returns. intros ms Hms. rewrite Hms in Hok.
      rewrite forallb_forall in Hok. apply Forall_forall. intros entry Hin.
      destruct (orb_prop _ _ (Hok entry (proj1 (list_elem_of_In _ _) Hin)))
        as [Hvalue | Hrender]; [now left | right].
      now apply (proj1 (Forall_forall _ _) (IHm' ms Hms) entry Hin).
    + apply forValues_returns. rewrite forallb_forall in Hok.
      apply Forall_forall. intros entry Hin s.
      specialize (Hok entry (proj1 (list_elem_of_In _ _) Hin)).
      destruct (is_ entry.2 COMPILED); [| now eexists]. cbn in Hok.
      apply andb_prop in Hok as [Hsig Hmembers].
      now apply (proj1 (Forall_forall _ _) IHi entry Hin).
    + apply forValues_returns, Forall_forall. intros entry _ s.
      destruct (is_ entry.2 COMPILED); [| now eexists].
      apply IDL_visitClass_returns.
    + destruct (is_ element COMPILED); [| now eexists]. cbn in Hok.
      apply IDL_visitNamespace_returns.
      now apply (membersAll_return IDL_renderable).
  - intros Hsig Hmembers this. apply IDL_visitFunction_returns; [exact Hsig |].
    now apply (membersAll_return IDL_renderable).
Qed.

(** X11: the WebIDL builder is total on validated graphs.  When every
    module-level export is renderable (each dispatched element has a kind
    with a case, each compiled global a spelled type and, if [INLINED], an
    integer or float constant, each compiled function instance a spelled
    signature, and so on below namespaces, enums and functions), [build]
    returns an output: no assertion fails. *)
Theorem X11_IDL_build_returns_on_renderable_graph (p : Program) :
  forallb (fun entry => IDL_renderable entry.2) (moduleLevelExports p) = true ->
  returns (IDLBuilder.build_static p).
Proof.
  intros Hall. rewrite IDL_build_static_unfold.
  destruct (forValues_returns IDLBuilder.visitElement (moduleLevelExports p))
    with (this := IDL_walk_entry p) as [this Hwalk].
  - rewrite forallb_forall in Hall. apply Forall_forall. intros entry Hin.
    apply IDL_renderable_returns, Hall. now apply list_elem_of_In.
  - rewrite Hwalk. now eexists.
Qed.

Lemma X11_IDL_build_returns_on_renderable_graph_witness :
  returns (IDLBuilder.build_static
             (Samples.program_of [("Outer", MoreSamples.Outer);
                                  ("max", MoreSamples.max_i32_prototype)])).
Proof.
  apply X11_IDL_build_returns_on_renderable_graph. reflexivity.
Defined.

Lemma TSD_visitEnumValue_loop_returns (ms : Map Element) (state : Builder * Z) :
  returns (forEntries TSDBuilder.visitEnumValue ms state).
Proof.
  revert state. induction ms as [|[name member] ms IH]; intros [this n].
  - now eexists.
  - cbn [forEntries]. unfold TSDBuilder.visitEnumValue at 1. cbv zeta.
    destruct (kind member); cbn [bind]; apply IH.
Qed.

(** When all members are values, [numMembers] is zero after the loop. *)
Lemma TSD_visitEnumValue_loop_all_values (ms : Map Element) (this : Builder) :
  forallb isEnumValue ms = true ->
  exists this', forEntries TSDBuilder.visitEnumValue ms (this, size ms) = Ok (this', 0).
Proof.
  intros Hall. destruct ms as [|[name member] ms]; [now exists this |].
  cbn [forallb] in Hall. apply andb_prop in Hall as [Hhead Hrest].
  cbn [forEntries]. unfold TSDBuilder.visitEnumValue at 1. cbv zeta.
  unfold isEnumValue in Hhead. cbn [snd] in Hhead.
  destruct (kind member); try discriminate Hhead. cbn [bind].
  replace (i32_decr (size ((name, member) :: ms)))
    with (i32_wrap (Z.of_nat (length ms)))
    by (unfold i32_decr, size; cbn [length]; f_equal; lia).
  match goal with
  | |- context [forEntries _ ms (?st, _)] =>
      destruct (TSD_visitEnumValue_loop ms st (Z.of_nat (length ms)))
        as [this' Hloop]
  end.
  exists this'. rewrite Hloop. do 2 f_equal.
  rewrite (List.forallb_filter_id _ _ Hrest).
  now rewrite Z.sub_diag.
Qed.

Lemma TSD_visitNamespace_returns (ve : Element -> Builder -> Result Builder)
    (element : Element) (this : Builder) :
  members_return ve element ->
  returns (TSDBuilder.visitNamespace ve element this).
Proof.
  intros Hm. unfold TSDBuilder.visitNamespace.
  destruct (members element) as [ms|] eqn:Hms; [| now eexists].
  destruct (Z.eqb (size ms) 0); [now eexists |]. cbv zeta.
  match goal with
  | |- context [forValues ve ms ?st] =>
      destruct (forValues_returns ve ms (Hm ms Hms) st) as [b Hb]
  end.
  rewrite Hb. now eexists.
Qed.

Lemma TSD_visitGlobal_returns (ve : Element -> Builder -> Result Builder)
    (element : Element) (this : Builder) :
  typeOk (type element) = true -> members_return ve element ->
  returns (TSDBuilder.visitGlobal ve element this).
Proof.
  intros Htype Hm. unfold TSDBuilder.visitGlobal.
  destruct (seen_has element this); [now eexists |]. cbv zeta.
  rewrite (typeOk_TSD _ _ Htype). cbn [bind].
  now apply TSD_visitNamespace_returns.
Qed.

Lemma TSD_visitFunction_returns (ve : Element -> Builder -> Result Builder)
    (element : Element) (this : Builder) :
  signatureOk (signature element) = true -> members_return ve element ->
  returns (TSDBuilder.visitFunction ve element this).
Proof.
  intros [Hret Hps]%andb_prop Hm. unfold TSDBuilder.visitFunction.
  destruct (seen_has element this); [now eexists |]. cbv zeta.
  match goal with
  | |- context [TSDBuilder.visitParameters _ 0 _ ?st] =>
      destruct (visitParameters_TSD_text (signature element) st _ Hps 0 st
                  eq_refl) as (this1 & Hrun & _)
  end.
  rewrite Hrun. cbn [bind]. rewrite (typeOk_TSD _ _ Hret). cbn [bind].
  now apply TSD_visitNamespace_returns.
Qed.

Lemma TSD_visitClass_returns (element : Element) (this : Builder) :
  returns (TSDBuilder.visitClass element this).
Proof.
  unfold TSDBuilder.visitClass. destruct (seen_has element this); now eexists.
Qed.

Lemma TSD_visitEnum_returns (ve : Element -> Builder -> Result Builder)
    (element : Element) (this : Builder) :
  membersAll (fun member => match kind member with ENUMVALUE => true | _ => false end)
    element = true \/ members_return ve element ->
  returns (TSDBuilder.visitEnum ve element this).
Proof.
  intros Hcases. unfold TSDBuilder.visitEnum.
  destruct (seen_has element this); [now eexists |]. cbv zeta.
  destruct (members element) as [ms|] eqn:Hms; [| now eexists].
  destruct Hcases as [Hvalues | Hm].
  - unfold membersAll in Hvalues. rewrite Hms in Hvalues.
    match goal with
    | |- context [forEntries _ ms (?st, _)] =>
        destruct (TSD_visitEnumValue_loop_all_values ms st Hvalues) as [b Hb]
    end.
    rewrite Hb. now eexists.
  - match goal with
    | |- context [forEntries _ ms ?st] =>
        destruct (TSD_visitEnumValue_loop_returns ms st) as [[b n] Hb]
    end.
    rewrite Hb. cbn [bind]. destruct (Z.eqb n 0); [now eexists |].
    destruct (TSD_visitNamespace_returns ve element b Hm) as [b' Hb'].
    rewrite Hb'. now eexists.
Qed.

Lemma TSD_renderable_unfold (element : Element) :
  TSD_renderable element =
  match kind element with
  | GLOBAL =>
      negb (is_ element COMPILED)
      || (typeOk (type element) && membersAll TSD_renderable element)
  | ENUM =>
      negb (is_ element COMPILED)
      || membersAll (fun member =>
                       match kind member with ENUMVALUE => true | _ => false end)
           element
      || membersAll TSD_renderable element
  | FUNCTION_PROTOTYPE =>
      forallb (fun entry =>
                 negb (is_ entry.2 COMPILED)
                 || (signatureOk (signature entry.2)
                     && membersAll TSD_renderable entry.2))
              (instances element)
  | CLASS_PROTOTYPE => true
  | NAMESPACE =>
      negb (is_ element COMPILED) || membersAll TSD_renderable element
  | _ => false
  end.
Proof. destruct element; reflexivity. Qed.

Lemma TSD_renderable_returns (element : Element) :
  (TSD_renderable element = true ->
   forall this, returns (TSDBuilder.visitElement element this)) /\
  (signatureOk (signature element) = true ->
   membersAll TSD_renderable element = true ->
   forall this,
     returns (TSDBuilder.visitFunction TSDBuilder.visitElement element this)).
Proof.
  induction element as [element IHm IHi] using Element_nested_ind.
  assert (IHm' : forall ms, members element = Some ms ->
            Forall (fun entry => TSD_renderable entry.2 = true ->
                      forall this, returns (TSDBuilder.visitElement entry.2 this)) ms).
  { intros ms Hms. eapply Forall_impl; [exact (IHm ms Hms) |]. now intros ? [? _]. }
  pose proof (membersAll_return TSD_renderable TSDBuilder.visitElement element IHm')
    as Hreturn.
  split.
  - rewrite TSD_renderable_unfold. intros Hok this.
    rewrite TSD_visitElement_unfold. unfold ExportsWalker.visitElement.
    destruct (kind element); try discriminate Hok;
      cbn [ExportsWalker.visitGlobal ExportsWalker.visitEnum
           ExportsWalker.visitNamespace ExportsWalker.visitFunction
           ExportsWalker.visitClass TSDBuilder.visitor].
    + destruct (is_ element COMPILED); [| now eexists]. cbn in Hok.
      apply andb_prop in Hok as [Htype Hmembers].
      apply TSD_visitGlobal_returns; [exact Htype | now apply Hreturn].
    + destruct (is_ element COMPILED); [| now eexists]. cbn in Hok.
      apply TSD_visitEnum_returns.
      apply orb_prop in Hok as [Hvalues | Hmembers];
        [now left | right; now apply Hreturn].
    + apply forValues_returns. rewrite forallb_forall in Hok.
      apply Forall_forall. intros entry Hin s.
      specialize (Hok entry (proj1 (list_elem_of_In _ _) Hin)).
      destruct (is_ entry.2 COMPILED); [| now eexists]. cbn in Hok.
      apply andb_prop in Hok as [Hsig Hmembers].
      now apply (proj1 (Forall_forall _ _) IHi entry Hin).
    + apply forValues_returns, Forall_forall. intros entry _ s.
      destruct (is_ entry.2 COMPILED); [| now eexists].
      apply TSD_visitClass_returns.
    + destruct (is_ element COMPILED); [| now eexists]. cbn in Hok.
      apply TSD_visitNamespace_returns. now apply Hreturn.
  - intros Hsig Hmembers this. apply TSD_visitFunction_returns; [exact Hsig |].
    now apply Hreturn.
Qed.

(** X12: the TypeScript builder is total on validated graphs.  When every
    module-level export is renderable for it (as for the WebIDL builder,
    except that the constant of a global is not read, the members of a
    compiled global are dispatched too, and the members of a compiled enum
    are either all values or all renderable), [build] returns an output. *)
Theorem X12_TSD_build_returns_on_renderable_graph (p : Program) :
  forallb (fun entry => TSD_renderable entry.2) (moduleLevelExports p) = true ->
  returns (TSDBuilder.build_static p).
Proof.
  intros Hall. rewrite TSD_build_static_unfold.
  destruct (forValues_returns TSDBuilder.visitElement (moduleLevelExports p))
    with (this := TSD_walk_entry p) as [this Hwalk].
  - rewrite forallb_forall in Hall. apply Forall_forall. intros entry Hin.
    apply TSD_renderable_returns, Hall. now apply list_elem_of_In.
  - rewrite Hwalk. now eexists.
Qed.

Lemma X12_TSD_build_returns_on_renderable_graph_witness :
  returns (TSDBuilder.build_static
             (Samples.program_of [("Outer", MoreSamples.Outer);
                                  ("max", MoreSamples.max_i32_prototype)])).
Proof.
  apply X12_TSD_build_returns_on_renderable_graph. reflexivity.
Defined.

(** ** When the visit of a global fails *)

(** X13: [IDLBuilder.visitGlobal] fails exactly on a global that is not
    yet seen and whose type is outside the spelled kinds or which carries
    [INLINED] without an integer or float constant; [TSDBuilder.visitGlobal],
    on a global without members, fails exactly on one that is not yet seen
    and whose type is outside the spelled kinds: it never reads the
    constant. *)
Theorem X13_visitGlobal_fails_iff (element : Element) (this : Builder) :
  (IDLBuilder.visitGlobal element this = AssertionFailed <->
   seen_has element this = false /\ IDL_globalOk element = false) /\
  (memberCount element = 0%nat ->
   (TSDBuilder.visitGlobal TSDBuilder.visitElement element this = AssertionFailed <->
    seen_has element this = false /\ typeOk (type element) = false)).
Proof.
  split.
  - unfold IDLBuilder.visitGlobal, IDL_globalOk, typeOk, IDLBuilder.typeToString.
    destruct (seen_has element this), (type_kind (type element)),
      (is_ element INLINED), (constantValueKind element);
      cbn;
      (split;
       [ intros H; first [discriminate H | split; reflexivity]
       | intros [H1 H2];
         first [discriminate H1 | discriminate H2 | reflexivity] ]).
  - intros Hnone.
    assert (Hnamespace : forall b,
               TSDBuilder.visitNamespace TSDBuilder.visitElement element b = Ok b).
    { intros b. unfold TSDBuilder.visitNamespace. unfold memberCount in Hnone.
      destruct (members element) as [[|entry ms]|]; try discriminate Hnone;
        reflexivity. }
    unfold TSDBuilder.visitGlobal, typeOk, TSDBuilder.typeToString.
    destruct (seen_has element this), (type_kind (type element));
      cbv zeta; cbn [bind]; rewrite ?Hnamespace;
      (split;
       [ intros H; first [discriminate H | split; reflexivity]
       | intros [H1 H2];
         first [discriminate H1 | discriminate H2 | reflexivity] ]).
Qed.

Lemma X13_visitGlobal_fails_iff_witness :
  (IDLBuilder.visitGlobal MoreSamples.unfolded_const Samples.walking
     = AssertionFailed <->
   seen_has MoreSamples.unfolded_const Samples.walking = false /\
   IDL_globalOk MoreSamples.unfolded_const = false) /\
  (TSDBuilder.visitGlobal TSDBuilder.visitElement MoreSamples.unfolded_const
     Samples.walking = AssertionFailed <->
   seen_has MoreSamples.unfolded_const Samples.walking = false /\
   typeOk (type MoreSamples.unfolded_const) = false).
Proof.
  destruct (X13_visitGlobal_fails_iff MoreSamples.unfolded_const Samples.walking)
    as [HIDL HTSD].
  split; [exact HIDL | apply HTSD; reflexivity].
Defined.

(** ** The two loops of [IDLBuilder.visitEnum] *)


Lemma IDL_enum_members_others (ve : Element -> Builder -> Result Builder)
    (ms : Map Element) (this : Builder) :
  forValues (fun member this =>
               match kind member with
               | ENUMVALUE => Ok this
               | _ => ve member this
               end) ms this =
  forValues (fun member this =>
               match kind member with
               | ENUMVALUE => Ok this
               | _ => ve member this
               end)
    (List.filter (fun entry => negb (isEnumValue entry)) ms) this.
Proof.
  revert this. induction ms as [|[name member] ms IH]; intros this;
    [reflexivity |].
  cbn [List.filter]. unfold isEnumValue at 1. cbn [snd].
  destruct (kind member) eqn:Hkind; cbn [negb forValues forEntries];
    rewrite Hkind; try (destruct (ve member this); cbn [bind];
                        [apply IH | reflexivity]).
  cbn [bind]. apply IH.
Qed.



(** ** An enum all of whose members are values *)

Lemma filter_others_nil (ms : Map Element) :
  forallb isEnumValue ms = true ->
  List.filter (fun entry => negb (isEnumValue entry)) ms = [].
Proof.
  induction ms as [|entry ms IH]; [reflexivity |].
  cbn [forallb List.filter]. intros [Hhead Hrest]%andb_prop.
  rewrite Hhead. cbn [negb]. now apply IH.
Qed.

Lemma IDL_visitEnumValue_loop_text (ms : Map Element) :
  forallb isEnumValue ms = true ->
  forall this,
    exists this',
      forEntries IDLBuilder.visitEnumValue ms this = Ok this' /\
      indentLevel this' = indentLevel this /\
      join (sb this') =
        join (sb this) +:+ IDL_enumValue_lines (indentLevel this) ms.
Proof.
  unfold IDL_enumValue_lines.
  induction ms as [|[name member] ms IH]; intros Hall this.
  - exists this. cbn. now rewrite append_nil_r.
  - cbn [forallb] in Hall. apply andb_prop in Hall as [Hhead Hrest].
    unfold isEnumValue in Hhead. cbn [snd] in Hhead.
    cbn [forEntries map]. unfold IDLBuilder.visitEnumValue at 1.
    destruct (kind member); try discriminate Hhead. cbv zeta. cbn [bind].
    match goal with
    | |- context [forEntries _ ms ?st] =>
        destruct (IH Hrest st) as (this' & Hrun & Hlevel & Htext)
    end.
    exists this'. rewrite Hrun, Hlevel, Htext, join_cons.
    unfold IDL_enumValue_line. cbn [fst snd].
    destruct (is_ member INLINED);
      (split; [reflexivity | split; [reflexivity | now autorewrite with text]]).
Qed.

Lemma TSD_visitEnumValue_loop_text (ms : Map Element) :
  forallb isEnumValue ms = true ->
  forall this n,
    exists this' n',
      forEntries TSDBuilder.visitEnumValue ms (this, n) = Ok (this', n') /\
      indentLevel this' = indentLevel this /\
      join (sb this') =
        join (sb this) +:+ TSD_enumValue_lines (indentLevel this) ms.
Proof.
  unfold TSD_enumValue_lines.
  induction ms as [|[name member] ms IH]; intros Hall this n.
  - exists this, n. cbn. now rewrite append_nil_r.
  - cbn [forallb] in Hall. apply andb_prop in Hall as [Hhead Hrest].
    unfold isEnumValue in Hhead. cbn [snd] in Hhead.
    cbn [forEntries map]. unfold TSDBuilder.visitEnumValue at 1.
    destruct (kind member); try discriminate Hhead. cbv zeta. cbn [bind].
    match goal with
    | |- context [forEntries _ ms (?st, ?k)] =>
        destruct (IH Hrest st k) as (this' & n' & Hrun & Hlevel & Htext)
    end.
    exists this', n'. rewrite Hrun, Hlevel, Htext, join_cons.
    unfold TSD_enumValue_line. cbn [fst snd].
    destruct (is_ member INLINED);
      (split; [reflexivity | split; [reflexivity | now autorewrite with text]]).
Qed.

(** X15: the WebIDL builder renders an enum that is not yet seen and all
    of whose members are values as the block [interface <name> {], one line
    per value in the order of the map, one level deeper, [const unsigned
    long <name> = <literal>;] when the value is [INLINED] and [readonly
    unsigned long <name>;] otherwise, and [}] at the depth of the opening
    line. *)
Theorem X15_IDL_enum_of_values (ve : Element -> Builder -> Result Builder)
    (element : Element) (ms : Map Element) (this : Builder) :
  seen_has element this = false ->
  members element = Some ms ->
  forallb isEnumValue ms = true ->
  0 <= indentLevel this < 2 ^ 31 - 1 ->
  exists this',
    IDLBuilder.visitEnum ve element this = Ok this' /\
    join (sb this') =
      join (sb this)
      +:+ indentation (indentLevel this) +:+ "interface " +:+ simpleName element
      +:+ " {" +:+ LF
      +:+ IDL_enumValue_lines (indentLevel this + 1) ms
      +:+ indentation (indentLevel this) +:+ "}" +:+ LF.
Proof.
  intros Hseen Hms Hall Hrange.
  assert (Hi32 : i32_range (indentLevel this)) by (unfold i32_range; lia).
  assert (Hincr : i32_incr (indentLevel this) = indentLevel this + 1)
    by (apply i32_wrap_range; unfold i32_range; lia).
  unfold IDLBuilder.visitEnum. rewrite Hseen, Hms. cbv zeta.
  match goal with
  | |- context [forEntries IDLBuilder.visitEnumValue ms ?st] =>
      destruct (IDL_visitEnumValue_loop_text ms Hall st)
        as (this1 & Hrun & Hlevel & Htext)
  end.
  rewrite Hrun. cbn [bind].
  rewrite (IDL_enum_members_others ve ms this1).
  rewrite (filter_others_nil ms Hall). cbn [forValues forEntries bind].
  eexists. split; [reflexivity |].
  autorewrite with text in Hlevel, Htext |- *.
  rewrite Htext, Hlevel. rewrite i32_decr_incr by exact Hi32.
  rewrite Hincr. now autorewrite with text.
Qed.

Lemma X15_IDL_enum_of_values_witness :
  exists this',
    IDLBuilder.visitEnum IDLBuilder.visitElement MoreSamples.Color2
      Samples.walking = Ok this' /\
    join (sb this') =
      join (sb Samples.walking)
      +:+ lines [ "  interface Color {";
                  "    const unsigned long RED = 0;";
                  "    readonly unsigned long GREEN;";
                  "  }" ].
Proof.
  destruct (X15_IDL_enum_of_values IDLBuilder.visitElement MoreSamples.Color2
              _ Samples.walking eq_refl eq_refl eq_refl
              ltac:(simpl; lia)) as (this' & Hrun & Htext).
  exists this'. split; [exact Hrun | exact Htext].
Defined.

(** X16: the TypeScript builder renders such an enum as the block
    [enum <name> {], one line per value in the order of the map, one level
    deeper, [<name> = <literal>,] when the value is [INLINED] and [<name>,]
    otherwise, and [}] at the depth of the opening line; no nested
    namespace is written. *)
Theorem X16_TSD_enum_of_values (ve : Element -> Builder -> Result Builder)
    (element : Element) (ms : Map Element) (this : Builder) :
  seen_has element this = false ->
  members element = Some ms ->
  forallb isEnumValue ms = true ->
  0 <= indentLevel this < 2 ^ 31 - 1 ->
  exists this',
    TSDBuilder.visitEnum ve element this = Ok this' /\
    join (sb this') =
      join (sb this)
      +:+ indentation (indentLevel this) +:+ "enum " +:+ simpleName element
      +:+ " {" +:+ LF
      +:+ TSD_enumValue_lines (indentLevel this + 1) ms
      +:+ indentation (indentLevel this) +:+ "}" +:+ LF.
Proof.
  intros Hseen Hms Hall Hrange.
  assert (Hi32 : i32_range (indentLevel this)) by (unfold i32_range; lia).
  assert (Hincr : i32_incr (indentLevel this) = indentLevel this + 1)
    by (apply i32_wrap_range; unfold i32_range; lia).
  unfold TSDBuilder.visitEnum. rewrite Hseen, Hms. cbv zeta.
  match goal with
  | |- context [forEntries TSDBuilder.visitEnumValue ms (?st, _)] =>
      destruct (TSD_visitEnumValue_loop_all_values ms st Hall) as [this1 Hrun];
      destruct (TSD_visitEnumValue_loop_text ms Hall st (size ms))
        as (this2 & n & Hrun2 & Hlevel & Htext)
  end.
  rewrite Hrun in Hrun2. injection Hrun2 as <- _.
  rewrite Hrun. cbn [bind Z.eqb].
  eexists. split; [reflexivity |].
  autorewrite with text in Hlevel, Htext |- *.
  rewrite Htext, Hlevel. rewrite i32_decr_incr by exact Hi32.
  rewrite Hincr. now autorewrite with text.
Qed.

Lemma X16_TSD_enum_of_values_witness :
  exists this',
    TSDBuilder.visitEnum TSDBuilder.visitElement MoreSamples.Color2
      Samples.walking = Ok this' /\
    join (sb this') =
      join (sb Samples.walking)
      +:+ lines [ "  enum Color {"; "    RED = 0,"; "    GREEN,"; "  }" ].
Proof.
  destruct (X16_TSD_enum_of_values TSDBuilder.visitElement MoreSamples.Color2
              _ Samples.walking eq_refl eq_refl eq_refl
              ltac:(simpl; lia)) as (this' & Hrun & Htext).
  exists this'. split; [exact Hrun | exact Htext].
Defined.

(** ** The two passes of [IDLBuilder.visitEnum], as text *)



(** ** Classes, and the block of a namespace *)

(** X17: a class or interface instance that is not yet seen is rendered
    with an empty body.  The WebIDL builder writes [interface <name> {] and
    [}]; the TypeScript builder writes [class <name>], preceded by
    [abstract] when the class carries [ABSTRACT] and followed by
    [extends <base>] when it has a base, or [interface <name>] (never
    [abstract]) when the kind is [INTERFACE], then [{] and [}].  Both lines
    stand at the current depth. *)
Theorem X17_class_is_rendered_with_empty_body (element : Element)
    (this : Builder) :
  seen_has element this = false ->
  0 <= indentLevel this < 2 ^ 31 ->
  (exists this',
      IDLBuilder.visitClass element this = Ok this' /\
      join (sb this') =
        join (sb this)
        +:+ indentation (indentLevel this) +:+ "interface " +:+ simpleName element
        +:+ " {" +:+ LF
        +:+ indentation (indentLevel this) +:+ "}" +:+ LF) /\
  (exists this',
      TSDBuilder.visitClass element this = Ok this' /\
      join (sb this') =
        join (sb this)
        +:+ indentation (indentLevel this) +:+ TSD_class_header element
        +:+ " {" +:+ LF
        +:+ indentation (indentLevel this) +:+ "}" +:+ LF).
Proof.
  intros Hseen Hrange.
  assert (Hi32 : i32_range (indentLevel this)) by (unfold i32_range; lia).
  unfold IDLBuilder.visitClass, TSDBuilder.visitClass, TSD_class_header.
  rewrite Hseen. cbv zeta. split; (eexists; split; [reflexivity |]).
  - autorewrite with text. now rewrite i32_decr_incr.
  - destruct (base element), (kind element), (is_ element ABSTRACT);
      autorewrite with text; now rewrite i32_decr_incr.
Qed.

Lemma X17_class_is_rendered_with_empty_body_witness :
  (exists this',
      IDLBuilder.visitClass MoreSamples.Shape Samples.walking = Ok this' /\
      join (sb this') =
        join (sb Samples.walking)
        +:+ lines [ "  interface Shape {"; "  }" ]) /\
  (exists this',
      TSDBuilder.visitClass MoreSamples.Shape Samples.walking = Ok this' /\
      join (sb this') =
        join (sb Samples.walking)
        +:+ lines [ "  abstract class Shape extends Base {"; "  }" ]).
Proof.
  apply (X17_class_is_rendered_with_empty_body MoreSamples.Shape Samples.walking).
  - reflexivity.
  - simpl. lia.
Defined.

(** X18: the block that the TypeScript builder writes for the members of
    an element ([visitNamespace], used for namespaces and for the members
    of globals, enums and functions) is well bracketed: when the element
    has at least one member and the call returns, the output gains the line
    [namespace <name> {] at the depth of entry, then what the visits of the
    members wrote, which start one level deeper, then [}] at the depth of
    entry again, and the depth is left as it was. *)
Theorem X18_TSD_namespace_block_is_well_bracketed (element : Element)
    (ms : Map Element) (this this' : Builder) :
  members element = Some ms -> ms <> [] ->
  0 <= indentLevel this < 2 ^ 31 - 1 ->
  TSDBuilder.visitNamespace TSDBuilder.visitElement element this = Ok this' ->
  indentLevel this' = indentLevel this /\
  exists this1 this2 body,
    indentLevel this1 = indentLevel this + 1 /\
    forValues TSDBuilder.visitElement ms this1 = Ok this2 /\
    join (sb this2) = join (sb this1) +:+ body /\
    join (sb this') =
      join (sb this)
      +:+ indentation (indentLevel this) +:+ "namespace " +:+ simpleName element
      +:+ " {" +:+ LF
      +:+ body
      +:+ indentation (indentLevel this) +:+ "}" +:+ LF.
Proof.
  intros Hms Hsome Hrange H.
  assert (Hi32 : i32_range (indentLevel this)) by (unfold i32_range; lia).
  assert (Hincr : i32_incr (indentLevel this) = indentLevel this + 1)
    by (apply i32_wrap_range; unfold i32_range; lia).
  unfold TSDBuilder.visitNamespace in H. rewrite Hms in H.
  destruct (Z.eqb_spec (size ms) 0) as [Hzero | _].
  { destruct ms; [now contradict Hsome | discriminate Hzero]. }
  cbv zeta in H.
  destruct (forValues _ ms _) as [this2|] eqn:Eloop; cbn [bind] in H;
    [| discriminate H].
  injection H as <-.
  pose proof Eloop as Hdepth.
  apply forValues_depth_kept in Hdepth;
    [ | apply Forall_forall; intros entry _; apply TSD_visit_depth
      | autorewrite with text; apply i32_wrap_in_range ].
  pose proof Eloop as Happ.
  apply forValues_appending, appends_join in Happ as [body Hbody];
    [| apply Forall_forall; intros entry _; apply TSD_visit_appending].
  autorewrite with text in Hdepth, Hbody.
  split.
  - autorewrite with text. rewrite Hdepth. now apply i32_decr_incr.
  - eexists _, this2, body. split; [| split; [exact Eloop | split]].
    + autorewrite with text. exact Hincr.
    + autorewrite with text. exact Hbody.
    + autorewrite with text. rewrite Hbody, Hdepth.
      rewrite i32_decr_incr by exact Hi32. now autorewrite with text.
Qed.

Lemma X18_TSD_namespace_block_is_well_bracketed_witness :
  indentLevel MoreSamples.TSD_after_Outer_namespace = indentLevel Samples.walking /\
  exists this1 this2 body,
    indentLevel this1 = indentLevel Samples.walking + 1 /\
    forValues TSDBuilder.visitElement
      [("Color", Samples.Color); ("K", Samples.K_prototype); ("X", Samples.X)]
      this1 = Ok this2 /\
    join (sb this2) = join (sb this1) +:+ body /\
    join (sb MoreSamples.TSD_after_Outer_namespace) =
      join (sb Samples.walking)
      +:+ indentation (indentLevel Samples.walking) +:+ "namespace "
      +:+ simpleName MoreSamples.Outer +:+ " {" +:+ LF
      +:+ body
      +:+ indentation (indentLevel Samples.walking) +:+ "}" +:+ LF.
Proof.
  apply (X18_TSD_namespace_block_is_well_bracketed MoreSamples.Outer
           [("Color", Samples.Color); ("K", Samples.K_prototype); ("X", Samples.X)]
           Samples.walking MoreSamples.TSD_after_Outer_namespace).
  - reflexivity.
  - discriminate.
  - simpl. lia.
  - vm_compute. reflexivity.
Defined.

(** * Declarations, one by one *)

(** ** One declaration for each compiled instance *)

Lemma distinctUnseen_cons (name : string) (element : Element)
    (rest : Map Element) (this : Builder) :
  distinctUnseen ((name, element) :: rest) (seen this) = true ->
  seen_has element this = false /\
  distinctUnseen rest ({[ident element]} ∪ seen this) = true.
Proof.
  cbn [distinctUnseen]. intros [Hhead Hrest]%andb_prop.
  split; [| exact Hrest]. unfold seen_has. now apply negb_true_iff.
Qed.

Section One_per_instance.
Variable visit : Element -> Builder -> Result Builder.
Variable fit : Element -> bool.
Variable declaration : Element -> string.
Variable origin : Builder.

(** Each visit of a fitting instance that is not yet seen writes the
    declaration of the instance, adds the instance to [seen] and leaves the
    depth and the program as they are. *)
Hypothesis visit_declares :
  forall element this,
    fit element = true -> seen_has element this = false ->
    indentLevel this = indentLevel origin -> program this = program origin ->
    exists this',
      visit element this = Ok this' /\
      join (sb this') = join (sb this) +:+ declaration element /\
      seen this' = {[ident element]} ∪ seen this /\
      indentLevel this' = indentLevel this /\
      program this' = program this.

Lemma forValues_declarations (m : Map Element) :
  forallb (fun entry => fit entry.2) m = true ->
  forall this,
    distinctUnseen m (seen this) = true ->
    indentLevel this = indentLevel origin -> program this = program origin ->
    exists this',
      forValues visit m this = Ok this' /\
      join (sb this') = join (sb this) +:+ declarations declaration m.
Proof.
  unfold declarations.
  induction m as [|[name element] m IH]; intros Hfit this Hfresh Hlevel Hprogram.
  - exists this. split; [reflexivity |]. cbn. now rewrite append_nil_r.
  - cbn [forallb snd] in Hfit. apply andb_prop in Hfit as [Hhead Hrest].
    destruct (distinctUnseen_cons _ _ _ _ Hfresh) as [Hunseen Hfresh1].
    destruct (visit_declares element this Hhead Hunseen Hlevel Hprogram)
      as (this1 & Hrun & Htext & Hseen & Hlevel1 & Hprogram1).
    rewrite <- Hseen in Hfresh1.
    destruct (IH Hrest this1 Hfresh1) as (this' & Hloop & Htext');
      [now rewrite Hlevel1 | now rewrite Hprogram1 |].
    exists this'. cbn [forValues forEntries]. rewrite Hrun. cbn [bind].
    split; [exact Hloop |].
    rewrite Htext', Htext. cbn [map snd]. rewrite join_cons.
    now rewrite append_assoc.
Qed.

End One_per_instance.

Lemma IDL_visitFunction_declares (ve : Element -> Builder -> Result Builder)
    (origin : Builder) (element : Element) (this : Builder) :
  plainFunction element = true -> seen_has element this = false ->
  indentLevel this = indentLevel origin -> program this = program origin ->
  exists this',
    IDLBuilder.visitFunction ve element this = Ok this' /\
    join (sb this') =
      join (sb this)
      +:+ (indentation (indentLevel origin) +:+ IDL_function_line origin element) /\
    seen this' = {[ident element]} ∪ seen this /\
    indentLevel this' = indentLevel this /\
    program this' = program this.
Proof.
  intros [[Hret Hps]%andb_prop Hnone%Nat.eqb_eq]%andb_prop Hseen Hlevel Hprogram.
  unfold IDLBuilder.visitFunction. rewrite Hseen. cbv zeta.
  rewrite (typeOk_IDL _ _ Hret). cbn [bind].
  match goal with
  | |- context [IDLBuilder.visitParameters _ 0 _ ?st] =>
      destruct (visitParameters_IDL_text (signature element) origin _ Hps 0 st)
        as (this1 & Hrun & Hprog1 & Hseen1 & Hlevel1 & Htext1);
        [exact Hprogram |]
  end.
  rewrite Hrun. cbn [bind].
  assert (Hdone : exists this',
             Ok (push (");" +:+ LF) this1) = Ok this' /\
             join (sb this') =
               join (sb this)
               +:+ (indentation (indentLevel origin)
                    +:+ IDL_function_line origin element) /\
             seen this' = {[ident element]} ∪ seen this /\
             indentLevel this' = indentLevel this /\
             program this' = program this).
  { eexists. split; [reflexivity |]. split; [| split; [| split]].
    - autorewrite with text. rewrite Htext1. autorewrite with text.
      rewrite (typeToString_IDL_program origin) by exact Hprogram.
      rewrite Hlevel. unfold IDL_function_line, IDL_parameters.
      rewrite <- separated_concat. now autorewrite with text.
    - exact Hseen1.
    - exact Hlevel1.
    - exact Hprog1. }
  unfold memberCount in Hnone.
  destruct (members element) as [[|entry ms]|]; try discriminate Hnone; exact Hdone.
Qed.

Lemma TSD_visitFunction_declares (ve : Element -> Builder -> Result Builder)
    (origin : Builder) (element : Element) (this : Builder) :
  plainFunction element = true -> seen_has element this = false ->
  indentLevel this = indentLevel origin -> program this = program origin ->
  exists this',
    TSDBuilder.visitFunction ve element this = Ok this' /\
    join (sb this') =
      join (sb this)
      +:+ (indentation (indentLevel origin) +:+ TSD_function_line origin element) /\
    seen this' = {[ident element]} ∪ seen this /\
    indentLevel this' = indentLevel this /\
    program this' = program this.
Proof.
  intros [[Hret Hps]%andb_prop Hnone%Nat.eqb_eq]%andb_prop Hseen Hlevel Hprogram.
  unfold TSDBuilder.visitFunction. rewrite Hseen. cbv zeta.
  match goal with
  | |- context [TSDBuilder.visitParameters _ 0 _ ?st] =>
      destruct (visitParameters_TSD_text (signature element) origin _ Hps 0 st)
        as (this1 & Hrun & Hprog1 & Hseen1 & Hlevel1 & Htext1);
        [exact Hprogram |]
  end.
  rewrite Hrun. cbn [bind].
  rewrite (typeOk_TSD _ _ Hret). cbn [bind].
  assert (Hnamespace : forall b, TSDBuilder.visitNamespace ve element b = Ok b).
  { intros b. unfold TSDBuilder.visitNamespace. unfold memberCount in Hnone.
    destruct (members element) as [[|entry ms]|]; try discriminate Hnone;
      reflexivity. }
  rewrite Hnamespace. eexists. split; [reflexivity |].
  split; [| split; [| split]].
  - autorewrite with text. rewrite Htext1. autorewrite with text.
    rewrite (typeToString_TSD_program origin)
      by (cbn [program push]; rewrite Hprog1; exact Hprogram).
    rewrite Hlevel. unfold TSD_function_line, TSD_parameters.
    rewrite <- separated_concat. now autorewrite with text.
  - exact Hseen1.
  - exact Hlevel1.
  - exact Hprog1.
Qed.

Lemma IDL_visitClass_declares (origin : Builder) (element : Element)
    (this : Builder) :
  i32_range (indentLevel origin) ->
  seen_has element this = false -> indentLevel this = indentLevel origin ->
  exists this',
    IDLBuilder.visitClass element this = Ok this' /\
    join (sb this') =
      join (sb this) +:+ IDL_class_block (indentLevel origin) element /\
    seen this' = {[ident element]} ∪ seen this /\
    indentLevel this' = indentLevel this /\
    program this' = program this.
Proof.
  intros Hrange Hseen Hlevel. unfold IDLBuilder.visitClass. rewrite Hseen.
  cbv zeta. eexists. split; [reflexivity |].
  split; [| split; [reflexivity | split; [| reflexivity]]].
  - unfold IDL_class_block, IDL_block_opening. autorewrite with text.
    rewrite Hlevel. now rewrite i32_decr_incr.
  - autorewrite with text. rewrite Hlevel. now apply i32_decr_incr.
Qed.

Lemma TSD_visitClass_declares (origin : Builder) (element : Element)
    (this : Builder) :
  i32_range (indentLevel origin) ->
  seen_has element this = false -> indentLevel this = indentLevel origin ->
  exists this',
    TSDBuilder.visitClass element this = Ok this' /\
    join (sb this') =
      join (sb this) +:+ TSD_class_block (indentLevel origin) element /\
    seen this' = {[ident element]} ∪ seen this /\
    indentLevel this' = indentLevel this /\
    program this' = program this.
Proof.
  intros Hrange Hseen Hlevel. unfold TSDBuilder.visitClass. rewrite Hseen.
  cbv zeta. eexists. split; [reflexivity |].
  unfold TSD_class_block, TSD_class_header.
  destruct (base element), (kind element), (is_ element ABSTRACT);
    (split; [| split; [reflexivity | split; [| reflexivity]]]);
    autorewrite with text; rewrite Hlevel; now rewrite i32_decr_incr.
Qed.

(** ** What a dispatch writes first *)


Lemma opens_later (this b this' : Builder) (declaration : string) :
  appends b this' -> opens this b declaration -> opens this this' declaration.
Proof.
  intros [more Hmore]%appends_join [rest Hrest].
  exists (rest +:+ more). rewrite Hmore, Hrest. now rewrite !append_assoc.
Qed.

Lemma IDL_typeToString_ok (this : Builder) (t : Type_) (s : string) :
  IDLBuilder.typeToString this t = Ok s -> typeOk t = true.
Proof.
  unfold IDLBuilder.typeToString, typeOk.
  destruct (type_kind t); intros H; try discriminate H; reflexivity.
Qed.

Lemma TSD_typeToString_ok (this : Builder) (t : Type_) (s : string) :
  TSDBuilder.typeToString this t = Ok s -> typeOk t = true.
Proof.
  unfold TSDBuilder.typeToString, typeOk.
  destruct (type_kind t); intros H; try discriminate H; reflexivity.
Qed.

Lemma visitParameters_IDL_ok (sg : Signature) (ps : list Type_) (i : nat)
    (this this' : Builder) :
  IDLBuilder.visitParameters sg i ps this = Ok this' -> forallb typeOk ps = true.
Proof.
  revert i this. induction ps as [|p ps IH]; intros i this H; [reflexivity |].
  cbn [IDLBuilder.visitParameters] in H.
  destruct (IDLBuilder.typeToString _ p) as [s|] eqn:Etype; cbn [bind] in H;
    [| discriminate H].
  cbn [forallb]. rewrite (IDL_typeToString_ok _ _ _ Etype). exact (IH _ _ H).
Qed.

Lemma visitParameters_TSD_ok (sg : Signature) (ps : list Type_) (i : nat)
    (this this' : Builder) :
  TSDBuilder.visitParameters sg i ps this = Ok this' -> forallb typeOk ps = true.
Proof.
  revert i this. induction ps as [|p ps IH]; intros i this H; [reflexivity |].
  cbn [TSDBuilder.visitParameters] in H.
  destruct (TSDBuilder.typeToString _ p) as [s|] eqn:Etype; cbn [bind] in H;
    [| discriminate H].
  cbn [forallb]. rewrite (TSD_typeToString_ok _ _ _ Etype). exact (IH _ _ H).
Qed.

Lemma IDL_members_appending (element : Element) :
  members_appending IDLBuilder.visitElement element.
Proof.
  intros ms _. apply Forall_forall. intros entry _. apply IDL_visit_appending.
Qed.

Lemma TSD_members_appending (element : Element) :
  members_appending TSDBuilder.visitElement element.
Proof.
  intros ms _. apply Forall_forall. intros entry _. apply TSD_visit_appending.
Qed.

Section Visitors_open.
Variable ve : Element -> Builder -> Result Builder.
Variable element : Element.
Hypothesis Hm : members_appending ve element.




Lemma IDL_visitClass_opens (this this' : Builder) :
  seen_has element this = false ->
  IDLBuilder.visitClass element this = Ok this' ->
  opens this this' (IDL_block_opening element).
Proof.
  intros Hseen H. unfold IDLBuilder.visitClass in H. rewrite Hseen in H.
  cbv zeta in H. injection H as <-.
  exists (indentation (i32_decr (i32_incr (indentLevel this))) +:+ "}" +:+ LF).
  unfold IDL_block_opening. now autorewrite with text.
Qed.

Lemma IDL_visitFunction_opens (this this' : Builder) :
  seen_has element this = false ->
  IDLBuilder.visitFunction ve element this = Ok this' ->
  opens this this' (IDL_function_line this element).
Proof.
  intros Hseen H. unfold IDLBuilder.visitFunction in H. rewrite Hseen in H.
  cbv zeta in H.
  destruct (IDLBuilder.typeToString _ _) as [s|] eqn:Eret; cbn [bind] in H;
    [| discriminate H].
  destruct (IDLBuilder.visitParameters _ _ _ _) as [b1|] eqn:Eparams;
    cbn [bind] in H; [| discriminate H].
  pose proof (visitParameters_IDL_ok _ _ _ _ _ Eparams) as Hps.
  match type of Eparams with
  | IDLBuilder.visitParameters _ 0 _ ?st = _ =>
      destruct (visitParameters_IDL_text (signature element) this _ Hps 0 st)
        as (b1' & Hrun & _ & _ & _ & Htext1); [reflexivity |]
  end.
  rewrite Hrun in Eparams. injection Eparams as ->.
  rewrite (typeToString_IDL_program this) in Eret by reflexivity.
  assert (Happ : appends (push (");" +:+ LF) b1) this')
    by (clear Hrun Htext1 Eret; split_runs; use_loops ve Hm;
        chain_appends (push (");" +:+ LF) b1)).
  apply (opens_later _ _ _ _ Happ). exists EmptyString.
  autorewrite with text. rewrite Htext1. autorewrite with text.
  unfold IDL_function_line, IDL_parameters. rewrite Eret. cbn [spelled].
  rewrite <- separated_concat. now autorewrite with text.
Qed.




Lemma TSD_visitFunction_opens (this this' : Builder) :
  seen_has element this = false ->
  TSDBuilder.visitFunction ve element this = Ok this' ->
  opens this this' (TSD_function_line this element).
Proof.
  intros Hseen H. unfold TSDBuilder.visitFunction in H. rewrite Hseen in H.
  cbv zeta in H.
  destruct (TSDBuilder.visitParameters _ _ _ _) as [b1|] eqn:Eparams;
    cbn [bind] in H; [| discriminate H].
  destruct (TSDBuilder.typeToString _ _) as [s|] eqn:Eret; cbn [bind] in H;
    [| discriminate H].
  pose proof (visitParameters_TSD_ok _ _ _ _ _ Eparams) as Hps.
  match type of Eparams with
  | TSDBuilder.visitParameters _ 0 _ ?st = _ =>
      destruct (visitParameters_TSD_text (signature element) this _ Hps 0 st)
        as (b1' & Hrun & Hprog1 & _ & _ & Htext1); [reflexivity |]
  end.
  rewrite Hrun in Eparams. injection Eparams as ->.
  rewrite (typeToString_TSD_program this) in Eret
    by (cbn [program push]; rewrite Hprog1; reflexivity).
  apply (TSD_visitNamespace_appending _ _ Hm) in H.
  apply (opens_later _ _ _ _ H). exists EmptyString.
  autorewrite with text. rewrite Htext1. autorewrite with text.
  unfold TSD_function_line, TSD_parameters. rewrite Eret. cbn [spelled].
  rewrite <- separated_concat. now autorewrite with text.
Qed.

Lemma TSD_visitClass_opens (this this' : Builder) :
  seen_has element this = false ->
  TSDBuilder.visitClass element this = Ok this' ->
  opens this this' (TSD_class_header element +:+ " {" +:+ LF).
Proof.
  intros Hseen H. unfold TSDBuilder.visitClass in H. rewrite Hseen in H.
  cbv zeta in H. injection H as <-.
  exists (indentation (i32_decr (i32_incr (indentLevel this))) +:+ "}" +:+ LF).
  unfold TSD_class_header, is_.
  destruct (base element), (kind element), (flag_abstract (flags element));
    now autorewrite with text.
Qed.

End Visitors_open.




Section Turns.
Variable visit : Element -> Builder -> Result Builder.
Variable firstDeclaration : Builder -> Element -> option string.
Hypothesis visit_emits :
  forall element this this',
    visit element this = Ok this' -> exists t, emits visit element this t this'.
Hypothesis visit_first :
  forall element this this',
    visit element this = Ok this' ->
    match firstDeclaration this element with
    | Some declaration => opens this this' declaration
    | None => this' = this
    end.



End Turns.


(** ** Uncompiled elements, and the instances of a prototype *)

(** C2 (amended): in both builders, a [Global], [Enum] or [Namespace]
    that reaches the dispatcher without [COMPILED] leaves the builder as it
    is, so no text is written for it.  A [FunctionPrototype] or
    [ClassPrototype] is rendered by visiting, in order, exactly those of its
    instances that carry [COMPILED], and it contributes exactly one
    declaration for each of them, in that order: when these instances are
    distinct objects not yet seen, the text written is one line
    [<returnType> <name>(...);] (WebIDL) or [function <name>(...): ...;]
    (TypeScript) per compiled function instance with a spelled signature and
    no members, and one empty block per compiled class instance; with no
    compiled instance the builder is left as it is.  Whatever its members,
    an instance that is visited when already seen writes nothing, and one
    that is not yet seen writes its declaration first.  The line of an
    [EnumValue] member of a visited enum is written whatever the [COMPILED]
    flag of the value. *)
Theorem C2_one_declaration_per_compiled_instance (element : Element)
    (this : Builder) :
  (kind element = GLOBAL \/ kind element = ENUM \/ kind element = NAMESPACE ->
   is_ element COMPILED = false ->
   IDLBuilder.visitElement element this = Ok this /\
   TSDBuilder.visitElement element this = Ok this) /\
  (kind element = FUNCTION_PROTOTYPE ->
   (IDLBuilder.visitElement element this =
      forValues (IDLBuilder.visitFunction IDLBuilder.visitElement)
        (compiledOnly (instances element)) this /\
    TSDBuilder.visitElement element this =
      forValues (TSDBuilder.visitFunction TSDBuilder.visitElement)
        (compiledOnly (instances element)) this) /\
   (distinctUnseen (compiledOnly (instances element)) (seen this) = true ->
    forallb (fun entry => plainFunction entry.2)
      (compiledOnly (instances element)) = true ->
    0 <= indentLevel this ->
    (exists this',
        IDLBuilder.visitElement element this = Ok this' /\
        join (sb this') =
          join (sb this)
          +:+ declarations
                (fun instance => indentation (indentLevel this)
                                 +:+ IDL_function_line this instance)
                (compiledOnly (instances element))) /\
    (exists this',
        TSDBuilder.visitElement element this = Ok this' /\
        join (sb this') =
          join (sb this)
          +:+ declarations
                (fun instance => indentation (indentLevel this)
                                 +:+ TSD_function_line this instance)
                (compiledOnly (instances element))))) /\
  (kind element = CLASS_PROTOTYPE ->
   (IDLBuilder.visitElement element this =
      forValues IDLBuilder.visitClass (compiledOnly (instances element)) this /\
    TSDBuilder.visitElement element this =
      forValues TSDBuilder.visitClass (compiledOnly (instances element)) this) /\
   (distinctUnseen (compiledOnly (instances element)) (seen this) = true ->
    0 <= indentLevel this < 2 ^ 31 ->
    (exists this',
        IDLBuilder.visitElement element this = Ok this' /\
        join (sb this') =
          join (sb this)
          +:+ declarations (IDL_class_block (indentLevel this))
                (compiledOnly (instances element))) /\
    (exists this',
        TSDBuilder.visitElement element this = Ok this' /\
        join (sb this') =
          join (sb this)
          +:+ declarations (TSD_class_block (indentLevel this))
                (compiledOnly (instances element))))) /\
  (kind element = FUNCTION_PROTOTYPE \/ kind element = CLASS_PROTOTYPE ->
   compiledOnly (instances element) = [] ->
   IDLBuilder.visitElement element this = Ok this /\
   TSDBuilder.visitElement element this = Ok this) /\
  ((seen_has element this = true ->
    IDLBuilder.visitFunction IDLBuilder.visitElement element this = Ok this /\
    TSDBuilder.visitFunction TSDBuilder.visitElement element this = Ok this /\
    IDLBuilder.visitClass element this = Ok this /\
    TSDBuilder.visitClass element this = Ok this) /\
   (seen_has element this = false -> 0 <= indentLevel this ->
    forall this',
      (IDLBuilder.visitFunction IDLBuilder.visitElement element this = Ok this' ->
       opens this this' (IDL_function_line this element)) /\
      (TSDBuilder.visitFunction TSDBuilder.visitElement element this = Ok this' ->
       opens this this' (TSD_function_line this element)) /\
      (IDLBuilder.visitClass element this = Ok this' ->
       opens this this' (IDL_block_opening element)) /\
      (TSDBuilder.visitClass element this = Ok this' ->
       opens this this' (TSD_class_header element +:+ " {" +:+ LF)))) /\
  (kind element = ENUMVALUE -> 0 <= indentLevel this ->
   forall (name : string) (numMembers : Z),
     (exists this',
         IDLBuilder.visitEnumValue name element this = Ok this' /\
         join (sb this') =
           join (sb this) +:+ indentation (indentLevel this)
           +:+ IDL_enumValue_line name element) /\
     (exists this',
         TSDBuilder.visitEnumValue name element (this, numMembers) =
           Ok (this', i32_decr numMembers) /\
         join (sb this') =
           join (sb this) +:+ indentation (indentLevel this)
           +:+ TSD_enumValue_line name element)).
Proof.
  rewrite IDL_visitElement_unfold, TSD_visitElement_unfold.
  split; [| split; [| split; [| split; [| split]]]].
  - intros Hkind Hflag. split; now apply visitElement_uncompiled.
  - intros Hkind. rewrite !visitElement_function_prototype by assumption.
    cbn [ExportsWalker.visitFunction IDLBuilder.visitor TSDBuilder.visitor].
    split; [split; reflexivity |].
    intros Hfresh Hfit _. split.
    + apply (forValues_declarations _ _ _ this
               (IDL_visitFunction_declares IDLBuilder.visitElement this));
        [exact Hfit | exact Hfresh | reflexivity | reflexivity].
    + apply (forValues_declarations _ _ _ this
               (TSD_visitFunction_declares TSDBuilder.visitElement this));
        [exact Hfit | exact Hfresh | reflexivity | reflexivity].
  - intros Hkind. rewrite !visitElement_class_prototype by assumption.
    cbn [ExportsWalker.visitClass IDLBuilder.visitor TSDBuilder.visitor].
    split; [split; reflexivity |].
    intros Hfresh Hrange.
    assert (Hi32 : i32_range (indentLevel this)) by (unfold i32_range; lia).
    assert (Hall : forallb (fun entry : string * Element => true)
                     (compiledOnly (instances element)) = true)
      by (apply forallb_forall; reflexivity).
    split.
    + apply (forValues_declarations _ (fun _ => true) _ this
               (fun instance b _ Hunseen Hlevel _ =>
                  IDL_visitClass_declares this instance b Hi32 Hunseen Hlevel));
        [exact Hall | exact Hfresh | reflexivity | reflexivity].
    + apply (forValues_declarations _ (fun _ => true) _ this
               (fun instance b _ Hunseen Hlevel _ =>
                  TSD_visitClass_declares this instance b Hi32 Hunseen Hlevel));
        [exact Hall | exact Hfresh | reflexivity | reflexivity].
  - intros [Hkind | Hkind] Hnone.
    + rewrite !visitElement_function_prototype by assumption.
      now rewrite Hnone.
    + rewrite !visitElement_class_prototype by assumption.
      now rewrite Hnone.
  - split.
    + intros Hseen.
      destruct (IDL_visit_seen IDLBuilder.visitElement element this Hseen)
        as (_ & _ & HIf & HIc & _).
      destruct (TSD_visit_seen TSDBuilder.visitElement element this Hseen)
        as (_ & _ & HTf & HTc & _).
      repeat split; assumption.
    + intros Hseen _ this'. split; [| split; [| split]]; intros Hrun.
      * exact (IDL_visitFunction_opens _ _ (IDL_members_appending element)
                 _ _ Hseen Hrun).
      * exact (TSD_visitFunction_opens _ _ (TSD_members_appending element)
                 _ _ Hseen Hrun).
      * exact (IDL_visitClass_opens _ _ _ Hseen Hrun).
      * exact (TSD_visitClass_opens _ _ _ Hseen Hrun).
  - intros Hkind _ name numMembers.
    unfold IDLBuilder.visitEnumValue, TSDBuilder.visitEnumValue,
      IDL_enumValue_line, TSD_enumValue_line.
    rewrite Hkind. cbv zeta.
    split; (eexists; split; [reflexivity |]);
      destruct (is_ element INLINED); now autorewrite with text.
Qed.

Lemma C2_one_declaration_per_compiled_instance_witness :
  (IDLBuilder.visitElement Samples.U Samples.walking = Ok Samples.walking /\
   TSDBuilder.visitElement Samples.U Samples.walking = Ok Samples.walking) /\
  ((exists this',
       IDLBuilder.visitElement MoreSamples.max_prototype Samples.walking
         = Ok this' /\
       join (sb this') =
         join (sb Samples.walking)
         +:+ lines [ "  long max(long a, long b);";
                     "  unrestricted double max(unrestricted double a, unrestricted double b);" ]) /\
   (exists this',
       TSDBuilder.visitElement MoreSamples.max_prototype Samples.walking
         = Ok this' /\
       join (sb this') =
         join (sb Samples.walking)
         +:+ lines [ "  function max(a: i32, b: i32): i32;";
                     "  function max(a: f64, b: f64): f64;" ])) /\
  ((exists this',
       IDLBuilder.visitElement MoreSamples.Pair_prototype Samples.walking
         = Ok this' /\
       join (sb this') =
         join (sb Samples.walking)
         +:+ lines [ "  interface Pair {"; "  }";
                     "  interface Shape {"; "  }" ]) /\
   (exists this',
       TSDBuilder.visitElement MoreSamples.Pair_prototype Samples.walking
         = Ok this' /\
       join (sb this') =
         join (sb Samples.walking)
         +:+ lines [ "  class Pair {"; "  }";
                     "  abstract class Shape extends Base {"; "  }" ])) /\
  (IDLBuilder.visitElement Samples.L_prototype Samples.walking = Ok Samples.walking /\
   TSDBuilder.visitElement Samples.L_prototype Samples.walking = Ok Samples.walking) /\
  (opens Samples.walking MoreSamples.IDL_after_f ("void f();" +:+ LF) /\
   opens Samples.walking MoreSamples.TSD_after_f ("function f(): void;" +:+ LF)) /\
  ((exists this',
       IDLBuilder.visitEnumValue "RED" Samples.RED Samples.walking = Ok this' /\
       join (sb this') =
         join (sb Samples.walking) +:+ indentation 1
         +:+ "const unsigned long RED = 0;" +:+ LF) /\
   (exists this',
       TSDBuilder.visitEnumValue "RED" Samples.RED (Samples.walking, 1) =
         Ok (this', 0) /\
       join (sb this') =
         join (sb Samples.walking) +:+ indentation 1 +:+ "RED = 0," +:+ LF)).
Proof.
  split; [| split; [| split; [| split; [| split]]]].
  - destruct (C2_one_declaration_per_compiled_instance Samples.U Samples.walking)
      as (Hskip & _).
    apply Hskip; [left; reflexivity | reflexivity].
  - destruct (C2_one_declaration_per_compiled_instance
                MoreSamples.max_prototype Samples.walking)
      as (_ & Hfunction & _).
    destruct (Hfunction eq_refl) as [_ Htext].
    apply Htext; [reflexivity | reflexivity | simpl; lia].
  - destruct (C2_one_declaration_per_compiled_instance
                MoreSamples.Pair_prototype Samples.walking)
      as (_ & _ & Hclass & _).
    destruct (Hclass eq_refl) as [_ Htext].
    apply Htext; [reflexivity | simpl; lia].
  - destruct (C2_one_declaration_per_compiled_instance
                Samples.L_prototype Samples.walking)
      as (_ & _ & _ & Hnone & _).
    apply Hnone; [right; reflexivity | reflexivity].
  - destruct (C2_one_declaration_per_compiled_instance Samples.f Samples.walking)
      as (_ & _ & _ & _ & [_ Hfirst] & _).
    split.
    + apply (Hfirst eq_refl ltac:(simpl; lia) MoreSamples.IDL_after_f).
      vm_compute. reflexivity.
    + apply (Hfirst eq_refl ltac:(simpl; lia) MoreSamples.TSD_after_f).
      vm_compute. reflexivity.
  - destruct (C2_one_declaration_per_compiled_instance Samples.RED Samples.walking)
      as (_ & _ & _ & _ & _ & Hvalue).
    apply (Hvalue eq_refl ltac:(simpl; lia) "RED" 1).
Defined.

(** ** The order of the module-level exports *)



